(** * Display clients and orchestration core of the transcription engine

    A shallow embedding of the two display clients of the repository: the
    Electron renderer process ([handleMessage], [handleTranscript],
    [handleResponse], [handleStatus], [getLatencyClass], [escapeHtml], the
    clear button and the heartbeat timer) and the React component
    [StealthPrompter] ([handleMessage], [clearAll] and what it renders).
    The two server-side components the specification describes, the Hint
    Requester with its concurrency cap and the Event Hub with its bounded
    subscriber queues, are not among the sources and are modelled from the
    specification. *)

From Stdlib Require Import QArith Qround Lqa.
From stdpp Require Import base list strings sorting gmap pretty.

Set Default Proof Using "Type".

(** ** JavaScript strings

    A JavaScript string is a sequence of UTF-16 code units.  Literals of the
    source that are plain ASCII are written with [lit]; the few characters
    outside ASCII are given by their code units. *)

Abbreviation jsstring := (list N).

Definition lit (s : string) : jsstring :=
  map Ascii.N_of_ascii (String.list_ascii_of_string s).

(** The double quote, U+0022. *)
Definition dq : jsstring := [34%N].
(** Line feed, as it occurs inside the template literals. *)
Definition nl : jsstring := [10%N].

Definition quoted (s : jsstring) : jsstring := dq ++ s ++ dq.

(** JavaScript truthiness of a value that is a string or [undefined]. *)
Definition truthy (v : option jsstring) : bool :=
  match v with
  | Some (_ :: _) => true
  | _ => false
  end.

(** Template-literal interpolation [`${v}`] of a string or [undefined]. *)
Definition interpolate (v : option jsstring) : jsstring :=
  match v with
  | Some s => s
  | None => lit "undefined"
  end.

(** [WhiteSpace] and [LineTerminator] code points of ECMAScript, the ones
    [String.prototype.trim] strips. *)
Definition is_js_whitespace (c : N) : bool :=
  ((9 <=? c) && (c <=? 13) || (c =? 32) || (c =? 160) || (c =? 5760)
   || (8192 <=? c) && (c <=? 8202) || (c =? 8232) || (c =? 8233)
   || (c =? 8239) || (c =? 8287) || (c =? 12288) || (c =? 65279))%N.

Fixpoint trimStart (s : jsstring) : jsstring :=
  match s with
  | [] => []
  | c :: r => if is_js_whitespace c then trimStart r else s
  end.

Definition trimEnd (s : jsstring) : jsstring := rev (trimStart (rev s)).

(** [String.prototype.trim]. *)
Definition trim (s : jsstring) : jsstring := trimEnd (trimStart s).

(** [Array.prototype.slice(-n)]: the last [n] items, all of them when the
    array is shorter. *)
Definition slice_last {A} (n : nat) (l : list A) : list A :=
  drop (length l - n) l.

(** ** Renderer utilities *)

(** [getLatencyClass].  The argument is a JavaScript number or [undefined];
    a comparison with [undefined] is false.  1000 and 2000 are exact in
    IEEE-754 and rounding is monotone, so comparing the rationals agrees
    with comparing the doubles. *)
Definition js_lt (x : option Q) (bound : Q) : bool :=
  match x with
  | Some l => if Qlt_le_dec l bound then true else false
  | None => false
  end.

Definition getLatencyClass (latencyMs : option Q) : jsstring :=
  if js_lt latencyMs 1000 then lit "good"
  else if js_lt latencyMs 2000 then lit "ok"
  else lit "slow".

(** The HTML fragment serialisation of one code unit of a text node:
    the "escaping a string" steps of the HTML standard, outside attribute
    mode. *)
Definition amp : N := 38%N.
Definition lt_sign : N := 60%N.
Definition gt_sign : N := 62%N.
Definition nbsp : N := 160%N.

Definition escape_unit (c : N) : jsstring :=
  if (c =? amp)%N then lit "&amp;"
  else if (c =? nbsp)%N then lit "&nbsp;"
  else if (c =? lt_sign)%N then lit "&lt;"
  else if (c =? gt_sign)%N then lit "&gt;"
  else [c].

Definition serialize_text (t : jsstring) : jsstring :=
  flat_map escape_unit t.

(** Assigning [textContent]: [null] and [undefined] act as the empty
    string. *)
Definition set_textContent (v : option jsstring) : jsstring :=
  match v with
  | Some s => s
  | None => []
  end.

(** [escapeHtml]: a fresh [div] gets the text as its content and is read
    back through [innerHTML]. *)
Definition escapeHtml (text : option jsstring) : jsstring :=
  let div_text := set_textContent text in
  serialize_text div_text.

(** The four character references [escapeHtml] can emit. *)
Definition entities : list (jsstring * N) :=
  [ (lit "&amp;", amp); (lit "&lt;", lt_sign); (lit "&gt;", gt_sign);
    (lit "&nbsp;", nbsp) ].

(** Strip [p] from the front of [s]. *)
Fixpoint strip_prefix (p s : jsstring) : option jsstring :=
  match p, s with
  | [], _ => Some s
  | a :: p', b :: s' => if (a =? b)%N then strip_prefix p' s' else None
  | _ :: _, [] => None
  end.

Fixpoint match_entity (es : list (jsstring * N)) (s : jsstring)
  : option (N * jsstring) :=
  match es with
  | [] => None
  | (e, c) :: es' =>
      match strip_prefix e s with
      | Some r => Some (c, r)
      | None => match_entity es' s
      end
  end.

(** What the HTML parser reads back from character data that uses the
    references of [entities]: each reference becomes its character, any
    other code unit stands for itself.  [n] bounds the number of steps. *)
Fixpoint decode_text (n : nat) (s : jsstring) : jsstring :=
  match n with
  | O => []
  | S n' =>
      match s with
      | [] => []
      | c :: r =>
          match match_entity entities s with
          | Some (u, r') => u :: decode_text n' r'
          | None => c :: decode_text n' r
          end
      end
  end.

Definition unescapeHtml (s : jsstring) : jsstring :=
  decode_text (length s) s.

(** An ampersand at index [i] of [s] starts one of the references. *)
Definition reference_at (s : jsstring) (i : nat) : Prop :=
  ∃ e, e ∈ entities.*1 ∧ e `prefix_of` drop i s.

(** ** Messages

    An incoming message is the result of [JSON.parse]: an object with a
    [type] and a [data] object of the shapes of the fan-out protocol.  Every
    field of [data] may be absent ([None] stands for [undefined]);
    [is_final] is kept by its truthiness. *)

Record Data := mkData {
  text : option jsstring;
  is_final : bool;
  confidence : option Q;
  timestamp : option Q;
  question : option jsstring;
  context : option jsstring;
  latency_ms : option Q;
  status : option jsstring;
  message : option jsstring
}.

Record Message := mkMessage {
  type : jsstring;
  data : Data
}.

Definition no_data : Data :=
  mkData None false None None None None None None None.

(** The transcript, hint and status shapes of the fan-out protocol. *)
Definition transcript_msg (t : jsstring) (final : bool) (conf ts : Q) : Message :=
  mkMessage (lit "transcript")
    (mkData (Some t) final (Some conf) (Some ts) None None None None None).

Definition hint_msg (t q : jsstring) (ts latency : Q) : Message :=
  mkMessage (lit "hint")
    (mkData (Some t) false None (Some ts) (Some q) None (Some latency) None None).

(** ** Platform functions

    Number formatting works on IEEE-754 doubles and time formatting on the
    locale data of the host; the clients only splice their results into the
    display, so they are kept as parameters. *)
Class Platform := {
  (** a [Date] object, as [new Date()] returns it *)
  Date : Type;
  (** [formatTime(date)], that is [toLocaleTimeString('en-US', ...)] *)
  formatTime : Date → jsstring;
  (** [(confidence * 100).toFixed(0)] *)
  percent : option Q → jsstring;
  (** [`${n}`] for a number or [undefined] *)
  number_to_string : option Q → jsstring;
  (** [new Date(timestamp * 1000).toLocaleTimeString()] *)
  localeTime : option Q → jsstring
}.

(** ** WebSocket connections *)

Inductive ReadyState := CONNECTING | OPEN | CLOSING | CLOSED.

Global Instance ReadyState_eq_dec : EqDecision ReadyState.
Proof. solve_decision. Defined.

(** A socket and the frames handed to [send] so far, oldest first. *)
Record WebSocket := mkWebSocket {
  readyState : ReadyState;
  sent : list jsstring
}.

Definition send (frame : jsstring) (w : WebSocket) : WebSocket :=
  mkWebSocket (readyState w) (sent w ++ [frame]).

(** [ws && ws.readyState === WebSocket.OPEN] *)
Definition is_open (w : option WebSocket) : bool :=
  match w with
  | Some s => bool_decide (readyState s = OPEN)
  | None => false
  end.

(** [if (ws && ws.readyState === WebSocket.OPEN) ws.send(frame)] *)
Definition send_if_open (frame : jsstring) (w : option WebSocket)
  : option WebSocket :=
  if is_open w then send frame <$> w else w.

(** [JSON.stringify({ type: t })] *)
Definition json_type_only (t : jsstring) : jsstring :=
  lit "{" ++ quoted (lit "type") ++ lit ":" ++ quoted t ++ lit "}".

Definition clear_context_frame : jsstring := json_type_only (lit "clear_context").
Definition ping_frame : jsstring := json_type_only (lit "ping").

(** Frames a socket variable has sent; none when there is no socket. *)
Definition frames (w : option WebSocket) : list jsstring :=
  match w with
  | Some s => sent s
  | None => []
  end.

(** ** The Electron renderer *)

Module Renderer.

(** A DOM element, by what the renderer sets on it.  Its [style.opacity]
    and the scroll position of its container only steer the fade-in and
    the viewport; they are not part of the displayed content and are left
    out. *)
Record Element := mkElement {
  elem_id : jsstring;
  className : jsstring;
  innerHTML : jsstring
}.

(** One entry of [console.warn]: the label and the value logged. *)
Record Warning := mkWarning {
  warn_label : jsstring;
  warn_value : jsstring
}.

(** The module-level variables of the renderer and the parts of the page
    it writes to. *)
Record State := mkState {
  ws : option WebSocket;
  transcriptContainer : list Element;
  responseContainer : list Element;
  statusIndicator : jsstring;     (* its className *)
  statusText : jsstring;          (* its textContent *)
  latencyIndicator : jsstring * jsstring;  (* textContent, className *)
  console : list Warning
}.

Definition set_ws (w : option WebSocket) (s : State) : State :=
  mkState w (transcriptContainer s) (responseContainer s)
    (statusIndicator s) (statusText s) (latencyIndicator s) (console s).

Definition set_transcriptContainer (c : list Element) (s : State) : State :=
  mkState (ws s) c (responseContainer s)
    (statusIndicator s) (statusText s) (latencyIndicator s) (console s).

Definition set_responseContainer (c : list Element) (s : State) : State :=
  mkState (ws s) (transcriptContainer s) c
    (statusIndicator s) (statusText s) (latencyIndicator s) (console s).

Definition set_latencyIndicator (l : jsstring * jsstring) (s : State) : State :=
  mkState (ws s) (transcriptContainer s) (responseContainer s)
    (statusIndicator s) (statusText s) l (console s).

Definition console_warn (label value : jsstring) (s : State) : State :=
  mkState (ws s) (transcriptContainer s) (responseContainer s)
    (statusIndicator s) (statusText s) (latencyIndicator s)
    (console s ++ [mkWarning label value]).

(** The page before any message: no socket, empty containers (the page
    markup is not among the sources; the containers are taken to start
    without children). *)
Definition initial : State :=
  mkState None [] [] [] [] ([], []) [].

Definition interim_id : jsstring := lit "interim-transcript".

(** [document.getElementById(id)], over the children of the transcript
    container (the only elements that are given an id): the first match
    in document order, with its index. *)
Definition getElementById (id : jsstring) (children : list Element)
  : option (nat * Element) :=
  list_find (λ e, elem_id e = id) children.

(** [while (container.children.length > max) container.removeChild(container.firstChild)] *)
Fixpoint limit_children (max : nat) (children : list Element) : list Element :=
  match children with
  | [] => []
  | _ :: rest =>
      if max <? length children then limit_children max rest else children
  end.

Definition maxTranscripts : nat := 20.
Definition maxResponses : nat := 10.

Definition indent (n : nat) : jsstring := replicate n 32%N.

(** [<name class="cls">] *)
Definition open_tag (name : string) (cls : jsstring) : jsstring :=
  lit "<" ++ lit name ++ lit " class=" ++ quoted cls ++ lit ">".

Definition close_tag (name : string) : jsstring :=
  lit "</" ++ lit name ++ lit ">".

(** [updateStatus(status, text)] *)
Definition updateStatus (st : option jsstring) (txt : option jsstring)
    (s : State) : State :=
  mkState (ws s) (transcriptContainer s) (responseContainer s)
    (lit "status-dot " ++ interpolate st) (set_textContent txt)
    (latencyIndicator s) (console s).

(** [handleStatus]: [message || status] picks the message when truthy. *)
Definition handleStatus (d : Data) (s : State) : State :=
  updateStatus (status d)
    (if truthy (message d) then message d else status d) s.

Section WithPlatform.
Context {platform : Platform}.

(** The template literal of a final transcript element. *)
Definition final_html (now : Date) (t : jsstring) (conf : option Q) : jsstring :=
  nl ++ indent 6 ++ open_tag "div" (lit "transcript-text")
     ++ escapeHtml (Some t) ++ close_tag "div"
  ++ nl ++ indent 6 ++ open_tag "div" (lit "transcript-meta")
  ++ nl ++ indent 8 ++ open_tag "span" (lit "confidence")
     ++ lit "Confidence: " ++ percent conf ++ lit "%" ++ close_tag "span"
  ++ nl ++ indent 8 ++ open_tag "span" (lit "timestamp")
     ++ formatTime now ++ close_tag "span"
  ++ nl ++ indent 6 ++ close_tag "div"
  ++ nl ++ indent 4.

(** The template literal of the interim transcript element. *)
Definition interim_html (t : jsstring) : jsstring :=
  nl ++ indent 6 ++ open_tag "div" (lit "transcript-text")
     ++ escapeHtml (Some t) ++ close_tag "div"
  ++ nl ++ indent 6 ++ open_tag "div" (lit "transcript-meta")
  ++ nl ++ indent 8 ++ open_tag "span" (lit "interim-label")
     ++ lit "Interim..." ++ close_tag "span"
  ++ nl ++ indent 6 ++ close_tag "div"
  ++ nl ++ indent 4.

(** [handleTranscript(data)], run at clock reading [now]. *)
Definition handleTranscript (now : Date) (d : Data) (s : State) : State :=
  match text d with
  | None => s
  | Some t =>
      if negb (truthy (Some t)) || negb (truthy (Some (trim t))) then s
      else
        let transcriptEl := getElementById interim_id (transcriptContainer s) in
        if is_final d then
          let children :=
            match transcriptEl with
            | Some (i, _) => delete i (transcriptContainer s)
            | None => transcriptContainer s
            end in
          let finalEl :=
            mkElement [] (lit "transcript-item final")
              (final_html now t (confidence d)) in
          set_transcriptContainer
            (limit_children maxTranscripts (children ++ [finalEl])) s
        else
          match transcriptEl with
          | None =>
              let el :=
                mkElement interim_id (lit "transcript-item interim")
                  (interim_html t) in
              set_transcriptContainer (transcriptContainer s ++ [el]) s
          | Some (i, el) =>
              let el' := mkElement (elem_id el) (className el) (interim_html t) in
              set_transcriptContainer (<[i:=el']> (transcriptContainer s)) s
          end
  end.

(** [updateLatency(latencyMs)] *)
Definition updateLatency (latencyMs : option Q) (s : State) : State :=
  set_latencyIndicator
    (number_to_string latencyMs ++ lit "ms",
     lit "latency-value " ++ getLatencyClass latencyMs) s.

(** The robot face U+1F916 (a surrogate pair) and the high-voltage sign
    U+26A1 of the response card. *)
Definition robot_icon : jsstring := [55358%N; 56598%N].
Definition bolt_icon : jsstring := [9889%N].

(** The template literal of a response card. *)
Definition response_html (now : Date) (d : Data) : jsstring :=
  nl ++ indent 4 ++ open_tag "div" (lit "response-header")
  ++ nl ++ indent 6 ++ open_tag "span" (lit "response-icon")
     ++ robot_icon ++ close_tag "span"
  ++ nl ++ indent 6 ++ open_tag "span" (lit "response-time")
     ++ formatTime now ++ close_tag "span"
  ++ nl ++ indent 4 ++ close_tag "div"
  ++ nl ++ indent 4 ++ open_tag "div" (lit "response-text")
     ++ escapeHtml (text d) ++ close_tag "div"
  ++ nl ++ indent 4
     ++ (if truthy (context d)
         then open_tag "div" (lit "response-context")
              ++ lit "Context: " ++ escapeHtml (context d) ++ close_tag "div"
         else [])
  ++ nl ++ indent 4 ++ open_tag "div" (lit "response-footer")
  ++ nl ++ indent 6
     ++ open_tag "span" (lit "latency " ++ getLatencyClass (latency_ms d))
  ++ nl ++ indent 8 ++ bolt_icon ++ lit " "
     ++ number_to_string (latency_ms d) ++ lit "ms"
  ++ nl ++ indent 6 ++ close_tag "span"
  ++ nl ++ indent 4 ++ close_tag "div"
  ++ nl ++ indent 2.

(** [handleResponse(data)], run at clock reading [now]. *)
Definition handleResponse (now : Date) (d : Data) (s : State) : State :=
  let responseEl := mkElement [] (lit "response-card") (response_html now d) in
  let s1 := set_responseContainer (responseContainer s ++ [responseEl]) s in
  let s2 := updateLatency (latency_ms d) s1 in
  set_responseContainer (limit_children maxResponses (responseContainer s2)) s2.

(** [handleMessage(message)]: the [switch] on the message type. *)
Definition handleMessage (now : Date) (m : Message) (s : State) : State :=
  if bool_decide (type m = lit "transcript") then handleTranscript now (data m) s
  else if bool_decide (type m = lit "response") then handleResponse now (data m) s
  else if bool_decide (type m = lit "status") then handleStatus (data m) s
  else console_warn (lit "Unknown message type:") (type m) s.

(** The messages of a session in arrival order, each with the clock
    reading at which its handler runs. *)
Definition handleMessages (ms : list (Date * Message)) (s : State) : State :=
  foldl (λ acc nm, handleMessage nm.1 nm.2 acc) s ms.

End WithPlatform.

(** The click handler of the clear button. *)
Definition clear_click (s : State) : State :=
  let s1 := set_transcriptContainer [] s in
  let s2 := set_responseContainer [] s1 in
  set_ws (send_if_open clear_context_frame (ws s2)) s2.

(** The heartbeat: the delay its [setInterval] is given, in
    milliseconds, and its callback. *)
Definition heartbeat_period_ms : N := 30000.

Definition heartbeat (s : State) : State :=
  set_ws (send_if_open ping_frame (ws s)) s.

(** The frames a handler added to the socket variable. *)
Definition new_frames (before after : State) : list jsstring :=
  drop (length (frames (ws before))) (frames (ws after)).

(** The interim elements on display. *)
Definition interim_elements (s : State) : list Element :=
  filter (λ e, elem_id e = interim_id) (transcriptContainer s).

(** The final transcript elements on display. *)
Definition final_elements (s : State) : list Element :=
  filter (λ e, elem_id e ≠ interim_id) (transcriptContainer s).

End Renderer.

(** ** The React prompter *)

Module Prompter.

(** The component's state hooks, its socket reference, and the two effects
    it has on its host: the calls of [navigator.vibrate] ([None] when the
    host has no such function) and the objects passed to [console.log]. *)
Record State := mkState {
  connected : bool;
  transcripts : list Data;
  hints : list Data;
  currentHint : option Data;
  interimText : option jsstring;
  wsRef : option WebSocket;
  vibrate : option (list N);
  console : list Data
}.

Definition initial (vibration : bool) : State :=
  mkState false [] [] None (Some [])
    None (if vibration then Some [] else None) [].

(** [if ('vibrate' in navigator) navigator.vibrate(ms)] *)
Definition navigator_vibrate (ms : N) (v : option (list N)) : option (list N) :=
  (λ calls, calls ++ [ms]) <$> v.

(** [handleMessage(message)]: the [switch] has no default case. *)
Definition handleMessage (m : Message) (s : State) : State :=
  if bool_decide (type m = lit "transcript") then
    let d := data m in
    if is_final d then
      mkState (connected s) (slice_last 10 (transcripts s) ++ [d]) (hints s)
        (currentHint s) (Some []) (wsRef s) (vibrate s) (console s)
    else
      mkState (connected s) (transcripts s) (hints s)
        (currentHint s) (text d) (wsRef s) (vibrate s) (console s)
  else if bool_decide (type m = lit "hint") then
    let hint := data m in
    mkState (connected s) (transcripts s) (slice_last 5 (hints s) ++ [hint])
      (Some hint) (interimText s) (wsRef s)
      (navigator_vibrate 200 (vibrate s)) (console s)
  else if bool_decide (type m = lit "status") then
    mkState (connected s) (transcripts s) (hints s)
      (currentHint s) (interimText s) (wsRef s) (vibrate s)
      (console s ++ [data m])
  else s.

Definition handleMessages (ms : list Message) (s : State) : State :=
  foldl (λ acc m, handleMessage m acc) s ms.

(** [clearAll] *)
Definition clearAll (s : State) : State :=
  mkState (connected s) [] [] None (Some [])
    (send_if_open clear_context_frame (wsRef s)) (vibrate s) (console s).

(** What the component renders, below the header and above the footer:
    the nodes of the main content in document order. *)
Inductive Node :=
  | HintPanel (hint_text hint_question : option jsstring)
  | Placeholder
  | TranscriptCard (card_text : option jsstring) (pct time : jsstring)
  | InterimCard (interim : jsstring)
  | PreviousHints (texts : list (option jsstring)).

Section WithPlatform.
Context {platform : Platform}.

Definition render (s : State) : list Node :=
  match currentHint s with
  | Some h => [HintPanel (text h) (question h)]
  | None => []
  end
  ++ (if bool_decide (length (transcripts s) = 0) && negb (truthy (interimText s))
      then [Placeholder] else [])
  ++ map (λ t, TranscriptCard (text t) (percent (confidence t))
                 (localeTime (timestamp t))) (transcripts s)
  ++ (if truthy (interimText s)
      then [InterimCard (set_textContent (interimText s))] else [])
  ++ (if bool_decide (1 < length (hints s))
      then [PreviousHints (map text (rev (removelast (hints s))))] else []).

End WithPlatform.

Definition is_interim (n : Node) : bool :=
  match n with
  | InterimCard _ => true
  | _ => false
  end.

End Prompter.

(** ** The Hint Requester's concurrency cap *)

Module HintRequester.

(** Modelled from the spec: the Hint Requester of the orchestration core
    (section 4.4) and the in-flight counter of the session (section 3); the
    server that implements them is not among the sources.  A request is
    issued only if the in-flight counter is below the cap, otherwise it is
    skipped silently and nothing of it is kept; a call that returns
    releases its slot, yields a HintEvent on success, and on an error or a
    timeout yields no HintEvent but a non-fatal warning. *)
Record Request := mkRequest {
  trigger_seq : nat;
  trigger_question : jsstring;
  context_snapshot : list jsstring
}.

Record HintEvent := mkHint {
  hint_text : jsstring;
  hint_question : jsstring;
  hint_trigger_seq : nat;
  hint_latency_ms : N
}.

Inductive Outcome :=
  | Success (answer : jsstring) (latency : N)
  | ProviderError
  | TimedOut.

(** What can happen to the requester: a final transcript classified as a
    question triggers it, or the provider call with index [call] in the
    log of issued calls returns. *)
Inductive Event :=
  | Trigger (r : Request)
  | Returned (call : nat) (o : Outcome).

Record State := mkState {
  in_flight : nat;            (* the in-flight counter *)
  calls : list Request;       (* provider calls issued, oldest first *)
  outstanding : list nat;     (* indices of the calls that have not returned *)
  hints : list HintEvent;     (* HintEvents produced *)
  warnings : nat              (* non-fatal warning StatusEvents produced *)
}.

Definition initial : State := mkState 0 [] [] [] 0.

(** Modelled from the spec: the configured cap on in-flight requests
    ("default 1", section 3). *)
Definition default_cap : nat := 1.

(** Modelled from the spec: [request] of section 4.4.  "A new request is
    only issued if the in-flight counter is below the cap; if the cap is
    reached, the request is silently skipped (the utterance is not
    re-queued)." *)
Definition request (cap : nat) (r : Request) (s : State) : State :=
  if in_flight s <? cap then
    mkState (S (in_flight s)) (calls s ++ [r])
      (outstanding s ++ [length (calls s)]) (hints s) (warnings s)
  else s.

(** Modelled from the spec: the end of a provider call (section 4.4).
    The call leaves the in-flight set; on success a HintEvent for its
    trigger is produced, "on provider error or timeout, no HintEvent is
    produced; a StatusEvent with a non-fatal warning is emitted".  A return
    for a call that is not outstanding is ignored. *)
Definition returned (call : nat) (o : Outcome) (s : State) : State :=
  if bool_decide (call ∈ outstanding s) then
    let left := filter (λ c, c ≠ call) (outstanding s) in
    match o, calls s !! call with
    | Success answer latency, Some r =>
        mkState (pred (in_flight s)) (calls s) left
          (hints s ++ [mkHint answer (trigger_question r) (trigger_seq r) latency])
          (warnings s)
    | _, _ =>
        mkState (pred (in_flight s)) (calls s) left (hints s) (S (warnings s))
    end
  else s.

(** Modelled from the spec: one event of the requester. *)
Definition step (cap : nat) (s : State) (e : Event) : State :=
  match e with
  | Trigger r => request cap r s
  | Returned call o => returned call o s
  end.

(** Any interleaving of triggers and returns, in the order in which the
    orchestration thread sees them. *)
Definition run (cap : nat) (es : list Event) (s : State) : State :=
  foldl (step cap) s es.

(** What every reachable state satisfies: the counter counts the calls
    that have not returned, each of which is a distinct entry of the call
    log, and it is within the cap. *)
Definition consistent (cap : nat) (s : State) : Prop :=
  in_flight s = length (outstanding s)
  ∧ NoDup (outstanding s)
  ∧ Forall (λ c, c < length (calls s)) (outstanding s)
  ∧ in_flight s ≤ cap.

End HintRequester.

(** ** The Event Hub's subscriber queues *)

Module EventHub.

(** Modelled from the spec: the Event Hub (section 4.5), the session's
    monotonic sequence counter and the Subscriber record (section 3); the
    server that implements them is not among the sources.  Every event is
    stamped with the next sequence number and appended to the bounded
    queue of every current subscriber in emission order; when a queue is
    full its oldest interim transcript is dropped first, and only when it
    holds none its oldest event, which adds to the loss counter.  Delivery
    takes the head of the queue. *)
Inductive Kind := Interim | Final | Hint | Status.

Global Instance Kind_eq_dec : EqDecision Kind.
Proof. solve_decision. Defined.

Record Event := mkEvent {
  seq_no : nat;
  kind : Kind;
  payload : jsstring
}.

Record Subscriber := mkSubscriber {
  queue : list Event;             (* outbound queue, oldest first *)
  last_delivered : option nat;    (* last-delivered sequence number *)
  lost : nat                      (* loss counter *)
}.

Record Hub := mkHub {
  next_seq : nat;                     (* the session's sequence counter *)
  next_handle : nat;
  subscribers : gmap nat Subscriber   (* by subscriber handle *)
}.

Definition initial : Hub := mkHub 0 0 ∅.

(** Modelled from the spec: the capacity of a subscriber queue ("default
    capacity e.g. 64 events", section 4.5). *)
Definition default_capacity : nat := 64.

(** Modelled from the spec: drop-then-enqueue on one subscriber's queue
    (section 4.5).  "If a subscriber's queue is full when a new event
    arrives, the oldest interim TranscriptEvent in that subscriber's queue
    is dropped first, and only if no interim events remain are final
    TranscriptEvent/HintEvent/StatusEvent messages dropped (oldest
    first)"; "a dropped non-interim event increments a loss counter". *)
Definition enqueue (capacity : nat) (e : Event) (sub : Subscriber) : Subscriber :=
  if length (queue sub) <? capacity then
    mkSubscriber (queue sub ++ [e]) (last_delivered sub) (lost sub)
  else
    match list_find (λ x, kind x = Interim) (queue sub) with
    | Some (i, _) =>
        mkSubscriber (delete i (queue sub) ++ [e]) (last_delivered sub) (lost sub)
    | None =>
        mkSubscriber (drop 1 (queue sub) ++ [e]) (last_delivered sub)
          (length (take 1 (queue sub)) + lost sub)
    end.

Inductive Op :=
  | Broadcast (k : Kind) (p : jsstring)
  | Subscribe
  | Unsubscribe (h : nat)
  | Deliver (h : nat).

(** Modelled from the spec: [broadcast], [subscribe], [unsubscribe] of
    section 4.5 and the delivery task of section 5.  The result carries
    what was put on the wire: the handle of the receiving subscriber and
    the event. *)
Definition step (capacity : nat) (hub : Hub) (op : Op)
  : Hub * list (nat * Event) :=
  match op with
  | Broadcast k p =>
      let e := mkEvent (next_seq hub) k p in
      (mkHub (S (next_seq hub)) (next_handle hub)
         (enqueue capacity e <$> subscribers hub), [])
  | Subscribe =>
      (mkHub (next_seq hub) (S (next_handle hub))
         (<[next_handle hub := mkSubscriber [] None 0]> (subscribers hub)), [])
  | Unsubscribe h =>
      (mkHub (next_seq hub) (next_handle hub) (delete h (subscribers hub)), [])
  | Deliver h =>
      match subscribers hub !! h with
      | Some sub =>
          match queue sub with
          | e :: rest =>
              (mkHub (next_seq hub) (next_handle hub)
                 (<[h := mkSubscriber rest (Some (seq_no e)) (lost sub)]>
                    (subscribers hub)),
               [(h, e)])
          | [] => (hub, [])
          end
      | None => (hub, [])
      end
  end.

(** A run of operations: the final hub and everything put on the wire,
    in order. *)
Fixpoint run (capacity : nat) (ops : list Op) (hub : Hub)
  : Hub * list (nat * Event) :=
  match ops with
  | [] => (hub, [])
  | op :: ops' =>
      let '(hub1, out1) := step capacity hub op in
      let '(hub2, out2) := run capacity ops' hub1 in
      (hub2, out1 ++ out2)
  end.

(** The stream one subscriber receives. *)
Definition received (h : nat) (wire : list (nat * Event)) : list Event :=
  (filter (λ he, he.1 = h) wire).*2.

(** The events a run emits, in emission order. *)
Fixpoint emitted (ops : list Op) (from : nat) : list Event :=
  match ops with
  | [] => []
  | Broadcast k p :: ops' => mkEvent from k p :: emitted ops' (S from)
  | _ :: ops' => emitted ops' from
  end.

End EventHub.

(** ** Notions the properties are stated with *)

(** A text the renderer's guard [!text || !text.trim()] rejects: absent,
    empty, or white space only. *)
Definition blank (v : option jsstring) : Prop :=
  match v with
  | None => True
  | Some t => Forall (λ c, is_js_whitespace c = true) t
  end.

(** Modelled from the spec: the liveness timeout of a subscriber, in
    milliseconds (section 4.6, "absence of heartbeat beyond a timeout
    (e.g. 60s) triggers unsubscribe"); the server is not among the
    sources. *)
Definition liveness_timeout_ms : N := 60000.

(** A host to evaluate the clients on: its clock readings are times of
    day already formatted, and its numbers print through their integer
    part. *)
Definition print_number (n : option Q) : jsstring :=
  match n with
  | Some q => lit (pretty (Qfloor q))
  | None => lit "NaN"
  end.

Definition sample_platform : Platform := {|
  Date := jsstring;
  formatTime := λ d, d;
  percent := λ c, print_number (Qmult 100 <$> c);
  number_to_string := print_number;
  localeTime := print_number
|}.

(** ** The display as a function of the message history

    What each client should be showing after a list of messages, written
    down independently of the handlers: the cards of all accepted messages
    in arrival order, of which the client keeps the most recent ones. *)

Section History.
Context {platform : Platform}.

(** The text of a transcript message the renderer accepts: present and
    not blank. *)
Definition accepted_text (m : Message) : option jsstring :=
  if bool_decide (type m = lit "transcript") then
    match text (data m) with
    | Some t =>
        if negb (truthy (Some t)) || negb (truthy (Some (trim t)))
        then None else Some t
    | None => None
    end
  else None.

Definition final_card (now : Date) (t : jsstring) (d : Data) : Renderer.Element :=
  Renderer.mkElement [] (lit "transcript-item final")
    (Renderer.final_html now t (confidence d)).

Definition interim_card (t : jsstring) : Renderer.Element :=
  Renderer.mkElement Renderer.interim_id (lit "transcript-item interim")
    (Renderer.interim_html t).

Definition response_card (now : Date) (d : Data) : Renderer.Element :=
  Renderer.mkElement [] (lit "response-card") (Renderer.response_html now d).

(** The final cards of a history, oldest first. *)
Definition final_cards (ms : list (Date * Message)) : list Renderer.Element :=
  omap (λ nm : Date * Message,
          match accepted_text nm.2 with
          | Some t => if is_final (data nm.2)
                      then Some (final_card nm.1 t (data nm.2)) else None
          | None => None
          end) ms.

(** The interim card of a history: that of the last accepted transcript
    message, if it was not final. *)
Definition pending_interim (ms : list (Date * Message)) : option Renderer.Element :=
  foldl (λ acc (nm : Date * Message),
           match accepted_text nm.2 with
           | Some t => if is_final (data nm.2) then None else Some (interim_card t)
           | None => acc
           end) None ms.

(** The response cards of a history, oldest first. *)
Definition response_cards (ms : list (Date * Message)) : list Renderer.Element :=
  omap (λ nm : Date * Message,
          if bool_decide (type nm.2 = lit "response")
          then Some (response_card nm.1 (data nm.2)) else None) ms.

End History.

(** The final transcripts and the hints of a history of the prompter. *)
Definition final_transcripts (ms : list Message) : list Data :=
  data <$> filter (λ m, type m = lit "transcript" ∧ is_final (data m) = true) ms.

Definition hint_data (ms : list Message) : list Data :=
  data <$> filter (λ m, type m = lit "hint") ms.

(** ** Sample inputs *)

Definition ten_o_clock : jsstring := lit "10:00:00 AM".

Definition open_socket : WebSocket := mkWebSocket OPEN [].

(** A renderer with an open socket and the interim transcript "hello" on
    display. *)
Definition sample_renderer : Renderer.State :=
  Renderer.mkState (Some open_socket)
    [Renderer.mkElement Renderer.interim_id (lit "transcript-item interim")
       (Renderer.interim_html (lit "hello"))]
    [] [] [] ([], []) [].

(** Twenty final transcripts followed by one interim transcript. *)
Definition twenty_finals_one_interim : list (jsstring * Message) :=
  replicate 20 (ten_o_clock, transcript_msg (lit "done") true 1 0)
  ++ [(ten_o_clock, transcript_msg (lit "more") false 1 0)].

Definition quicksort_question : HintRequester.Request :=
  HintRequester.mkRequest 7
    (lit "What is the time complexity of quicksort?") [].

Definition follow_up_question : HintRequester.Request :=
  HintRequester.mkRequest 9 (lit "And of merge sort?")
    [lit "What is the time complexity of quicksort?"].

(** * The rest of the display clients and the main process *)

(** ** More on the renderer's message handling *)

(** The code units [escapeHtml] rewrites. *)
Definition is_special (c : N) : bool :=
  ((c =? amp) || (c =? nbsp) || (c =? lt_sign) || (c =? gt_sign))%N.

Section Indicators.
Context {platform : Platform}.

(** The data of the most recent message of type [ty] in a history. *)
Definition last_of_type (ty : jsstring) (ms : list (Date * Message)) : option Data :=
  last (data <$> filter (λ m, type m = ty) ms.*2).

(** What [updateLatency] writes for a response: the indicator's text and
    its class. *)
Definition latency_display (d : Data) : jsstring * jsstring :=
  (number_to_string (latency_ms d) ++ lit "ms",
   lit "latency-value " ++ getLatencyClass (latency_ms d)).

(** What [handleStatus] writes: the dot's class and the status text. *)
Definition status_display (d : Data) : jsstring * jsstring :=
  (lit "status-dot " ++ interpolate (status d),
   set_textContent (if truthy (message d) then message d else status d)).

(** The message types [handleMessage] has a case for. *)
Definition is_known (ty : jsstring) : bool :=
  bool_decide (ty = lit "transcript") || bool_decide (ty = lit "response")
  || bool_decide (ty = lit "status").

(** The warnings a history leaves on the console. *)
Definition unknown_warnings (ms : list (Date * Message)) : list Renderer.Warning :=
  (λ m, Renderer.mkWarning (lit "Unknown message type:") (type m))
    <$> filter (λ m, is_known (type m) = false) ms.*2.

End Indicators.

(** ** The renderer process as a whole: sockets, timers and the page *)

Module Page.

Inductive Level := Log | Error.

(** What an interval timer calls: the reconnect attempt of [onclose] or
    the heartbeat. *)
Inductive Callback := Reconnect | Heartbeat.

Global Instance Callback_eq_dec : EqDecision Callback.
Proof. solve_decision. Defined.

(** The delay each callback is given to [setInterval] with, in
    milliseconds: 3000 in [onclose], 30000 at the end of the script. *)
Definition delay (c : Callback) : N :=
  match c with
  | Reconnect => 3000
  | Heartbeat => Renderer.heartbeat_period_ms
  end.

(** A socket the script created: the one the variable [ws] refers to, or
    an earlier one, by its position among the sockets [ws] no longer
    refers to.  Their handlers stay attached. *)
Inductive SocketRef := Current | Earlier (i : nat).

(** The renderer process: the page with the variable [ws] (in [dom]), the
    sockets created before the current one, the variable
    [reconnectInterval], the interval timers that are running with their
    ids, the id the next [setInterval] returns, and the lines written with
    [console.log] and [console.error]. *)
Record State := mkState {
  dom : Renderer.State;
  earlier : list WebSocket;
  reconnectInterval : option nat;
  timers : list (nat * Callback);
  next_id : nat;
  lines : list (Level * jsstring)
}.

Definition set_dom (d : Renderer.State) (s : State) : State :=
  mkState d (earlier s) (reconnectInterval s) (timers s) (next_id s) (lines s).

Definition console_line (l : Level) (txt : jsstring) (s : State) : State :=
  mkState (dom s) (earlier s) (reconnectInterval s) (timers s) (next_id s)
    (lines s ++ [(l, txt)]).

(** [updateStatus(status, text)] with two string literals. *)
Definition updateStatus (st txt : string) (s : State) : State :=
  set_dom (Renderer.updateStatus (Some (lit st)) (Some (lit txt)) (dom s)) s.

(** [setInterval(callback, delay callback)]: a new running timer; returns
    its id. *)
Definition setInterval (c : Callback) (s : State) : nat * State :=
  (next_id s,
   mkState (dom s) (earlier s) (reconnectInterval s)
     (timers s ++ [(next_id s, c)]) (S (next_id s)) (lines s)).

(** [clearInterval(id)] *)
Definition clearInterval (id : nat) (s : State) : State :=
  mkState (dom s) (earlier s) (reconnectInterval s)
    (filter (λ t, t.1 ≠ id) (timers s)) (next_id s) (lines s).

Definition set_reconnectInterval (r : option nat) (s : State) : State :=
  mkState (dom s) (earlier s) r (timers s) (next_id s) (lines s).

(** The check mark U+2713 of the connect message. *)
Definition check_mark : jsstring := [10003%N].

(** [ws.onopen] *)
Definition onopen (s : State) : State :=
  let s1 := console_line Log (check_mark ++ lit " Connected to backend") s in
  let s2 := updateStatus "connected" "Connected" s1 in
  match reconnectInterval s2 with
  | Some id => set_reconnectInterval None (clearInterval id s2)
  | None => s2
  end.

(** [ws.onmessage]: [parsed] is what [JSON.parse(event.data)] returns,
    [None] when it throws. *)
Definition onmessage `{platform : Platform} (now : Date)
    (parsed : option Message) (s : State) : State :=
  match parsed with
  | Some m => set_dom (Renderer.handleMessage now m (dom s)) s
  | None => console_line Error (lit "Error parsing message:") s
  end.

(** [ws.onerror] *)
Definition onerror (s : State) : State :=
  let s1 := console_line Error (lit "WebSocket error:") s in
  updateStatus "error" "Connection Error" s1.

(** [connectWebSocket()]: the literal URL is well formed, so the
    constructor does not throw; the new socket is CONNECTING and the one
    [ws] referred to is left as it is. *)
Definition connectWebSocket (s : State) : State :=
  mkState (Renderer.set_ws (Some (mkWebSocket CONNECTING [])) (dom s))
    (earlier s ++ option_list (Renderer.ws (dom s)))
    (reconnectInterval s) (timers s) (next_id s) (lines s).

(** The callback of the reconnect timer. *)
Definition reconnect_attempt (s : State) : State :=
  connectWebSocket (console_line Log (lit "Attempting to reconnect...") s).

(** [ws.onclose] *)
Definition onclose (s : State) : State :=
  let s1 := console_line Log (lit "WebSocket closed") s in
  let s2 := updateStatus "disconnected" "Disconnected" s1 in
  match reconnectInterval s2 with
  | Some _ => s2
  | None =>
      let '(id, s3) := setInterval Reconnect s2 in
      set_reconnectInterval (Some id) s3
  end.

(** The script's last statements: connect, then start the heartbeat. *)
Definition boot : State :=
  let s0 := mkState Renderer.initial [] None [] 1 [] in
  (setInterval Heartbeat (connectWebSocket s0)).2.

Definition socket_at (r : SocketRef) (s : State) : option WebSocket :=
  match r with
  | Current => Renderer.ws (dom s)
  | Earlier i => earlier s !! i
  end.

(** The browser moves a socket to another ready state. *)
Definition set_readyState (r : SocketRef) (rs : ReadyState) (s : State) : State :=
  match r with
  | Current =>
      set_dom (Renderer.set_ws
                 ((λ w, mkWebSocket rs (sent w)) <$> Renderer.ws (dom s))
                 (dom s)) s
  | Earlier i =>
      mkState (dom s)
        (alter (λ w, mkWebSocket rs (sent w)) i (earlier s))
        (reconnectInterval s) (timers s) (next_id s) (lines s)
  end.

Section WithPlatform.
Context {platform : Platform}.

(** What the event loop delivers to the script, and what the browser
    does to a socket without telling it.  A socket opens only from
    CONNECTING and closes or fails only while it is not CLOSED; when the
    server starts the closing handshake on an OPEN socket the browser makes
    it CLOSING, and no handler runs before the close event; an interval
    fires only while it is running.  A message event carries the clock
    reading and the outcome of [JSON.parse]; its handler does not depend
    on the socket it comes from. *)
Inductive Event :=
  | Opened (r : SocketRef)
  | Received (now : Date) (parsed : option Message)
  | Failed (r : SocketRef)
  | Closed (r : SocketRef)
  | PeerClosing (r : SocketRef)
  | IntervalFired (id : nat)
  | ClearClicked.

Definition step (s : State) (e : Event) : State :=
  match e with
  | Opened r =>
      match socket_at r s with
      | Some w =>
          if bool_decide (readyState w = CONNECTING)
          then onopen (set_readyState r OPEN s) else s
      | None => s
      end
  | Received now parsed => onmessage now parsed s
  | Failed r =>
      match socket_at r s with
      | Some w =>
          if bool_decide (readyState w = CLOSED) then s else onerror s
      | None => s
      end
  | Closed r =>
      match socket_at r s with
      | Some w =>
          if bool_decide (readyState w = CLOSED) then s
          else onclose (set_readyState r CLOSED s)
      | None => s
      end
  | PeerClosing r =>
      match socket_at r s with
      | Some w =>
          if bool_decide (readyState w = OPEN)
          then set_readyState r CLOSING s else s
      | None => s
      end
  | IntervalFired id =>
      match list_find (λ t, t.1 = id) (timers s) with
      | Some (_, (_, Reconnect)) => reconnect_attempt s
      | Some (_, (_, Heartbeat)) => set_dom (Renderer.heartbeat (dom s)) s
      | None => s
      end
  | ClearClicked => set_dom (Renderer.clear_click (dom s)) s
  end.

Definition run (es : list Event) (s : State) : State := foldl step s es.

(** The parsed messages a run has handled since the last click on the
    clear button, in arrival order. *)
Definition since_clear (es : list Event) : list (Date * Message) :=
  foldl (λ acc e,
           match e with
           | Received now (Some m) => acc ++ [(now, m)]
           | ClearClicked => []
           | _ => acc
           end) [] es.

(** The heartbeat is the first timer the script starts. *)
Definition heartbeat_id : nat := 1.

(** The events in which the script only displays or sends: messages,
    clicks on the clear button and heartbeats.  The others come from the
    connection or start a new one. *)
Definition is_local (e : Event) : bool :=
  match e with
  | Received _ _ | ClearClicked => true
  | IntervalFired id => bool_decide (id = heartbeat_id)
  | _ => false
  end.

End WithPlatform.

(** The ids of the running reconnect timers. *)
Definition reconnect_timers (s : State) : list nat :=
  (filter (λ t, t.2 = Reconnect) (timers s)).*1.

(** The ids of the running heartbeat timers. *)
Definition heartbeat_timers (s : State) : list nat :=
  (filter (λ t, t.2 = Heartbeat) (timers s)).*1.

(** The timers of every reachable state: the heartbeat, started first and
    never cleared, and after it the reconnect timer if the variable
    [reconnectInterval] holds one. *)
Definition timers_tracked (s : State) : Prop :=
  timers s =
    (heartbeat_id, Heartbeat)
    :: ((λ id, (id, Reconnect)) <$> option_list (reconnectInterval s))
  ∧ heartbeat_id < next_id s
  ∧ ∀ id, reconnectInterval s = Some id → heartbeat_id < id < next_id s.

(** The socket every connection attempt starts with. *)
Definition fresh_socket : WebSocket := mkWebSocket CONNECTING [].

(** A socket that is not CLOSED. *)
Definition alive (w : WebSocket) : bool :=
  negb (bool_decide (readyState w = CLOSED)).

End Page.

(** ** The renderer process on the clock *)

Module Clock.
Section WithPlatform.
Context {platform : Platform}.

(** The renderer process with the timer queue of a host that fires every
    interval exactly when it is due: the page, the time in milliseconds
    since the script ended, for each running interval its id with the
    time of its next firing, and every frame the script has handed to
    [send], with the time at which it did. *)
Record State := mkState {
  page : Page.State;
  now : N;
  due : list (nat * N);
  wire : list (N * jsstring)
}.

(** When the timer [id] fires next. *)
Definition next_due (id : nat) (d : list (nat * N)) : option N :=
  (λ r, r.2.2) <$> list_find (λ x, x.1 = id) d.

(** The queue for the timers [ts] at time [t]: a timer that was running
    keeps its time, one that was just started fires first after its delay,
    one that was cleared is gone. *)
Definition schedule (t : N) (ts : list (nat * Page.Callback))
    (d : list (nat * N)) : list (nat * N) :=
  (λ x, (x.1, default (t + Page.delay x.2)%N (next_due x.1 d))) <$> ts.

(** A handler of the page runs: the clock stands still meanwhile. *)
Definition handle (e : Page.Event) (s : State) : State :=
  let p := Page.step (page s) e in
  mkState p (now s) (schedule (now s) (Page.timers p) (due s))
    (wire s ++
       ((λ f, (now s, f)) <$> Renderer.new_frames (Page.dom (page s)) (Page.dom p))).

(** The timer [x] fires if it is due now; an interval is then due again
    after its delay. *)
Definition fire (x : nat * Page.Callback) (s : State) : State :=
  if bool_decide (next_due x.1 (due s) = Some (now s)) then
    let s1 := handle (Page.IntervalFired x.1) s in
    mkState (page s1) (now s1)
      ((λ y, if bool_decide (y.1 = x.1) then (y.1, now s + Page.delay x.2)%N else y)
         <$> due s1)
      (wire s1)
  else s.

(** One millisecond passes: the timers that are due then fire, the one
    started first going first.  When the heartbeat and the reconnect timer
    are due together, the heartbeat was also armed first, 30 seconds
    before against 3. *)
Definition tick (s : State) : State :=
  foldl (λ acc x, fire x acc)
    (mkState (page s) (now s + 1) (due s) (wire s))
    (Page.timers (page s)).

(** What happens to the process: a millisecond passes, or the event loop
    delivers an event other than a timer's, which fire by the clock
    alone. *)
Inductive Input :=
  | Tick
  | Deliver (e : Page.Event).

Definition step (s : State) (i : Input) : State :=
  match i with
  | Tick => tick s
  | Deliver (Page.IntervalFired _) => s
  | Deliver e => handle e s
  end.

Definition run (prog : list Input) (s : State) : State := foldl step s prog.

(** The script has run to its end at time 0. *)
Definition boot : State :=
  mkState Page.boot 0 (schedule 0 (Page.timers Page.boot) []) [].

Definition is_tick (i : Input) : bool :=
  match i with
  | Tick => true
  | Deliver _ => false
  end.

(** The [n] milliseconds that follow [t]. *)
Definition following (t : N) (n : nat) : list N :=
  (λ i, (t + N.of_nat i)%N) <$> seq 1 n.

(** The queue of every reachable state: the heartbeat first, due at the
    next multiple of its delay, then the reconnect timer if one runs, and
    nothing overdue. *)
Definition on_schedule (s : State) : Prop :=
  Page.timers_tracked (page s)
  ∧ ∃ hb rest,
      due s = (Page.heartbeat_id, hb) :: rest
      ∧ rest.*1 = option_list (Page.reconnectInterval (page s))
      ∧ Forall (λ x, (now s < x.2)%N) rest
      ∧ (now s < hb ≤ now s + Renderer.heartbeat_period_ms)%N
      ∧ (hb `mod` Renderer.heartbeat_period_ms = 0)%N.

End WithPlatform.
End Clock.

(** ** The prompter component as a whole *)

Module PrompterPage.

(** What the user and the server do to a mounted component. *)
Inductive Action :=
  | Incoming (m : Message)
  | ClearAll.

Definition act (s : Prompter.State) (a : Action) : Prompter.State :=
  match a with
  | Incoming m => Prompter.handleMessage m s
  | ClearAll => Prompter.clearAll s
  end.

Definition perform (acts : list Action) (s : Prompter.State) : Prompter.State :=
  foldl act s acts.

(** The messages handled since the last [clearAll], in arrival order. *)
Definition since_clear (acts : list Action) : list Message :=
  foldl (λ acc a,
           match a with
           | Incoming m => acc ++ [m]
           | ClearAll => []
           end) [] acts.

(** The hint messages among the actions. *)
Definition is_hint (a : Action) : bool :=
  match a with
  | Incoming m => bool_decide (type m = lit "hint")
  | ClearAll => false
  end.

Definition hint_count (acts : list Action) : nat :=
  length (filter (λ a, is_hint a = true) acts).

(** [setConnected(b)] *)
Definition setConnected (b : bool) (p : Prompter.State) : Prompter.State :=
  Prompter.mkState b (Prompter.transcripts p) (Prompter.hints p)
    (Prompter.currentHint p) (Prompter.interimText p) (Prompter.wsRef p)
    (Prompter.vibrate p) (Prompter.console p).

(** [wsRef.current = w] *)
Definition set_wsRef (w : option WebSocket) (p : Prompter.State) : Prompter.State :=
  Prompter.mkState (Prompter.connected p) (Prompter.transcripts p)
    (Prompter.hints p) (Prompter.currentHint p) (Prompter.interimText p) w
    (Prompter.vibrate p) (Prompter.console p).

Inductive SocketRef := Current | Earlier (i : nat).

(** The component with its effect: the state hooks and the socket
    reference (in [ui]), the sockets created before the current one, the
    number of reconnect timeouts that are scheduled and have not fired,
    whether the component is mounted, and the lines written with
    [console.log] and [console.error]. *)
Record State := mkState {
  ui : Prompter.State;
  earlier : list WebSocket;
  pending : nat;
  mounted : bool;
  lines : list jsstring
}.

(** A state setter called from a handler: React drops the update once
    the component is unmounted. *)
Definition set_state (f : Prompter.State → Prompter.State) (s : State) : State :=
  if mounted s
  then mkState (f (ui s)) (earlier s) (pending s) (mounted s) (lines s)
  else s.

Definition console_line (txt : jsstring) (s : State) : State :=
  mkState (ui s) (earlier s) (pending s) (mounted s) (lines s ++ [txt]).

(** [connectWebSocket()]: a new CONNECTING socket becomes
    [wsRef.current]; a ref is written whether or not the component is
    mounted. *)
Definition connectWebSocket (s : State) : State :=
  mkState (set_wsRef (Some (mkWebSocket CONNECTING [])) (ui s))
    (earlier s ++ option_list (Prompter.wsRef (ui s)))
    (pending s) (mounted s) (lines s).

(** [ws.onopen] *)
Definition onopen (s : State) : State :=
  set_state (setConnected true) (console_line (lit "Connected to receiver") s).

(** [ws.onmessage]: [parsed] is what [JSON.parse(event.data)] returns;
    when it throws ([None]) the handler ends there.  All that
    [handleMessage] does is calling state setters and
    [navigator.vibrate]. *)
Definition onmessage (parsed : option Message) (s : State) : State :=
  match parsed with
  | Some m =>
      if mounted s then set_state (Prompter.handleMessage m) s
      else
        mkState
          (Prompter.mkState (Prompter.connected (ui s))
             (Prompter.transcripts (ui s)) (Prompter.hints (ui s))
             (Prompter.currentHint (ui s)) (Prompter.interimText (ui s))
             (Prompter.wsRef (ui s))
             (Prompter.vibrate (Prompter.handleMessage m (ui s)))
             (Prompter.console (Prompter.handleMessage m (ui s))))
          (earlier s) (pending s) (mounted s) (lines s)
  | None => s
  end.

(** [ws.onerror] *)
Definition onerror (s : State) : State :=
  set_state (setConnected false) (console_line (lit "WebSocket error:") s).

(** [ws.onclose]: one more reconnect is scheduled, three seconds ahead. *)
Definition onclose (s : State) : State :=
  let s1 := console_line (lit "Disconnected from receiver") s in
  let s2 := set_state (setConnected false) s1 in
  mkState (ui s2) (earlier s2) (S (pending s2)) (mounted s2) (lines s2).

(** The effect at mount. *)
Definition boot (vibration : bool) : State :=
  connectWebSocket (mkState (Prompter.initial vibration) [] 0 true []).

(** [WebSocket.close()]: a socket that is CONNECTING or OPEN becomes
    CLOSING; its close event follows later. *)
Definition close (w : WebSocket) : WebSocket :=
  match readyState w with
  | CONNECTING | OPEN => mkWebSocket CLOSING (sent w)
  | _ => w
  end.

(** The effect's cleanup at unmount. *)
Definition cleanup (s : State) : State :=
  mkState (set_wsRef (close <$> Prompter.wsRef (ui s)) (ui s))
    (earlier s) (pending s) false (lines s).

Definition socket_at (r : SocketRef) (s : State) : option WebSocket :=
  match r with
  | Current => Prompter.wsRef (ui s)
  | Earlier i => earlier s !! i
  end.

(** The browser moves a socket to another ready state. *)
Definition set_readyState (r : SocketRef) (rs : ReadyState) (s : State) : State :=
  match r with
  | Current =>
      mkState
        (set_wsRef ((λ w, mkWebSocket rs (sent w)) <$> Prompter.wsRef (ui s))
           (ui s))
        (earlier s) (pending s) (mounted s) (lines s)
  | Earlier i =>
      mkState (ui s) (alter (λ w, mkWebSocket rs (sent w)) i (earlier s))
        (pending s) (mounted s) (lines s)
  end.

(** What the event loop delivers, and what the browser does to a socket
    without telling the component.  A socket opens only from CONNECTING and
    closes or fails only while it is not CLOSED; when the server starts the
    closing handshake on an OPEN socket the browser makes it CLOSING, and
    no handler runs before the close event; a timeout fires only if one is
    scheduled; the clear button is there only while the component is
    mounted. *)
Inductive Event :=
  | Opened (r : SocketRef)
  | Received (parsed : option Message)
  | Failed (r : SocketRef)
  | Closed (r : SocketRef)
  | PeerClosing (r : SocketRef)
  | TimeoutFired
  | ClearClicked
  | Unmounted.

Definition step (s : State) (e : Event) : State :=
  match e with
  | Opened r =>
      match socket_at r s with
      | Some w =>
          if bool_decide (readyState w = CONNECTING)
          then onopen (set_readyState r OPEN s) else s
      | None => s
      end
  | Received parsed => onmessage parsed s
  | Failed r =>
      match socket_at r s with
      | Some w => if bool_decide (readyState w = CLOSED) then s else onerror s
      | None => s
      end
  | Closed r =>
      match socket_at r s with
      | Some w =>
          if bool_decide (readyState w = CLOSED) then s
          else onclose (set_readyState r CLOSED s)
      | None => s
      end
  | PeerClosing r =>
      match socket_at r s with
      | Some w =>
          if bool_decide (readyState w = OPEN)
          then set_readyState r CLOSING s else s
      | None => s
      end
  | TimeoutFired =>
      match pending s with
      | S n =>
          connectWebSocket
            (mkState (ui s) (earlier s) n (mounted s) (lines s))
      | O => s
      end
  | ClearClicked =>
      if mounted s
      then mkState (Prompter.clearAll (ui s)) (earlier s) (pending s)
             (mounted s) (lines s)
      else s
  | Unmounted => if mounted s then cleanup s else s
  end.

Definition run (es : list Event) (s : State) : State := foldl step s es.

(** One connection at a time: the sockets the reference has left are
    CLOSED, and either the current socket is not CLOSED and no reconnect is
    scheduled, or it is CLOSED and exactly one reconnect is scheduled. *)
Definition one_connection (s : State) : Prop :=
  Forall (λ w, readyState w = CLOSED) (earlier s)
  ∧ ∃ w, Prompter.wsRef (ui s) = Some w
         ∧ ((readyState w ≠ CLOSED ∧ pending s = 0)
            ∨ (readyState w = CLOSED ∧ pending s = 1)).

(** While the component is mounted, its connected flag is set only
    once the current socket has opened and before its close event: while
    it is OPEN or CLOSING. *)
Definition connected_means_opened (s : State) : Prop :=
  mounted s = true → Prompter.connected (ui s) = true →
  ∃ w, Prompter.wsRef (ui s) = Some w
       ∧ (readyState w = OPEN ∨ readyState w = CLOSING).

Definition is_hint_panel (n : Prompter.Node) : bool :=
  match n with
  | Prompter.HintPanel _ _ => true
  | _ => false
  end.

Definition is_previous_hints (n : Prompter.Node) : bool :=
  match n with
  | Prompter.PreviousHints _ => true
  | _ => false
  end.

End PrompterPage.

(** ** The Electron main process *)

Module Main.

(** What the main process reads from its host: [process.platform],
    whether [process.argv] has [--dev], and the work area of the primary
    display. *)
Record Env := mkEnv {
  platform_name : jsstring;
  dev : bool;
  workAreaSize : Z * Z
}.

(** A method the main process calls on a window and whose effect is the
    host's business. *)
Inductive Call :=
  | LoadFile (path : jsstring)
  | OpenDevTools
  | GetNativeWindowHandle
  | Minimize.

(** A [BrowserWindow]: the options of the constructor call, the
    properties the main process reads or sets afterwards, and the other
    calls made on it, oldest first. *)
Record BrowserWindow := mkWindow {
  width : Z;
  height : Z;
  x : Z;
  y : Z;
  transparent : bool;
  frame : bool;
  alwaysOnTop : bool;
  skipTaskbar : bool;
  hasShadow : bool;
  resizable : bool;
  visible : bool;
  calls : list Call
}.

Definition call (c : Call) (w : BrowserWindow) : BrowserWindow :=
  mkWindow (width w) (height w) (x w) (y w) (transparent w) (frame w)
    (alwaysOnTop w) (skipTaskbar w) (hasShadow w) (resizable w) (visible w)
    (calls w ++ [c]).

Definition setSkipTaskbar (b : bool) (w : BrowserWindow) : BrowserWindow :=
  mkWindow (width w) (height w) (x w) (y w) (transparent w) (frame w)
    (alwaysOnTop w) b (hasShadow w) (resizable w) (visible w) (calls w).

Definition setAlwaysOnTop (b : bool) (w : BrowserWindow) : BrowserWindow :=
  mkWindow (width w) (height w) (x w) (y w) (transparent w) (frame w)
    b (skipTaskbar w) (hasShadow w) (resizable w) (visible w) (calls w).

(** [show()] and [hide()], by what [isVisible()] returns afterwards. *)
Definition setVisible (b : bool) (w : BrowserWindow) : BrowserWindow :=
  mkWindow (width w) (height w) (x w) (y w) (transparent w) (frame w)
    (alwaysOnTop w) (skipTaskbar w) (hasShadow w) (resizable w) b (calls w).

(** The main process: whether the callback of [app.whenReady()] has run
    to its end, the open windows with their ids
    ([BrowserWindow.getAllWindows()]), the id the next window gets, the
    variable [mainWindow], the windows that have the ['closed'] handler of
    [createWindow] attached, the registered global shortcuts, whether the
    app has quit, whether a callback has thrown, and the console. *)
Record State := mkState {
  ready : bool;
  windows : list (nat * BrowserWindow);
  next_window : nat;
  mainWindow : option nat;
  closed_handlers : list nat;
  shortcuts : list jsstring;
  has_quit : bool;
  aborted : bool;
  console : list jsstring
}.

Definition initial : State := mkState false [] 0 None [] [] false false [].

(** [setWindowExStyle(window)] of the Windows platform module, on the
    window and the console.  [native_ok] tells whether
    [getNativeWindowHandle()] succeeds; when it throws, the [catch] logs
    the error. *)
Definition setWindowExStyle (env : Env) (native_ok : bool)
    (w : BrowserWindow) (log : list jsstring) : BrowserWindow * list jsstring :=
  if bool_decide (platform_name env ≠ lit "win32") then (w, log)
  else if native_ok then
    (setSkipTaskbar false (call GetNativeWindowHandle w),
     log ++ [lit "Windows-specific styling applied"])
  else (w, log ++ [lit "Error applying Windows styling:"]).

(** The window the constructor call of [createWindow] makes. *)
Definition new_window (env : Env) : BrowserWindow :=
  mkWindow 400 600 ((workAreaSize env).1 - 420) 20
    true false true false false true true [].

(** How a function of the main process ends: it returns, or it throws and
    leaves the state as it was at the throw. *)
Inductive Outcome :=
  | Returned (s : State)
  | Threw (s : State).

(** The state in which [createWindow] ends when it has made the window
    [w]: [mainWindow] refers to it; [attached] tells whether the
    ['closed'] handler was attached. *)
Definition with_window (w : BrowserWindow) (attached : bool)
    (log : list jsstring) (s : State) : State :=
  mkState (ready s) (windows s ++ [(next_window s, w)]) (S (next_window s))
    (Some (next_window s))
    (closed_handlers s ++ (if attached then [next_window s] else []))
    (shortcuts s) (has_quit s) (aborted s) log.

(** [createWindow()].  On darwin the call
    [mainWindow.setWindowLevel('pop-up-menu')] throws a TypeError: a
    [BrowserWindow] has no method of that name (the level is an argument of
    [setAlwaysOnTop]).  The function ends there, after the window is made
    and loaded and before the ['closed'] handler is attached. *)
Definition createWindow (env : Env) (native_ok : bool) (s : State) : Outcome :=
  let w0 := call (LoadFile (lit "index.html")) (new_window env) in
  let w1 := if dev env then call OpenDevTools w0 else w0 in
  if bool_decide (platform_name env = lit "win32") then
    let '(w2, log) := setWindowExStyle env native_ok w1 (console s) in
    Returned (with_window w2 true log s)
  else if bool_decide (platform_name env = lit "darwin") then
    Threw (with_window w1 false (console s) s)
  else Returned (with_window w1 true (console s) s).

(** A window without the record of the calls made on it: its options
    and properties. *)
Definition properties (w : BrowserWindow) : BrowserWindow :=
  mkWindow (width w) (height w) (x w) (y w) (transparent w) (frame w)
    (alwaysOnTop w) (skipTaskbar w) (hasShadow w) (resizable w) (visible w) [].

Definition toggle_shortcut : jsstring := lit "CommandOrControl+Shift+I".
Definition quit_shortcut : jsstring := lit "CommandOrControl+Shift+Q".

(** Apply [f] to the window [mainWindow] refers to, if it refers to one. *)
Definition on_mainWindow (f : BrowserWindow → BrowserWindow) (s : State) : State :=
  match mainWindow s with
  | Some id =>
      mkState (ready s)
        ((λ iw : nat * BrowserWindow,
            if bool_decide (iw.1 = id) then (iw.1, f iw.2) else iw)
           <$> windows s)
        (next_window s) (mainWindow s) (closed_handlers s) (shortcuts s)
        (has_quit s) (aborted s) (console s)
  | None => s
  end.

(** The ['will-quit'] handler: [globalShortcut.unregisterAll()]. *)
Definition will_quit (s : State) : State :=
  mkState (ready s) (windows s) (next_window s) (mainWindow s)
    (closed_handlers s) [] (has_quit s) (aborted s) (console s).

(** Whether one of the open windows has the ['closed'] handler. *)
Definition some_handler (s : State) : bool :=
  existsb (λ iw : nat * BrowserWindow, bool_decide (iw.1 ∈ closed_handlers s))
    (windows s).

(** [app.quit()]: the host closes every window, the ['closed'] handler
    of one that has it clearing [mainWindow]; it then emits ['will-quit']
    and ends the process. *)
Definition quit (s : State) : State :=
  let s1 :=
    mkState (ready s) [] (next_window s)
      (if some_handler s then None else mainWindow s)
      (closed_handlers s) (shortcuts s) (has_quit s) (aborted s) (console s) in
  let s2 := will_quit s1 in
  mkState (ready s2) (windows s2) (next_window s2) (mainWindow s2)
    (closed_handlers s2) (shortcuts s2) true (aborted s2) (console s2).

(** A window has closed: the host drops it from the open windows, its
    ['closed'] handler, if it has one, clears [mainWindow], and when it
    was the last window the ['window-all-closed'] handler quits unless on
    macOS. *)
Definition window_closed (env : Env) (id : nat) (s : State) : State :=
  if bool_decide (id ∈ (windows s).*1) then
    let s1 :=
      mkState (ready s) (filter (λ iw, iw.1 ≠ id) (windows s))
        (next_window s)
        (if bool_decide (id ∈ closed_handlers s) then None else mainWindow s)
        (closed_handlers s) (shortcuts s) (has_quit s) (aborted s)
        (console s) in
    match windows s1 with
    | [] => if bool_decide (platform_name env ≠ lit "darwin") then quit s1 else s1
    | _ => s1
    end
  else s.

(** A callback has thrown: nothing after the throw is done.  What the host
    does with the process then is not in the sources, and the run is
    followed no further. *)
Definition abort (s : State) : State :=
  mkState (ready s) (windows s) (next_window s) (mainWindow s)
    (closed_handlers s) (shortcuts s) (has_quit s) true (console s).

(** The body of [app.whenReady().then(...)]: when [createWindow] throws,
    neither shortcut is registered and no ['activate'] handler is set;
    otherwise both registrations of a global shortcut are taken to
    succeed. *)
Definition on_ready (env : Env) (native_ok : bool) (s : State) : State :=
  match createWindow env native_ok s with
  | Returned s1 =>
      mkState true (windows s1) (next_window s1) (mainWindow s1)
        (closed_handlers s1)
        (shortcuts s1 ++ [toggle_shortcut; quit_shortcut]) (has_quit s1)
        (aborted s1) (console s1)
  | Threw s1 => abort s1
  end.

(** The ['activate'] handler. *)
Definition on_activate (env : Env) (native_ok : bool) (s : State) : State :=
  if bool_decide (length (windows s) = 0) then
    match createWindow env native_ok s with
    | Returned s1 => s1
    | Threw s1 => abort s1
    end
  else s.

(** The callback of the toggle shortcut. *)
Definition toggle_visibility (s : State) : State :=
  on_mainWindow (λ w, if visible w then setVisible false w else setVisible true w) s.

(** The three [ipcMain.on] handlers; [mainWindow.close()] closes the
    window as a click on its close button does. *)
Definition on_ipc (env : Env) (channel : jsstring) (flag : bool) (s : State) : State :=
  if bool_decide (channel = lit "minimize-window") then
    on_mainWindow (call Minimize) s
  else if bool_decide (channel = lit "close-window") then
    match mainWindow s with
    | Some id => window_closed env id s
    | None => s
    end
  else if bool_decide (channel = lit "toggle-always-on-top") then
    on_mainWindow (setAlwaysOnTop flag) s
  else s.

(** What the host delivers to the main process.  ['ready'] is emitted
    once; ['activate'] reaches its handler only after the ready callback
    has run to its end, since the handler is set there; a shortcut calls
    back only while it is registered; nothing is delivered after the app
    has quit, and nothing is followed after a callback has thrown. *)
Inductive Event :=
  | Ready (native_ok : bool)
  | Activate (native_ok : bool)
  | WindowClosed (id : nat)
  | Ipc (channel : jsstring) (flag : bool)
  | Shortcut (accelerator : jsstring).

Definition step (env : Env) (s : State) (e : Event) : State :=
  if has_quit s || aborted s then s else
  match e with
  | Ready native_ok => if ready s then s else on_ready env native_ok s
  | Activate native_ok => if ready s then on_activate env native_ok s else s
  | WindowClosed id => window_closed env id s
  | Ipc channel flag => on_ipc env channel flag s
  | Shortcut a =>
      if bool_decide (a ∈ shortcuts s) then
        if bool_decide (a = toggle_shortcut) then toggle_visibility s
        else if bool_decide (a = quit_shortcut) then quit s
        else s
      else s
  end.

Definition run (env : Env) (es : list Event) (s : State) : State :=
  foldl (step env) s es.

(** Where [createWindow] returns, the main process keeps one window: the
    open windows are the one [mainWindow] refers to, or none; every open
    window has its ['closed'] handler; the shortcuts are registered from
    ready to quit; and no callback has thrown. *)
Definition single_window (s : State) : Prop :=
  (windows s).*1 = option_list (mainWindow s)
  ∧ (∀ id, mainWindow s = Some id → id < next_window s ∧ id ∈ closed_handlers s)
  ∧ shortcuts s =
      (if ready s && negb (has_quit s)
       then [toggle_shortcut; quit_shortcut] else [])
  ∧ (ready s = false → windows s = [])
  ∧ (has_quit s = true → mainWindow s = None)
  ∧ aborted s = false.

End Main.

(** The channels the renderer's window buttons send on with
    [ipcRenderer.send]. *)
Definition minimize_btn_channel : jsstring := lit "minimize-window".
Definition close_btn_channel : jsstring := lit "close-window".

(** The data of the most recent transcript message of a history, and
    the interim text it leaves in the prompter: none after a final
    transcript, its text otherwise. *)
Definition last_transcript (ms : list Message) : option Data :=
  last (data <$> filter (λ m, type m = lit "transcript") ms).

Definition interim_after (d : option Data) : option jsstring :=
  match d with
  | Some d => if is_final d then Some [] else text d
  | None => Some []
  end.

(** ** More sample inputs *)

(** The renderer process after its first socket has closed and the
    reconnect timer has fired once. *)
Definition reconnecting_page : Page.State :=
  Page.run (platform := sample_platform)
    [Page.Closed Page.Current; Page.IntervalFired 2] Page.boot.

Definition linux_host : Main.Env := Main.mkEnv (lit "linux") false (1920, 1080)%Z.
Definition mac_host : Main.Env := Main.mkEnv (lit "darwin") false (1440, 900)%Z.
Definition windows_host : Main.Env := Main.mkEnv (lit "win32") true (1366, 768)%Z.
(** * Properties *)

(** ** Strings *)

Section Strings.

Lemma trimStart_nil_iff (s : jsstring) :
  trimStart s = [] ↔ Forall (λ c, is_js_whitespace c = true) s.
Proof.
  induction s as [|c r IH]; simpl.
  - split; [constructor | done].
  - destruct (is_js_whitespace c) eqn:Hc.
    + rewrite IH. split.
      * intros Hr. by constructor.
      * by inversion 1.
    + split; [done |]. inversion 1; congruence.
Qed.

Lemma trim_nil_iff (s : jsstring) :
  trim s = [] ↔ Forall (λ c, is_js_whitespace c = true) s.
Proof.
  unfold trim, trimEnd. split.
  - intros H. apply trimStart_nil_iff.
    assert (Hr : trimStart (rev (trimStart s)) = []).
    { destruct (trimStart (rev (trimStart s))) as [|x l] eqn:E; [done |].
      simpl in H. by destruct (rev l). }
    apply trimStart_nil_iff in Hr.
    destruct (trimStart s) as [|c r] eqn:E; [done | exfalso].
    assert (Hc : is_js_whitespace c = false).
    { clear -E. induction s as [|a s IH]; simpl in E; [done |].
      destruct (is_js_whitespace a) eqn:Ha; [auto | congruence]. }
    simpl in Hr. apply Forall_app in Hr as [_ Hr].
    inversion Hr; congruence.
  - intros H. apply trimStart_nil_iff in H. by rewrite H.
Qed.

(** The renderer's guard is exactly [blank]. *)
Lemma guard_blank (t : jsstring) :
  negb (truthy (Some t)) || negb (truthy (Some (trim t))) = true
  ↔ blank (Some t).
Proof.
  simpl. rewrite <- trim_nil_iff. destruct t as [|c r]; simpl.
  - done.
  - destruct (trim (c :: r)); simpl; split; congruence.
Qed.

Lemma slice_last_length {A} (n : nat) (l : list A) :
  length (slice_last n l) = length l `min` n.
Proof. unfold slice_last. rewrite length_drop. lia. Qed.

Lemma slice_last_all {A} (n : nat) (l : list A) :
  length l ≤ n → slice_last n l = l.
Proof.
  intros H. unfold slice_last. by replace (length l - n) with 0 by lia.
Qed.

Lemma slice_last_snoc {A} (n : nat) (l : list A) (x : A) :
  slice_last (S n) (l ++ [x]) = slice_last n l ++ [x].
Proof.
  unfold slice_last. rewrite length_app. simpl.
  replace (length l + 1 - S n) with (length l - n) by lia.
  rewrite drop_app_le by lia. done.
Qed.

Lemma slice_last_idem {A} (n m : nat) (l : list A) :
  n ≤ m → slice_last n (slice_last m l) = slice_last n l.
Proof.
  intros H. unfold slice_last. rewrite length_drop, drop_drop.
  f_equal. lia.
Qed.

Lemma filter_none {A} (P : A → Prop) `{!∀ x, Decision (P x)} (l : list A) :
  Forall (λ x, ¬ P x) l → filter P l = [].
Proof.
  induction 1 as [|x l Hx Hl IH]; [done |].
  by rewrite filter_cons_False.
Qed.

Lemma filter_all {A} (P : A → Prop) `{!∀ x, Decision (P x)} (l : list A) :
  Forall P l → filter P l = l.
Proof.
  induction 1 as [|x l Hx Hl IH]; [done |].
  rewrite filter_cons_True by done. by f_equal.
Qed.

Lemma Forall_sublist_of {A} (P : A → Prop) (l k : list A) :
  l `sublist_of` k → Forall P k → Forall P l.
Proof.
  induction 1 as [|x l k Hlk IH|x l k Hlk IH]; [done |..];
    intros [Hx Hk]%Forall_cons; [constructor |]; auto.
Qed.

Lemma fmap_sublist_of {A B} (f : A → B) (l k : list A) :
  l `sublist_of` k → f <$> l `sublist_of` f <$> k.
Proof. induction 1; cbn; by constructor. Qed.

Lemma Forall_filter_of {A} (P Q : A → Prop) `{!∀ x, Decision (Q x)} (l : list A) :
  Forall P l → Forall P (filter Q l).
Proof.
  rewrite !Forall_forall. intros HP x [_ Hx]%list_elem_of_filter. auto.
Qed.

Lemma slice_last_suffix {A} (n : nat) (l : list A) :
  slice_last n l `suffix_of` l.
Proof. apply suffix_drop. Qed.

End Strings.

(** ** [escapeHtml] *)

Section Escape.

Lemma escape_unit_cases (c : N) :
  (c = amp ∧ escape_unit c = lit "&amp;")
  ∨ (c = nbsp ∧ escape_unit c = lit "&nbsp;")
  ∨ (c = lt_sign ∧ escape_unit c = lit "&lt;")
  ∨ (c = gt_sign ∧ escape_unit c = lit "&gt;")
  ∨ (c ≠ amp ∧ c ≠ lt_sign ∧ c ≠ gt_sign ∧ c ≠ nbsp ∧ escape_unit c = [c]).
Proof.
  unfold escape_unit.
  destruct (N.eqb_spec c amp) as [->|?]; [by left |].
  destruct (N.eqb_spec c nbsp) as [->|?]; [by right; left |].
  destruct (N.eqb_spec c lt_sign) as [->|?]; [by right; right; left |].
  destruct (N.eqb_spec c gt_sign) as [->|?]; [by right; right; right; left |].
  by repeat right.
Qed.

Lemma serialize_text_cons (c : N) (t : jsstring) :
  serialize_text (c :: t) = escape_unit c ++ serialize_text t.
Proof. reflexivity. Qed.

Lemma escape_unit_no_angle (c : N) :
  Forall (λ x, x ≠ lt_sign ∧ x ≠ gt_sign) (escape_unit c).
Proof.
  destruct (escape_unit_cases c)
    as [[_ ->]|[[_ ->]|[[_ ->]|[[_ ->]|(_ & ? & ? & _ & ->)]]]];
    repeat constructor; done.
Qed.

Lemma serialize_text_no_angle (t : jsstring) :
  Forall (λ x, x ≠ lt_sign ∧ x ≠ gt_sign) (serialize_text t).
Proof.
  induction t as [|c t IH]; [constructor |].
  rewrite serialize_text_cons.
  apply Forall_app. split; [apply escape_unit_no_angle | done].
Qed.

(** An ampersand in the serialisation of one unit is its first unit, and
    the serialisation is then one of the references. *)
Lemma escape_unit_amp (c : N) (i : nat) :
  escape_unit c !! i = Some amp →
  i = 0 ∧ escape_unit c ∈ entities.*1.
Proof.
  destruct (escape_unit_cases c)
    as [[_ ->]|[[_ ->]|[[_ ->]|[[_ ->]|(? & _ & _ & _ & ->)]]]];
    intros Hamp.
  1-4: split;
    [ do 6 (destruct i as [|i];
            [by (done || (vm_compute in Hamp; congruence)) |]);
      done
    | vm_compute; set_solver ].
  destruct i; simpl in Hamp; [congruence | done].
Qed.

Lemma serialize_text_references (t : jsstring) (i : nat) :
  serialize_text t !! i = Some amp → reference_at (serialize_text t) i.
Proof.
  revert i. induction t as [|c t IH]; intros i; [done |].
  rewrite serialize_text_cons.
  intros H. destruct (decide (i < length (escape_unit c))) as [Hi|Hi].
  - rewrite lookup_app_l in H by done.
    apply escape_unit_amp in H as [-> He].
    exists (escape_unit c). split; [done |]. by apply prefix_app_r.
  - rewrite lookup_app_r in H by lia.
    destruct (IH _ H) as (e & He & Hp).
    exists e. split; [done |].
    rewrite drop_app_ge by lia. done.
Qed.

Lemma entities_eval :
  entities =
    [ ([38; 97; 109; 112; 59], 38); ([38; 108; 116; 59], 60);
      ([38; 103; 116; 59], 62); ([38; 110; 98; 115; 112; 59], 160) ]%N.
Proof. reflexivity. Qed.

Lemma match_entity_other (c : N) (r : jsstring) :
  c ≠ amp → match_entity entities (c :: r) = None.
Proof.
  intros Hc. rewrite entities_eval. cbn [match_entity strip_prefix].
  destruct (N.eqb_spec 38 c) as [E|_]; [by subst |]. reflexivity.
Qed.

Lemma match_entity_reference (e : jsstring) (u : N) (r : jsstring) :
  (e, u) ∈ entities → match_entity entities (e ++ r) = Some (u, r).
Proof.
  rewrite entities_eval. intros H.
  repeat (apply elem_of_cons in H as [H|H]; [by inversion H |]).
  by apply elem_of_nil in H.
Qed.

Lemma decode_serialize (t : jsstring) (n : nat) :
  length (serialize_text t) ≤ n → decode_text n (serialize_text t) = t.
Proof.
  revert n. induction t as [|c t IH]; intros n Hn.
  - by destruct n.
  - rewrite serialize_text_cons in Hn |- *. rewrite length_app in Hn.
    destruct n as [|n]; [destruct (escape_unit_cases c)
      as [[_ E]|[[_ E]|[[_ E]|[[_ E]|(_ & _ & _ & _ & E)]]]];
      rewrite E in Hn; simpl in Hn; lia |].
    assert (Hstep : ∀ e r, decode_text (S n) (e :: r) =
      match match_entity entities (e :: r) with
      | Some (u, r') => u :: decode_text n r'
      | None => e :: decode_text n r
      end) by reflexivity.
    destruct (escape_unit_cases c)
      as [[-> E]|[[-> E]|[[-> E]|[[-> E]|(? & _ & _ & _ & E)]]]];
      rewrite E in Hn |- *.
    5: { simpl app. rewrite Hstep, match_entity_other by done.
         f_equal. apply IH. simpl in Hn. lia. }
    1: pose proof (match_entity_reference (lit "&amp;") amp (serialize_text t)) as M.
    2: pose proof (match_entity_reference (lit "&nbsp;") nbsp (serialize_text t)) as M.
    3: pose proof (match_entity_reference (lit "&lt;") lt_sign (serialize_text t)) as M.
    4: pose proof (match_entity_reference (lit "&gt;") gt_sign (serialize_text t)) as M.
    all: change (decode_text (S n) (?e ++ serialize_text t))
           with (match match_entity entities (e ++ serialize_text t) with
                 | Some (u, r') => u :: decode_text n r'
                 | None => hd 0%N e :: decode_text n (tl e ++ serialize_text t)
                 end);
      rewrite M by (rewrite entities_eval; vm_compute; set_solver);
      f_equal; apply IH; simpl in Hn; lia.
Qed.

Lemma unescape_escape (t : jsstring) :
  unescapeHtml (escapeHtml (Some t)) = t.
Proof. unfold unescapeHtml, escapeHtml. simpl. by apply decode_serialize. Qed.

End Escape.
(** C7: [getLatencyClass] sorts a latency into "good" below one second,
    "ok" from one second to below two, and "slow" from two seconds on; so
    a latency is within the sub-2-second target exactly when its class is
    not "slow". *)
Theorem getLatencyClass_thresholds (l : Q) :
  (getLatencyClass (Some l) = lit "good" ↔ (l < 1000)%Q)
  ∧ (getLatencyClass (Some l) = lit "ok" ↔ (1000 <= l)%Q ∧ (l < 2000)%Q)
  ∧ (getLatencyClass (Some l) = lit "slow" ↔ (2000 <= l)%Q)
  ∧ ((l < 2000)%Q ↔ getLatencyClass (Some l) ≠ lit "slow").
Proof.
  unfold getLatencyClass, js_lt.
  destruct (Qlt_le_dec l 1000) as [H1|H1];
    destruct (Qlt_le_dec l 2000) as [H2|H2];
    repeat split; intros; try discriminate; try done; try lra.
Qed.

(** ** The Electron renderer *)

Section RendererFacts.
Context {platform : Platform}.
Import Renderer.

Lemma limit_children_slice (max : nat) (l : list Element) :
  limit_children max l = slice_last max l.
Proof.
  unfold slice_last. induction l as [|x l IH]; [done |].
  cbn [limit_children]. destruct (Nat.ltb_spec max (length (x :: l))) as [H|H];
    simpl in H |- *.
  - rewrite IH. replace (S (length l) - max) with (S (length l - max)) by lia.
    done.
  - by replace (S (length l) - max) with 0 by lia.
Qed.

Lemma limit_children_length (max : nat) (l : list Element) :
  length (limit_children max l) = length l `min` max.
Proof. rewrite limit_children_slice. apply slice_last_length. Qed.

Lemma elem_of_limit_children (max : nat) (l : list Element) (e : Element) :
  e ∈ limit_children max l → e ∈ l.
Proof.
  rewrite limit_children_slice. unfold slice_last.
  intros H. eapply elem_of_sublist; [done | apply sublist_drop].
Qed.

(** A transcript with blank text leaves the renderer as it is. *)
Lemma handleTranscript_blank (now : Date) (d : Data) (s : State) :
  blank (text d) → handleTranscript now d s = s.
Proof.
  unfold handleTranscript. destruct (text d) as [t|]; [|done].
  intros H. apply guard_blank in H. by rewrite H.
Qed.

Lemma handleTranscript_ws (now : Date) (d : Data) (s : State) :
  ws (handleTranscript now d s) = ws s.
Proof.
  unfold handleTranscript.
  repeat (case_match; try done).
Qed.

Lemma handleMessage_ws (now : Date) (m : Message) (s : State) :
  ws (handleMessage now m s) = ws s.
Proof.
  unfold handleMessage. repeat case_bool_decide; try done.
  apply handleTranscript_ws.
Qed.

Lemma handleTranscript_responses (now : Date) (d : Data) (s : State) :
  responseContainer (handleTranscript now d s) = responseContainer s.
Proof.
  unfold handleTranscript.
  repeat (case_match; try done).
Qed.

(** Where an element of the transcript container comes from. *)
Lemma handleTranscript_elements (now : Date) (d : Data) (s : State) (e : Element) :
  e ∈ transcriptContainer (handleTranscript now d s) →
  e ∈ transcriptContainer s
  ∨ ∃ t, text d = Some t
         ∧ (innerHTML e = final_html now t (confidence d)
            ∨ innerHTML e = interim_html t).
Proof.
  unfold handleTranscript. destruct (text d) as [t|]; [|by left].
  destruct (negb (truthy (Some t)) || negb (truthy (Some (trim t))));
    [by left |].
  destruct (is_final d).
  - cbn [transcriptContainer set_transcriptContainer].
    intros H%elem_of_limit_children%elem_of_app. destruct H as [H|H].
    + left. destruct (getElementById _ _) as [[i ?]|]; [|done].
      eapply elem_of_sublist; [done | apply sublist_delete].
    + right. exists t. apply list_elem_of_singleton in H as ->. by split; [|left].
  - destruct (getElementById _ _) as [[i el]|];
      cbn [transcriptContainer set_transcriptContainer]; intros H.
    + apply list_elem_of_lookup in H as [j Hj].
      destruct (decide (i = j)) as [->|Hne].
      * destruct (decide (j < length (transcriptContainer s))).
        -- rewrite list_lookup_insert_eq in Hj by done.
           right. exists t. split; [done |]. right. by inversion Hj.
        -- rewrite list_insert_ge in Hj by lia.
           left. apply list_elem_of_lookup. eauto.
      * rewrite list_lookup_insert_ne in Hj by done.
        left. apply list_elem_of_lookup. eauto.
    + apply elem_of_app in H as [H|H]; [by left |].
      right. exists t. apply list_elem_of_singleton in H as ->. by split; [|right].
Qed.

Lemma handleResponse_elements (now : Date) (d : Data) (s : State) (e : Element) :
  e ∈ responseContainer (handleResponse now d s) →
  e ∈ responseContainer s ∨ innerHTML e = response_html now d.
Proof.
  unfold handleResponse. cbn.
  intros H%elem_of_limit_children%elem_of_app. destruct H as [H|H]; [by left |].
  right. by apply list_elem_of_singleton in H as ->.
Qed.

End RendererFacts.

Section RendererHistory.
Context {platform : Platform}.
Import Renderer.

Lemma handleMessages_snoc (ms : list (Date * Message)) (now : Date)
    (m : Message) (s : State) :
  handleMessages (ms ++ [(now, m)]) s = handleMessage now m (handleMessages ms s).
Proof. unfold handleMessages. by rewrite foldl_app. Qed.

Lemma final_cards_snoc (ms : list (Date * Message)) (now : Date) (m : Message) :
  final_cards (ms ++ [(now, m)]) =
    final_cards ms ++
      match accepted_text m with
      | Some t => if is_final (data m) then [final_card now t (data m)] else []
      | None => []
      end.
Proof.
  unfold final_cards. rewrite omap_app. f_equal. cbn.
  destruct (accepted_text m); [destruct (is_final (data m)) |]; done.
Qed.

Lemma pending_interim_snoc (ms : list (Date * Message)) (now : Date) (m : Message) :
  pending_interim (ms ++ [(now, m)]) =
    match accepted_text m with
    | Some t => if is_final (data m) then None else Some (interim_card t)
    | None => pending_interim ms
    end.
Proof. unfold pending_interim. by rewrite foldl_app. Qed.

Lemma response_cards_snoc (ms : list (Date * Message)) (now : Date) (m : Message) :
  response_cards (ms ++ [(now, m)]) =
    response_cards ms ++
      (if bool_decide (type m = lit "response")
       then [response_card now (data m)] else []).
Proof.
  unfold response_cards. rewrite omap_app. f_equal. cbn.
  by case_bool_decide.
Qed.

Lemma final_cards_not_interim (ms : list (Date * Message)) :
  Forall (λ e, elem_id e ≠ interim_id) (final_cards ms).
Proof.
  induction ms as [|[now m] ms IH]; [constructor |].
  unfold final_cards in *. cbn [omap list_omap].
  destruct (accepted_text (now, m).2); [destruct (is_final _) |]; try done.
  constructor; [|done]. by cbn.
Qed.

Lemma getElementById_none (fin : list Element) :
  Forall (λ e, elem_id e ≠ interim_id) fin →
  getElementById interim_id fin = None.
Proof.
  intros H. unfold getElementById. apply list_find_None.
  eapply Forall_impl; [done |]. by intros e He.
Qed.

Lemma getElementById_last (fin : list Element) (el : Element) :
  Forall (λ e, elem_id e ≠ interim_id) fin →
  elem_id el = interim_id →
  getElementById interim_id (fin ++ [el]) = Some (length fin, el).
Proof.
  intros H Hel. unfold getElementById. apply list_find_Some.
  split; [by rewrite lookup_app_r, Nat.sub_diag by lia |].
  split; [done |].
  intros j y Hj Hlt. rewrite lookup_app_l in Hj by done.
  eapply Forall_lookup_1 in H; done.
Qed.

Lemma slice_last_not_interim (n : nat) (l : list Element) :
  Forall (λ e, elem_id e ≠ interim_id) l →
  Forall (λ e, elem_id e ≠ interim_id) (slice_last n l).
Proof. apply Forall_drop. Qed.

Lemma slice_last_slide {A} (n : nat) (l : list A) (x : A) :
  slice_last n (slice_last n l ++ [x]) = slice_last n (l ++ [x]).
Proof.
  destruct n as [|n].
  - unfold slice_last. by rewrite !Nat.sub_0_r, !drop_all.
  - by rewrite !slice_last_snoc, slice_last_idem by lia.
Qed.

Lemma pending_interim_shape (ms : list (Date * Message)) (el : Element) :
  pending_interim ms = Some el → ∃ t, el = interim_card t.
Proof.
  revert el. induction ms as [|[n x] ms IH] using rev_ind; [done |].
  intros el. rewrite pending_interim_snoc.
  destruct (accepted_text x) as [t|]; [destruct (is_final _) |]; try done.
  - intros [= <-]. by exists t.
  - apply IH.
Qed.

(** The transcript container after a history: the most recent twenty
    final cards, followed by the interim card if one is pending. *)
Lemma transcriptContainer_history (ms : list (Date * Message)) :
  transcriptContainer (handleMessages ms initial) =
    slice_last maxTranscripts (final_cards ms)
    ++ option_list (pending_interim ms).
Proof.
  induction ms as [|[now m] ms IH] using rev_ind; [done |].
  rewrite handleMessages_snoc, final_cards_snoc, pending_interim_snoc.
  set (s := handleMessages ms initial) in *.
  pose proof (slice_last_not_interim maxTranscripts _ (final_cards_not_interim ms))
    as Hfin.
  set (fin := slice_last maxTranscripts (final_cards ms)) in *.
  unfold handleMessage, accepted_text.
  case_bool_decide as Hty.
  - unfold handleTranscript. destruct (text (data m)) as [t|];
      [|by rewrite app_nil_r].
    destruct (negb (truthy (Some t)) || negb (truthy (Some (trim t))));
      [by rewrite app_nil_r |].
    rewrite IH. clear IH.
    destruct (pending_interim ms) as [el|] eqn:Hp.
    + apply pending_interim_shape in Hp as [t0 ->].
      change (option_list (Some (interim_card t0))) with [interim_card t0].
      rewrite getElementById_last by done.
      destruct (is_final (data m));
        cbn [transcriptContainer set_transcriptContainer].
      * replace (delete (length fin) (fin ++ [interim_card t0])) with fin.
        2: { clear. induction fin; [done |]. cbn. by f_equal. }
        change (option_list None) with (@nil Element).
        rewrite app_nil_r, limit_children_slice.
        apply slice_last_slide.
      * rewrite app_nil_r, insert_app_r_alt, Nat.sub_diag by lia. done.
    + change (option_list None) with (@nil Element).
      rewrite app_nil_r, getElementById_none by done.
      destruct (is_final (data m));
        cbn [transcriptContainer set_transcriptContainer].
      * rewrite app_nil_r, limit_children_slice. apply slice_last_slide.
      * by rewrite app_nil_r.
  - rewrite app_nil_r. fold fin. rewrite <- IH.
    repeat case_bool_decide; done.
Qed.

(** The response container after a history: the most recent ten response
    cards. *)
Lemma responseContainer_history (ms : list (Date * Message)) :
  responseContainer (handleMessages ms initial) =
    slice_last maxResponses (response_cards ms).
Proof.
  induction ms as [|[now m] ms IH] using rev_ind; [done |].
  rewrite handleMessages_snoc, response_cards_snoc.
  set (s := handleMessages ms initial) in *.
  unfold handleMessage.
  case_bool_decide as Hty.
  - rewrite handleTranscript_responses, IH.
    rewrite bool_decide_eq_false_2, app_nil_r; [done |].
    rewrite Hty. by vm_compute.
  - case_bool_decide as Hty2.
    + unfold handleResponse. cbn. rewrite limit_children_slice, IH.
      apply slice_last_slide.
    + rewrite app_nil_r. by case_bool_decide.
Qed.

End RendererHistory.

Section RendererDisplay.
Context {platform : Platform}.
Import Renderer.

Lemma filter_interim_split (fin : list Element) (p : option Element) :
  Forall (λ e, elem_id e ≠ interim_id) fin →
  (∀ el, p = Some el → elem_id el = interim_id) →
  filter (λ e, elem_id e = interim_id) (fin ++ option_list p) = option_list p
  ∧ filter (λ e, elem_id e ≠ interim_id) (fin ++ option_list p) = fin.
Proof.
  intros Hfin Hp. rewrite !filter_app.
  assert (Hitm : Forall (λ e, elem_id e = interim_id) (option_list p)).
  { destruct p as [el|]; [|constructor]. repeat constructor. by apply Hp. }
  split.
  - rewrite (filter_none _ fin) by done. by rewrite filter_all.
  - rewrite (filter_all _ fin) by done. rewrite filter_none; [by rewrite app_nil_r |].
    eapply Forall_impl; [done |]. by intros e He Hne.
Qed.

Lemma interim_elements_history (ms : list (Date * Message)) :
  interim_elements (handleMessages ms initial) = option_list (pending_interim ms).
Proof.
  unfold interim_elements. rewrite transcriptContainer_history.
  apply filter_interim_split.
  - apply slice_last_not_interim, final_cards_not_interim.
  - intros el [t ->]%pending_interim_shape. done.
Qed.

Lemma final_elements_history (ms : list (Date * Message)) :
  final_elements (handleMessages ms initial) =
    slice_last maxTranscripts (final_cards ms).
Proof.
  unfold final_elements. rewrite transcriptContainer_history.
  apply filter_interim_split.
  - apply slice_last_not_interim, final_cards_not_interim.
  - intros el [t ->]%pending_interim_shape. done.
Qed.

Lemma option_list_length {A} (p : option A) : length (option_list p) ≤ 1.
Proof. destruct p; cbn; lia. Qed.

End RendererDisplay.

(** ** The React prompter *)

Section PrompterFacts.
Import Prompter.

Lemma prompter_handleMessages_snoc (ms : list Message) (m : Message) (s : State) :
  handleMessages (ms ++ [m]) s = handleMessage m (handleMessages ms s).
Proof. unfold handleMessages. by rewrite foldl_app. Qed.

Lemma hint_is_not_transcript : lit "hint" ≠ lit "transcript".
Proof. by vm_compute. Qed.

Lemma transcripts_history (ms : list Message) (v : bool) :
  transcripts (handleMessages ms (initial v)) =
    slice_last 11 (final_transcripts ms).
Proof.
  induction ms as [|m ms IH] using rev_ind; [done |].
  rewrite prompter_handleMessages_snoc.
  unfold final_transcripts in *. rewrite filter_app, fmap_app.
  unfold handleMessage. case_bool_decide as Hty.
  - destruct (is_final (data m)) eqn:Hf; cbn [transcripts].
    + rewrite filter_cons_True by done. rewrite filter_nil.
      cbn [fmap list_fmap]. rewrite slice_last_snoc, IH.
      by rewrite slice_last_idem by lia.
    + rewrite filter_cons_False by (intros [_ ?]; congruence).
      rewrite filter_nil. cbn [fmap list_fmap]. by rewrite app_nil_r.
  - rewrite filter_cons_False by (by intros [? _]).
    rewrite filter_nil. cbn [fmap list_fmap]. rewrite app_nil_r.
    by repeat case_bool_decide.
Qed.

Lemma hints_history (ms : list Message) (v : bool) :
  hints (handleMessages ms (initial v)) = slice_last 6 (hint_data ms).
Proof.
  induction ms as [|m ms IH] using rev_ind; [done |].
  rewrite prompter_handleMessages_snoc.
  unfold hint_data in *. rewrite filter_app, fmap_app.
  unfold handleMessage. case_bool_decide as Hty.
  - rewrite filter_cons_False
      by (rewrite Hty; intros E; by apply hint_is_not_transcript).
    rewrite filter_nil. cbn [fmap list_fmap]. rewrite app_nil_r.
    by destruct (is_final (data m)).
  - case_bool_decide as Hh.
    + rewrite filter_cons_True by done. rewrite filter_nil.
      cbn [fmap list_fmap hints]. rewrite slice_last_snoc, IH.
      by rewrite slice_last_idem by lia.
    + rewrite filter_cons_False by done.
      rewrite filter_nil. cbn [fmap list_fmap]. rewrite app_nil_r.
      by case_bool_decide.
Qed.

Context {platform : Platform}.

(** The component renders at most one interim card. *)
Lemma render_one_interim (s : State) :
  length (filter (λ n, is_interim n = true) (render s)) ≤ 1.
Proof.
  unfold render. rewrite !filter_app, !length_app.
  assert (H1 : ∀ l : list Data,
    filter (λ n, is_interim n = true)
      (map (λ t, TranscriptCard (text t) (percent (confidence t))
                   (localeTime (timestamp t))) l) = []).
  { induction l as [|x l IHl]; [done |]. cbn [map].
    rewrite filter_cons_False by done. done. }
  rewrite H1.
  assert (H0 : ∀ (c : bool) (n : Node),
    is_interim n = false →
    length (filter (λ n, is_interim n = true) (if c then [n] else [])) = 0).
  { intros [|] n Hn; [|done].
    rewrite filter_cons_False by (by rewrite Hn). done. }
  rewrite (H0 _ Placeholder), (H0 _ (PreviousHints _)) by done.
  assert (Hh : length (filter (λ n, is_interim n = true)
                 match currentHint s with
                 | Some h => [HintPanel (text h) (question h)]
                 | None => []
                 end) = 0).
  { destruct (currentHint s); [|done]. by rewrite filter_cons_False. }
  rewrite Hh. cbn [length Nat.add]. rewrite Nat.add_0_r.
  etrans; [apply length_filter |]. destruct (truthy _); cbn; lia.
Qed.

End PrompterFacts.

(** ** The claims about the display clients *)

Section Clients.
Context {platform : Platform}.

(** C10: for a transcript message whose text is absent, empty or made of
    white space only, the renderer's [handleTranscript] returns the state
    it was given: no transcript element is created, updated or removed. *)
Theorem handleTranscript_blank_noop (now : Date) (d : Data) (s : Renderer.State) :
  blank (text d) → Renderer.handleTranscript now d s = s.
Proof. apply handleTranscript_blank. Qed.

Lemma send_if_open_frames (f : jsstring) (w : option WebSocket) :
  frames (send_if_open f w) = frames w ++ (if is_open w then [f] else []).
Proof.
  unfold send_if_open. destruct (is_open w) eqn:E.
  - destruct w as [sock|]; [done | discriminate].
  - by rewrite app_nil_r.
Qed.

Lemma new_frames_send_if_open (f : jsstring) (s s' : Renderer.State) :
  Renderer.ws s' = send_if_open f (Renderer.ws s) →
  Renderer.new_frames s s' = if is_open (Renderer.ws s) then [f] else [].
Proof.
  intros E. unfold Renderer.new_frames. rewrite E, send_if_open_frames.
  by rewrite drop_app_length.
Qed.

(** C4: the clear operation of either client empties everything it
    displays, and it sends on the socket exactly when the socket is OPEN:
    then the socket has one more frame, the text {"type":"clear_context"}
    (written here code unit by code unit); a socket in any other ready
    state, and the absence of a socket, are left as they are. *)
Theorem clear_empties_display_and_notifies :
  (∀ s : Renderer.State,
      let s' := Renderer.clear_click s in
      Renderer.transcriptContainer s' = []
      ∧ Renderer.responseContainer s' = []
      ∧ Renderer.ws s' =
          match Renderer.ws s with
          | Some w =>
              match readyState w with
              | OPEN =>
                  Some (mkWebSocket OPEN
                          (sent w ++
                             [[123; 34; 116; 121; 112; 101; 34; 58; 34; 99; 108;
                               101; 97; 114; 95; 99; 111; 110; 116; 101; 120;
                               116; 34; 125]%N]))
              | _ => Some w
              end
          | None => None
          end)
  ∧ (∀ s : Prompter.State,
      let s' := Prompter.clearAll s in
      Prompter.transcripts s' = []
      ∧ Prompter.hints s' = []
      ∧ Prompter.currentHint s' = None
      ∧ Prompter.interimText s' = Some []
      ∧ Prompter.render s' = [Prompter.Placeholder]
      ∧ Prompter.wsRef s' =
          match Prompter.wsRef s with
          | Some w =>
              match readyState w with
              | OPEN =>
                  Some (mkWebSocket OPEN
                          (sent w ++
                             [[123; 34; 116; 121; 112; 101; 34; 58; 34; 99; 108;
                               101; 97; 114; 95; 99; 111; 110; 116; 101; 120;
                               116; 34; 125]%N]))
              | _ => Some w
              end
          | None => None
          end).
Proof.
  split; intros s; cbn.
  - repeat split. by destruct (Renderer.ws s) as [[[] l]|].
  - repeat split. by destruct (Prompter.wsRef s) as [[[] l]|].
Qed.

(** C1, as the clients have it: the React prompter takes a message of
    the hint shape into its hints, makes it the current hint and renders
    its text with its question first; the Electron renderer has handlers
    for "transcript", "response" and "status" only, so that it sends
    type "hint" to the unknown-type branch, which logs a warning and
    leaves the display as it was. *)
Theorem hint_message_handling (t q : jsstring) (ts latency : Q) :
  (∀ s : Prompter.State,
      let m := hint_msg t q ts latency in
      let s' := Prompter.handleMessage m s in
      Prompter.currentHint s' = Some (data m)
      ∧ Prompter.hints s' = slice_last 5 (Prompter.hints s) ++ [data m]
      ∧ head (Prompter.render s') = Some (Prompter.HintPanel (Some t) (Some q)))
  ∧ (∀ (now : Date) (s : Renderer.State),
      let s' := Renderer.handleMessage now (hint_msg t q ts latency) s in
      s' = Renderer.console_warn (lit "Unknown message type:") (lit "hint") s
      ∧ Renderer.transcriptContainer s' = Renderer.transcriptContainer s
      ∧ Renderer.responseContainer s' = Renderer.responseContainer s
      ∧ Renderer.latencyIndicator s' = Renderer.latencyIndicator s).
Proof.
  split.
  - intros s m s'. subst s' m. unfold Prompter.handleMessage.
    rewrite bool_decide_eq_false_2 by (by vm_compute).
    rewrite bool_decide_eq_true_2 by done. done.
  - intros now s s'. subst s'. unfold Renderer.handleMessage.
    rewrite !bool_decide_eq_false_2 by (by vm_compute). done.
Qed.

End Clients.

Section InterimAndBounds.
Context {platform : Platform}.

Lemma renderer_step_history (ms : list (Date * Message)) (now : Date) (m : Message) :
  Renderer.handleMessage now m (Renderer.handleMessages ms Renderer.initial) =
    Renderer.handleMessages (ms ++ [(now, m)]) Renderer.initial.
Proof. by rewrite handleMessages_snoc. Qed.

(** C5, as the clients have it: each client shows at most one interim
    transcript.  In the prompter a non-final transcript message replaces
    the interim text and a final one empties it and appends the
    transcript.  In the renderer the same holds for transcript messages
    whose text is not blank: a non-final one leaves exactly its own
    interim element on display, in the place of the previous one if there
    was one, and a final one removes the interim element and appends its
    final element; a transcript message with blank text changes
    nothing. *)
Theorem at_most_one_interim :
  (∀ s : Prompter.State,
      length (filter (λ n, Prompter.is_interim n = true) (Prompter.render s)) ≤ 1)
  ∧ (∀ (s : Prompter.State) (m : Message),
      type m = lit "transcript" →
      let s' := Prompter.handleMessage m s in
      if is_final (data m)
      then Prompter.interimText s' = Some []
           ∧ Prompter.transcripts s' =
               slice_last 10 (Prompter.transcripts s) ++ [data m]
      else Prompter.interimText s' = text (data m)
           ∧ Prompter.transcripts s' = Prompter.transcripts s)
  ∧ (∀ ms : list (Date * Message),
      length (Renderer.interim_elements
                (Renderer.handleMessages ms Renderer.initial)) ≤ 1)
  ∧ (∀ (ms : list (Date * Message)) (now : Date) (m : Message) (t : jsstring),
      accepted_text m = Some t →
      let s := Renderer.handleMessages ms Renderer.initial in
      let s' := Renderer.handleMessage now m s in
      if is_final (data m)
      then Renderer.interim_elements s' = []
           ∧ last (Renderer.transcriptContainer s')
               = Some (final_card now t (data m))
           ∧ Renderer.final_elements s' =
               slice_last Renderer.maxTranscripts
                 (Renderer.final_elements s ++ [final_card now t (data m)])
      else Renderer.interim_elements s' = [interim_card t]
           ∧ Renderer.final_elements s' = Renderer.final_elements s
           ∧ (Renderer.interim_elements s ≠ [] →
              length (Renderer.transcriptContainer s')
                = length (Renderer.transcriptContainer s)))
  ∧ (∀ (now : Date) (m : Message) (s : Renderer.State),
      type m = lit "transcript" → blank (text (data m)) →
      Renderer.handleMessage now m s = s).
Proof.
  split; [apply render_one_interim |]. split.
  { intros s m Hty s'. subst s'. unfold Prompter.handleMessage.
    rewrite bool_decide_eq_true_2 by done. by destruct (is_final (data m)). }
  split.
  { intros ms. rewrite interim_elements_history. apply option_list_length. }
  split.
  - intros ms now m t Hacc s s'. subst s s'.
    rewrite renderer_step_history.
    rewrite !interim_elements_history, !final_elements_history,
      !transcriptContainer_history.
    rewrite final_cards_snoc, pending_interim_snoc, Hacc.
    destruct (is_final (data m)).
    + split; [done |]. split.
      * change (option_list None) with (@nil Renderer.Element).
        rewrite app_nil_r. unfold Renderer.maxTranscripts.
        rewrite slice_last_snoc. apply last_snoc.
      * by rewrite slice_last_slide.
    + rewrite app_nil_r. split; [done |]. split; [done |].
      destruct (pending_interim ms); [|done]. intros _.
      by rewrite !length_app.
  - intros now m s Hty Hb. unfold Renderer.handleMessage.
    rewrite bool_decide_eq_true_2 by done. by apply handleTranscript_blank.
Qed.

(** C9, as the clients have it: from its initial state the prompter
    keeps the 11 most recent final transcripts and the 6 most recent
    hints; the renderer keeps the 20 most recent final transcript elements
    and the 10 most recent response cards.  The renderer's interim element
    is not counted against the 20: its transcript container holds at most
    one of it besides the final elements, at most 21 elements in all. *)
Theorem retained_items_bounded :
  (∀ (ms : list Message) (v : bool),
      let s := Prompter.handleMessages ms (Prompter.initial v) in
      Prompter.transcripts s = slice_last 11 (final_transcripts ms)
      ∧ Prompter.hints s = slice_last 6 (hint_data ms)
      ∧ length (Prompter.transcripts s) ≤ 11
      ∧ length (Prompter.hints s) ≤ 6)
  ∧ (∀ ms : list (Date * Message),
      let s := Renderer.handleMessages ms Renderer.initial in
      Renderer.final_elements s = slice_last 20 (final_cards ms)
      ∧ Renderer.responseContainer s = slice_last 10 (response_cards ms)
      ∧ length (Renderer.final_elements s) ≤ 20
      ∧ length (Renderer.interim_elements s) ≤ 1
      ∧ length (Renderer.transcriptContainer s) ≤ 21
      ∧ length (Renderer.responseContainer s) ≤ 10).
Proof.
  split.
  - intros ms v s. subst s.
    rewrite transcripts_history, hints_history, !slice_last_length.
    repeat split; lia.
  - intros ms s. subst s.
    rewrite final_elements_history, interim_elements_history,
      transcriptContainer_history, responseContainer_history.
    rewrite length_app, !slice_last_length.
    pose proof (option_list_length (pending_interim ms)).
    unfold Renderer.maxTranscripts, Renderer.maxResponses.
    repeat split; lia.
Qed.

End InterimAndBounds.

Section Markup.
Context {platform : Platform}.
Import Renderer.

Lemma final_html_splice (now : Date) (conf : option Q) :
  ∃ pre post, ∀ t, final_html now t conf = pre ++ escapeHtml (Some t) ++ post.
Proof.
  exists (nl ++ indent 6 ++ open_tag "div" (lit "transcript-text")).
  eexists. intros t. unfold final_html.
  rewrite <- !app_assoc. reflexivity.
Qed.

Lemma interim_html_splice :
  ∃ pre post, ∀ t, interim_html t = pre ++ escapeHtml (Some t) ++ post.
Proof.
  exists (nl ++ indent 6 ++ open_tag "div" (lit "transcript-text")).
  eexists. intros t. unfold interim_html.
  rewrite <- !app_assoc. reflexivity.
Qed.

Lemma response_html_splice (now : Date) (d : Data) :
  ∃ pre mid ctx_pre ctx_post post, ∀ txt ctx,
    response_html now
      (mkData txt (is_final d) (confidence d) (timestamp d) (question d)
         ctx (latency_ms d) (status d) (message d))
    = pre ++ escapeHtml txt ++ mid
      ++ (if truthy ctx then ctx_pre ++ escapeHtml ctx ++ ctx_post else [])
      ++ post.
Proof.
  exists (nl ++ indent 4 ++ open_tag "div" (lit "response-header")
          ++ nl ++ indent 6 ++ open_tag "span" (lit "response-icon")
             ++ robot_icon ++ close_tag "span"
          ++ nl ++ indent 6 ++ open_tag "span" (lit "response-time")
             ++ formatTime now ++ close_tag "span"
          ++ nl ++ indent 4 ++ close_tag "div"
          ++ nl ++ indent 4 ++ open_tag "div" (lit "response-text")).
  exists (close_tag "div" ++ nl ++ indent 4).
  exists (open_tag "div" (lit "response-context") ++ lit "Context: ").
  exists (close_tag "div").
  eexists. intros txt ctx. unfold response_html. cbn [text context latency_ms].
  destruct (truthy ctx); rewrite <- !app_assoc; reflexivity.
Qed.

(** C8: [escapeHtml] leaves no '<' and no '>' in its result, every '&' of
    the result starts one of the references it writes, and reading the
    references back gives the text unchanged.  The markup the renderer
    assigns to [innerHTML] is a fixed frame into which the transcript
    text, the response text and the context enter only as their
    [escapeHtml] images, and every element the message handler adds to a
    container carries such markup. *)
Theorem escapeHtml_keeps_text_literal :
  (∀ t : jsstring,
      (lt_sign ∉ escapeHtml (Some t))
      ∧ (gt_sign ∉ escapeHtml (Some t))
      ∧ (∀ i, escapeHtml (Some t) !! i = Some amp →
              reference_at (escapeHtml (Some t)) i)
      ∧ unescapeHtml (escapeHtml (Some t)) = t)
  ∧ (∀ now conf, ∃ pre post, ∀ t,
        final_html now t conf = pre ++ escapeHtml (Some t) ++ post)
  ∧ (∃ pre post, ∀ t, interim_html t = pre ++ escapeHtml (Some t) ++ post)
  ∧ (∀ now d, ∃ pre mid ctx_pre ctx_post post, ∀ txt ctx,
        response_html now
          (mkData txt (is_final d) (confidence d) (timestamp d) (question d)
             ctx (latency_ms d) (status d) (message d))
        = pre ++ escapeHtml txt ++ mid
          ++ (if truthy ctx then ctx_pre ++ escapeHtml ctx ++ ctx_post else [])
          ++ post)
  ∧ (∀ now m s e,
        e ∈ transcriptContainer (handleMessage now m s) →
        e ∈ transcriptContainer s
        ∨ ∃ t, text (data m) = Some t
               ∧ (innerHTML e = final_html now t (confidence (data m))
                  ∨ innerHTML e = interim_html t))
  ∧ (∀ now m s e,
        e ∈ responseContainer (handleMessage now m s) →
        e ∈ responseContainer s ∨ innerHTML e = response_html now (data m)).
Proof.
  split.
  { intros t. pose proof (serialize_text_no_angle t) as Ha.
    rewrite Forall_forall in Ha.
    split; [intros H; by destruct (Ha _ H) |].
    split; [intros H; by destruct (Ha _ H) |].
    split; [apply serialize_text_references | apply unescape_escape]. }
  split; [apply final_html_splice |].
  split; [apply interim_html_splice |].
  split; [apply response_html_splice |].
  split.
  - intros now m s e. unfold handleMessage.
    repeat case_bool_decide; try (by left).
    apply handleTranscript_elements.
  - intros now m s e. unfold handleMessage.
    repeat case_bool_decide; try (by left).
    + rewrite handleTranscript_responses. by left.
    + apply handleResponse_elements.
Qed.

End Markup.

(** ** The Hint Requester *)

Section HintRequesterFacts.
Import HintRequester.

Lemma filter_remove_one (l : list nat) (x : nat) :
  NoDup l → x ∈ l → length (filter (λ c, c ≠ x) l) = pred (length l).
Proof.
  induction 1 as [|y l Hy Hnd IH]; [by intros ?%elem_of_nil |].
  intros Hin. destruct (decide (y = x)) as [->|Hne].
  - rewrite filter_cons_False by (by intros ?). cbn.
    f_equal. apply filter_all.
    apply Forall_forall. intros z Hz ->. done.
  - rewrite filter_cons_True by done. cbn.
    apply elem_of_cons in Hin as [->|Hin]; [done |].
    rewrite IH by done. destruct l; [by apply elem_of_nil in Hin | done].
Qed.

Lemma consistent_initial (cap : nat) : consistent cap initial.
Proof. repeat split; cbn; [constructor | constructor | lia]. Qed.

Lemma consistent_step (cap : nat) (s : State) (e : Event) :
  consistent cap s → consistent cap (step cap s e).
Proof.
  intros (Hlen & Hnd & Hlt & Hcap). destruct e as [r|call o]; cbn.
  - unfold request. destruct (Nat.ltb_spec (in_flight s) cap) as [H|H];
      [|done].
    repeat split; cbn.
    + rewrite length_app. cbn. lia.
    + apply NoDup_app. split; [done |]. split; [|apply NoDup_singleton].
      intros x Hx ->%list_elem_of_singleton.
      rewrite Forall_forall in Hlt. apply Hlt in Hx. lia.
    + rewrite length_app. cbn. apply Forall_app. split.
      * eapply Forall_impl; [done |]. cbn. lia.
      * repeat constructor. lia.
    + lia.
  - unfold returned. case_bool_decide as Hin; [|done].
    assert (Hgoal : consistent cap
      (mkState (pred (in_flight s)) (calls s)
         (filter (λ c, c ≠ call) (outstanding s)) (hints s) (warnings s))).
    { repeat split; cbn.
      - rewrite filter_remove_one by done. by rewrite Hlen.
      - by apply NoDup_filter.
      - by apply Forall_filter_of.
      - lia. }
    destruct o as [answer latency| |]; [destruct (calls s !! call) |..];
      exact Hgoal.
Qed.

Lemma consistent_run (cap : nat) (es : list Event) (s : State) :
  consistent cap s → consistent cap (run cap es s).
Proof.
  revert s. induction es as [|e es IH]; intros s Hs; [done |].
  cbn. apply IH. by apply consistent_step.
Qed.

Lemma run_app (cap : nat) (es1 es2 : list Event) (s : State) :
  run cap (es1 ++ es2) s = run cap es2 (run cap es1 s).
Proof. unfold run. apply foldl_app. Qed.

(** C2: in every run of triggers and provider returns the in-flight
    counter, which counts the calls that have not returned, stays within
    the cap; a trigger that finds the counter at the cap leaves the
    requester as it was (no provider call, no HintEvent, nothing kept for
    later), so the rest of the run goes as if it had not occurred. *)
Theorem in_flight_within_cap (cap : nat) (es : list Event) :
  let s := run cap es initial in
  in_flight s ≤ cap
  ∧ length (outstanding s) = in_flight s
  ∧ (∀ r : Request,
        in_flight s = cap →
        step cap s (Trigger r) = s
        ∧ calls (step cap s (Trigger r)) = calls s
        ∧ hints (step cap s (Trigger r)) = hints s
        ∧ ∀ es', run cap (es ++ Trigger r :: es') initial
                 = run cap (es ++ es') initial).
Proof.
  intros s. destruct (consistent_run cap es initial (consistent_initial cap))
    as (Hlen & _ & _ & Hcap). fold s in Hlen, Hcap.
  split; [done |]. split; [done |].
  intros r Hfull.
  assert (Hskip : step cap s (Trigger r) = s).
  { cbn. unfold request.
    destruct (Nat.ltb_spec (in_flight s) cap); [lia | done]. }
  rewrite Hskip. repeat split.
  intros es'. rewrite !run_app. fold s.
  change (run cap (Trigger r :: es') s)
    with (run cap es' (step cap s (Trigger r))).
  by rewrite Hskip.
Qed.

End HintRequesterFacts.

(** ** The Event Hub *)

Section EventHubFacts.
Import EventHub.

Lemma enqueue_sublist (capacity : nat) (e : Event) (sub : Subscriber) :
  queue (enqueue capacity e sub) `sublist_of` queue sub ++ [e].
Proof.
  unfold enqueue. destruct (length (queue sub) <? capacity); [done |].
  destruct (list_find _ _) as [[i ?]|]; cbn.
  - apply sublist_app; [apply sublist_delete | done].
  - apply sublist_app; [apply sublist_drop | done].
Qed.

Lemma received_cons (h h' : nat) (e : Event) (w : list (nat * Event)) :
  received h ((h', e) :: w) =
    if decide (h' = h) then e :: received h w else received h w.
Proof.
  unfold received. case_decide.
  - by rewrite filter_cons_True.
  - by rewrite filter_cons_False.
Qed.

(** What subscriber [h] has received and still has queued is, in this
    order, part of what was emitted. *)
Lemma run_sublist (capacity : nat) (h : nat) (ops : list Op) :
  ∀ (hub : Hub) (before : list Event),
    default [] (queue <$> subscribers hub !! h) `sublist_of` before →
    (received h (run capacity ops hub).2
       ++ default [] (queue <$> subscribers (run capacity ops hub).1 !! h))
    `sublist_of` (before ++ emitted ops (next_seq hub)).
Proof.
  induction ops as [|op ops IH]; intros hub before Hq.
  { cbn. by rewrite app_nil_r. }
  cbn [run emitted].
  destruct op as [k p| |h'|h'].
  - cbn [step]. specialize (IH
      (mkHub (S (next_seq hub)) (next_handle hub)
         (enqueue capacity (mkEvent (next_seq hub) k p) <$> subscribers hub))
      (before ++ [mkEvent (next_seq hub) k p])).
    destruct (run capacity ops _) as [hub2 out2]. cbn -[received] in IH |- *.
    rewrite <- app_assoc in IH. cbn -[received] in IH. apply IH.
    rewrite lookup_fmap. destruct (subscribers hub !! h) as [sub|]; cbn in *.
    + etrans; [apply enqueue_sublist |]. by apply sublist_app.
    + apply sublist_nil_l.
  - cbn [step]. specialize (IH
      (mkHub (next_seq hub) (S (next_handle hub))
         (<[next_handle hub := mkSubscriber [] None 0]> (subscribers hub)))
      before).
    destruct (run capacity ops _) as [hub2 out2]. cbn -[received] in IH |- *. apply IH.
    destruct (decide (next_handle hub = h)) as [->|Hne].
    + rewrite lookup_insert_eq. apply sublist_nil_l.
    + by rewrite lookup_insert_ne.
  - cbn [step]. specialize (IH
      (mkHub (next_seq hub) (next_handle hub) (delete h' (subscribers hub)))
      before).
    destruct (run capacity ops _) as [hub2 out2]. cbn -[received] in IH |- *. apply IH.
    destruct (decide (h' = h)) as [->|Hne].
    + rewrite lookup_delete_eq. apply sublist_nil_l.
    + by rewrite lookup_delete_ne.
  - cbn [step]. destruct (subscribers hub !! h') as [sub|] eqn:Hsub.
    2: { specialize (IH hub before Hq).
         destruct (run capacity ops hub) as [hub2 out2]. done. }
    destruct (queue sub) as [|e rest] eqn:Hqueue.
    { specialize (IH hub before Hq).
      destruct (run capacity ops hub) as [hub2 out2]. done. }
    destruct (decide (h' = h)) as [->|Hne].
    + rewrite Hsub in Hq. cbn in Hq. rewrite Hqueue in Hq.
      apply sublist_cons_l in Hq as (pa & pb & -> & Hrest).
      specialize (IH
        (mkHub (next_seq hub) (next_handle hub)
           (<[h := mkSubscriber rest (Some (seq_no e)) (lost sub)]>
              (subscribers hub))) pb).
      destruct (run capacity ops _) as [hub2 out2]. cbn -[received] in IH |- *.
      rewrite received_cons, decide_True by done.
      rewrite <- app_assoc. apply sublist_inserts_l. cbn [app].
      apply sublist_skip, IH. by rewrite lookup_insert_eq.
    + specialize (IH
        (mkHub (next_seq hub) (next_handle hub)
           (<[h' := mkSubscriber rest (Some (seq_no e)) (lost sub)]>
              (subscribers hub))) before).
      destruct (run capacity ops _) as [hub2 out2]. cbn -[received] in IH |- *.
      rewrite received_cons, decide_False by done.
      apply IH. by rewrite lookup_insert_ne.
Qed.

Lemma emitted_sorted (ops : list Op) (from : nat) :
  StronglySorted lt (seq_no <$> emitted ops from)
  ∧ Forall (λ n, from ≤ n) (seq_no <$> emitted ops from).
Proof.
  revert from. induction ops as [|op ops IH]; intros from.
  { split; constructor. }
  destruct op as [k p| |h|h]; cbn [emitted]; try apply IH.
  destruct (IH (S from)) as [Hs Hf]. cbn. split.
  - constructor; [done |]. eapply Forall_impl; [done |]. cbn. lia.
  - constructor; [lia |]. eapply Forall_impl; [done |]. cbn. lia.
Qed.

Lemma StronglySorted_sublist {A} (R : relation A) (l k : list A) :
  l `sublist_of` k → StronglySorted R k → StronglySorted R l.
Proof.
  induction 1 as [|x l k Hlk IH|x l k Hlk IH]; [done |..].
  - intros [Hk Hx]%StronglySorted_inv. constructor; [by apply IH |].
    eapply Forall_sublist_of; done.
  - intros [Hk _]%StronglySorted_inv. by apply IH.
Qed.

(** C3: for every run of the hub and every subscriber, the stream the
    subscriber receives is a subsequence of the events in emission order
    (events may be missing, none is out of place), so its sequence
    numbers never decrease; they are even strictly increasing. *)
Theorem subscriber_stream_in_order (capacity : nat) (ops : list Op) (h : nat) :
  let stream := received h (run capacity ops initial).2 in
  stream `sublist_of` emitted ops 0
  ∧ Sorted le (seq_no <$> stream)
  ∧ StronglySorted lt (seq_no <$> stream).
Proof.
  intros stream.
  assert (Hsub : stream `sublist_of` emitted ops 0).
  { pose proof (run_sublist capacity h ops initial [] (sublist_nil_l _)) as H.
    etrans; [|exact H]. by apply sublist_inserts_r. }
  assert (Hlt : StronglySorted lt (seq_no <$> stream)).
  { eapply StronglySorted_sublist; [by apply fmap_sublist_of |].
    apply emitted_sorted. }
  split; [done |]. split; [|done].
  apply StronglySorted_Sorted.
  clear -Hlt. induction Hlt as [|x l Hl IH Hx]; constructor; [done |].
  eapply Forall_impl; [done |]. cbn. lia.
Qed.

End EventHubFacts.

(** * Evaluations on concrete inputs *)

Example escapeHtml_markup :
  escapeHtml (Some (lit "<b>a&b</b>")) = lit "&lt;b&gt;a&amp;b&lt;/b&gt;".
Proof. reflexivity. Qed.

Example unescapeHtml_markup :
  unescapeHtml (lit "&lt;b&gt;a&amp;b&lt;/b&gt;") = lit "<b>a&b</b>".
Proof. reflexivity. Qed.

Example escapeHtml_undefined : escapeHtml None = [].
Proof. reflexivity. Qed.

Example trim_spaces : trim (lit "  a b ") = lit "a b".
Proof. reflexivity. Qed.

Example getLatencyClass_undefined : getLatencyClass None = lit "slow".
Proof. reflexivity. Qed.

Example slice_last_short : slice_last 10 [1; 2; 3] = [1; 2; 3].
Proof. reflexivity. Qed.

Example slice_last_long : slice_last 2 [1; 2; 3] = [2; 3].
Proof. reflexivity. Qed.

Example limit_children_drops_oldest :
  Renderer.limit_children 1
    [Renderer.mkElement [] (lit "a") []; Renderer.mkElement [] (lit "b") []]
  = [Renderer.mkElement [] (lit "b") []].
Proof. reflexivity. Qed.

Example hub_drops_interim_first :
  EventHub.queue
    (EventHub.enqueue 2 (EventHub.mkEvent 2 EventHub.Final [])
       (EventHub.mkSubscriber
          [EventHub.mkEvent 0 EventHub.Final [];
           EventHub.mkEvent 1 EventHub.Interim []] None 0))
  = [EventHub.mkEvent 0 EventHub.Final []; EventHub.mkEvent 2 EventHub.Final []].
Proof. reflexivity. Qed.

(** C1, counterexample: the renderer answers a message of the hint shape
    with the warning of the unknown-type branch and renders nothing. *)
Lemma renderer_has_no_hint_handler :
  let m := hint_msg (lit "O(n log n) on average")
             (lit "What is the time complexity of quicksort?") 0 850 in
  let s' := Renderer.handleMessage (platform := sample_platform)
              ten_o_clock m Renderer.initial in
  Renderer.console s'
    = [Renderer.mkWarning (lit "Unknown message type:") (lit "hint")]
  ∧ Renderer.responseContainer s' = []
  ∧ Renderer.transcriptContainer s' = [].
Proof. by vm_compute. Qed.

(** C2, at the default cap: with one call in flight a second trigger
    changes nothing. *)
Lemma in_flight_within_cap_witness :
  let s := HintRequester.run HintRequester.default_cap
             [HintRequester.Trigger quicksort_question] HintRequester.initial in
  HintRequester.in_flight s = HintRequester.default_cap
  ∧ HintRequester.step HintRequester.default_cap s
      (HintRequester.Trigger follow_up_question) = s.
Proof.
  split; [reflexivity |].
  apply (proj2 (proj2 (in_flight_within_cap HintRequester.default_cap
                         [HintRequester.Trigger quicksort_question]))
           follow_up_question).
  reflexivity.
Defined.

(** C5, counterexample: a final transcript with empty text neither removes
    the renderer's interim element nor appends a final one. *)
Lemma blank_final_keeps_interim :
  let s' := Renderer.handleMessage (platform := sample_platform)
              ten_o_clock (transcript_msg [] true 1 0) sample_renderer in
  Renderer.interim_elements s'
    = [interim_card (lit "hello")]
  ∧ Renderer.final_elements s' = [].
Proof. by vm_compute. Qed.

Lemma at_most_one_interim_witness :
  let m := transcript_msg (lit "hello") false 1 0 in
  let b := transcript_msg [] true 1 0 in
  (accepted_text m = Some (lit "hello")
   ∧ Renderer.interim_elements
       (Renderer.handleMessage (platform := sample_platform)
          ten_o_clock m
          (Renderer.handleMessages (platform := sample_platform) []
             Renderer.initial))
     = [interim_card (lit "hello")])
  ∧ (type m = lit "transcript"
     ∧ Prompter.interimText
         (Prompter.handleMessage m (Prompter.initial false))
       = Some (lit "hello"))
  ∧ (type b = lit "transcript" ∧ blank (text (data b))
     ∧ Renderer.handleMessage (platform := sample_platform)
         ten_o_clock b sample_renderer = sample_renderer).
Proof.
  destruct (at_most_one_interim (platform := sample_platform))
    as (_ & Hp & _ & Hr & Hb).
  split; [|split].
  - split; [reflexivity |].
    apply (Hr [] ten_o_clock (transcript_msg (lit "hello") false 1 0)
             (lit "hello") eq_refl).
  - split; [reflexivity |].
    apply (Hp (Prompter.initial false)
             (transcript_msg (lit "hello") false 1 0) eq_refl).
  - assert (Hblank : blank (text (data (transcript_msg [] true 1 0))))
      by constructor.
    split; [reflexivity |]. split; [exact Hblank |].
    exact (Hb ten_o_clock (transcript_msg [] true 1 0) sample_renderer
             eq_refl Hblank).
Defined.

Lemma clear_empties_display_and_notifies_witness :
  Renderer.ws (Renderer.clear_click sample_renderer) =
    Some (mkWebSocket OPEN
            [[123; 34; 116; 121; 112; 101; 34; 58; 34; 99; 108; 101; 97; 114;
              95; 99; 111; 110; 116; 101; 120; 116; 34; 125]%N])
  ∧ Prompter.wsRef
      (Prompter.clearAll
         (PrompterPage.set_wsRef (Some (mkWebSocket CLOSING []))
            (Prompter.initial false)))
    = Some (mkWebSocket CLOSING []).
Proof.
  destruct (clear_empties_display_and_notifies (platform := sample_platform))
    as [Hr Hp].
  split.
  - exact (proj2 (proj2 (Hr sample_renderer))).
  - exact (proj2 (proj2 (proj2 (proj2 (proj2
             (Hp (PrompterPage.set_wsRef (Some (mkWebSocket CLOSING []))
                    (Prompter.initial false)))))))).
Defined.

Lemma getLatencyClass_thresholds_witness :
  getLatencyClass (Some 1500%Q) = lit "ok".
Proof.
  apply (proj1 (proj2 (getLatencyClass_thresholds 1500))).
  split; reflexivity || (by vm_compute).
Defined.

Lemma escapeHtml_keeps_text_literal_witness :
  let m := transcript_msg (lit "<i>") true 1 0 in
  let r := mkMessage (lit "response")
             (mkData (Some (lit "a&b")) false None None None
                (Some (lit "<ctx>")) (Some 850%Q) None None) in
  (escapeHtml (Some (lit "a&b")) !! 1 = Some amp
   ∧ reference_at (escapeHtml (Some (lit "a&b"))) 1)
  ∧ (final_card (platform := sample_platform) ten_o_clock (lit "<i>") (data m)
       ∈ Renderer.transcriptContainer
           (Renderer.handleMessage (platform := sample_platform)
              ten_o_clock m Renderer.initial)
     ∧ Renderer.innerHTML
         (final_card (platform := sample_platform) ten_o_clock (lit "<i>")
            (data m))
       = Renderer.final_html (platform := sample_platform)
           ten_o_clock (lit "<i>") (confidence (data m)))
  ∧ (response_card (platform := sample_platform) ten_o_clock (data r)
       ∈ Renderer.responseContainer
           (Renderer.handleMessage (platform := sample_platform)
              ten_o_clock r Renderer.initial)
     ∧ Renderer.innerHTML
         (response_card (platform := sample_platform) ten_o_clock (data r))
       = Renderer.response_html (platform := sample_platform)
           ten_o_clock (data r)).
Proof.
  destruct (escapeHtml_keeps_text_literal (platform := sample_platform))
    as (Hesc & _ & _ & _ & Ht & Hr).
  split; [|split].
  - split; [reflexivity |].
    destruct (Hesc (lit "a&b")) as (_ & _ & Href & _).
    apply Href. reflexivity.
  - assert (Hin : final_card (platform := sample_platform) ten_o_clock
                    (lit "<i>") (data (transcript_msg (lit "<i>") true 1 0))
                  ∈ Renderer.transcriptContainer
                      (Renderer.handleMessage (platform := sample_platform)
                         ten_o_clock (transcript_msg (lit "<i>") true 1 0)
                         Renderer.initial)).
    { vm_compute. apply list_elem_of_singleton. reflexivity. }
    split; [exact Hin |].
    destruct (Ht _ _ _ _ Hin) as [Hold | (t & Htext & [Hf | Hi])].
    + by apply elem_of_nil in Hold.
    + injection Htext as <-. exact Hf.
    + reflexivity.
  - set (r := mkMessage (lit "response")
                (mkData (Some (lit "a&b")) false None None None
                   (Some (lit "<ctx>")) (Some 850%Q) None None)).
    assert (Hin : response_card (platform := sample_platform) ten_o_clock (data r)
                  ∈ Renderer.responseContainer
                      (Renderer.handleMessage (platform := sample_platform)
                         ten_o_clock r Renderer.initial)).
    { vm_compute. apply list_elem_of_singleton. reflexivity. }
    split; [exact Hin |].
    destruct (Hr _ _ _ _ Hin) as [Hold | Hnew].
    + by apply elem_of_nil in Hold.
    + exact Hnew.
Defined.

(** C9, counterexample: after twenty final transcripts and one interim
    transcript the renderer's transcript container holds 21 elements. *)
Lemma twenty_one_transcript_elements :
  ¬ length (Renderer.transcriptContainer
              (Renderer.handleMessages (platform := sample_platform)
                 twenty_finals_one_interim Renderer.initial)) ≤ 20.
Proof. vm_compute. lia. Qed.

Lemma handleTranscript_blank_noop_witness :
  let d := data (transcript_msg (lit "   ") true 1 0) in
  blank (text d)
  ∧ Renderer.handleTranscript (platform := sample_platform)
      ten_o_clock d sample_renderer = sample_renderer.
Proof.
  assert (Hb : blank (text (data (transcript_msg (lit "   ") true 1 0)))).
  { vm_compute. repeat constructor. }
  split; [exact Hb |].
  exact (handleTranscript_blank_noop (platform := sample_platform)
           ten_o_clock _ sample_renderer Hb).
Defined.

(** * Further properties of the renderer *)

Section EscapeMore.

Lemma serialize_text_app (a b : jsstring) :
  serialize_text (a ++ b) = serialize_text a ++ serialize_text b.
Proof.
  induction a as [|c a IH]; [done |].
  cbn [app]. rewrite !serialize_text_cons, IH. by rewrite app_assoc.
Qed.

Lemma escape_unit_length (c : N) :
  (is_special c = false ∧ escape_unit c = [c])
  ∨ (is_special c = true ∧ 4 ≤ length (escape_unit c)).
Proof.
  unfold is_special.
  destruct (escape_unit_cases c)
    as [[-> E]|[[-> E]|[[-> E]|[[-> E]|(H1 & H2 & H3 & H4 & E)]]]].
  1-4: right; rewrite E; split; [reflexivity | cbn; lia].
  left. split; [|done].
  apply N.eqb_neq in H1, H2, H3, H4. by rewrite H1, H2, H3, H4.
Qed.

Lemma serialize_text_length (t : jsstring) :
  length t ≤ length (serialize_text t).
Proof.
  induction t as [|c t IH]; [done |].
  rewrite serialize_text_cons, length_app. cbn [length].
  destruct (escape_unit_length c) as [[_ ->]|[_ H]]; cbn [length]; lia.
Qed.

(** X1: [escapeHtml] maps a concatenation to the concatenation of the
    images, and it is injective: two different texts are never displayed
    by the same markup. *)
Theorem escapeHtml_app_injective :
  (∀ a b : jsstring,
      escapeHtml (Some (a ++ b)) = escapeHtml (Some a) ++ escapeHtml (Some b))
  ∧ (∀ a b : jsstring,
      escapeHtml (Some a) = escapeHtml (Some b) → a = b).
Proof.
  split.
  - intros a b. apply serialize_text_app.
  - intros a b E. rewrite <- (unescape_escape a), <- (unescape_escape b).
    by rewrite E.
Qed.

(** X2: [escapeHtml] returns a text unchanged exactly when the text has
    none of the characters '&', '<', '>' and U+00A0; otherwise the result
    is longer than the text. *)
Theorem escapeHtml_plain_text (t : jsstring) :
  (escapeHtml (Some t) = t ↔ Forall (λ c, is_special c = false) t)
  ∧ length t ≤ length (escapeHtml (Some t)).
Proof.
  split; [|apply serialize_text_length].
  unfold escapeHtml. cbn [set_textContent]. induction t as [|c t IH].
  { split; [constructor | done]. }
  rewrite serialize_text_cons.
  destruct (escape_unit_length c) as [[Hc ->]|[Hc Hlen]].
  - cbn [app]. split.
    + intros [= E]. constructor; [done | by apply IH].
    + intros [_ Ht]%Forall_cons. f_equal. by apply IH.
  - split.
    + intros E. apply (f_equal length) in E.
      rewrite length_app in E. cbn [length] in E.
      pose proof (serialize_text_length t). lia.
    + intros [Hc' _]%Forall_cons. congruence.
Qed.

End EscapeMore.

Section IndicatorFacts.
Context {platform : Platform}.
Import Renderer.

Lemma last_of_type_snoc (ty : jsstring) (ms : list (Date * Message))
    (now : Date) (m : Message) :
  last_of_type ty (ms ++ [(now, m)]) =
    if bool_decide (type m = ty) then Some (data m) else last_of_type ty ms.
Proof.
  unfold last_of_type. rewrite fmap_app, filter_app. cbn [fmap list_fmap snd].
  case_bool_decide.
  - rewrite filter_cons_True by done. rewrite filter_nil, fmap_app.
    apply last_snoc.
  - rewrite filter_cons_False by done. by rewrite filter_nil, app_nil_r.
Qed.

Lemma handleTranscript_indicators (now : Date) (d : Data) (s : State) :
  latencyIndicator (handleTranscript now d s) = latencyIndicator s
  ∧ statusIndicator (handleTranscript now d s) = statusIndicator s
  ∧ statusText (handleTranscript now d s) = statusText s
  ∧ console (handleTranscript now d s) = console s.
Proof. unfold handleTranscript. repeat (case_match; try done). Qed.

Lemma types_distinct :
  lit "transcript" ≠ lit "response" ∧ lit "transcript" ≠ lit "status"
  ∧ lit "response" ≠ lit "status".
Proof. repeat split; by vm_compute. Qed.

(** X3: after any list of messages the latency indicator shows the
    latency of the most recent response message, with the class
    [getLatencyClass] gives it; without a response it is as it was. *)
Theorem latency_indicator_shows_last_response
    (ms : list (Date * Message)) (s : State) :
  latencyIndicator (handleMessages ms s) =
    match last_of_type (lit "response") ms with
    | Some d => latency_display d
    | None => latencyIndicator s
    end.
Proof.
  destruct types_distinct as (Htr & Hts & Hrs).
  induction ms as [|[now m] ms IH] using rev_ind; [done |].
  rewrite handleMessages_snoc, last_of_type_snoc.
  unfold handleMessage. case_bool_decide as H1.
  - rewrite bool_decide_eq_false_2 by congruence.
    by rewrite (proj1 (handleTranscript_indicators _ _ _)).
  - case_bool_decide as H2; [done |].
    by case_bool_decide.
Qed.

(** X4: after any list of messages the status dot and the status text are
    those of the most recent status message: the class names its status,
    and the text is its message, or the status where the message is
    absent or empty; without a status message both are as they were. *)
Theorem status_line_shows_last_status
    (ms : list (Date * Message)) (s : State) :
  (statusIndicator (handleMessages ms s), statusText (handleMessages ms s)) =
    match last_of_type (lit "status") ms with
    | Some d => status_display d
    | None => (statusIndicator s, statusText s)
    end.
Proof.
  destruct types_distinct as (Htr & Hts & Hrs).
  induction ms as [|[now m] ms IH] using rev_ind; [done |].
  rewrite handleMessages_snoc, last_of_type_snoc.
  unfold handleMessage. case_bool_decide as H1.
  - rewrite bool_decide_eq_false_2 by congruence.
    destruct (handleTranscript_indicators now (data m) (handleMessages ms s))
      as (_ & -> & -> & _). done.
  - case_bool_decide as H2.
    + rewrite bool_decide_eq_false_2 by congruence. done.
    + by case_bool_decide.
Qed.

(** X5: the warnings on the console are exactly the messages of a type
    other than "transcript", "response" and "status", one warning each,
    in arrival order. *)
Theorem console_lists_unknown_types (ms : list (Date * Message)) (s : State) :
  console (handleMessages ms s) = console s ++ unknown_warnings ms.
Proof.
  induction ms as [|[now m] ms IH] using rev_ind.
  { by rewrite app_nil_r. }
  rewrite handleMessages_snoc. unfold unknown_warnings in *.
  rewrite fmap_app, filter_app, fmap_app. cbn [fmap list_fmap snd].
  unfold handleMessage, is_known.
  case_bool_decide as H1.
  { rewrite filter_cons_False by (by rewrite bool_decide_eq_true_2).
    rewrite filter_nil, app_nil_r.
    by rewrite (proj2 (proj2 (proj2 (handleTranscript_indicators _ _ _)))). }
  case_bool_decide as H2.
  { rewrite filter_cons_False
      by (rewrite (bool_decide_eq_true_2 (_ = lit "response")) by done;
          rewrite orb_true_r; done).
    by rewrite filter_nil, app_nil_r. }
  case_bool_decide as H3.
  { rewrite filter_cons_False
      by (rewrite (bool_decide_eq_true_2 (_ = lit "status")) by done;
          rewrite orb_true_r; done).
    by rewrite filter_nil, app_nil_r. }
  rewrite filter_cons_True
    by (by rewrite !bool_decide_eq_false_2).
  rewrite filter_nil. cbn [console console_warn fmap list_fmap].
  by rewrite IH, app_assoc.
Qed.

End IndicatorFacts.

(** ** The renderer process: sockets and timers *)

Section PageFacts.
Context {platform : Platform}.
Import Page.

Lemma page_run_snoc (es : list Event) (e : Event) (s : State) :
  run (es ++ [e]) s = step (run es s) e.
Proof. unfold run. by rewrite foldl_app. Qed.

Lemma page_run_app (es1 es2 : list Event) (s : State) :
  run (es1 ++ es2) s = run es2 (run es1 s).
Proof. unfold run. by rewrite foldl_app. Qed.

Lemma timers_tracked_boot : timers_tracked boot.
Proof. repeat split; cbn; try done; unfold heartbeat_id; lia. Qed.

Lemma timers_tracked_step (s : State) (e : Event) :
  timers_tracked s → timers_tracked (step s e).
Proof.
  intros (Ht & Hn & Hid).
  destruct e as [r|now parsed|r|r|r|id|]; cbn [step].
  - destruct (socket_at r s) as [w|]; [|done].
    case_bool_decide; [|done].
    assert (Hs : timers_tracked (set_readyState r OPEN s)).
    { by destruct r. }
    destruct Hs as (Ht' & Hn' & Hid'). unfold onopen.
    set (s1 := set_readyState r OPEN s) in *.
    change (reconnectInterval (updateStatus _ _ (console_line _ _ s1)))
      with (reconnectInterval s1).
    destruct (reconnectInterval s1) as [id|] eqn:Hr.
    + split; [|split]; [|done|done].
      cbn. rewrite Ht'. cbn. specialize (Hid' id eq_refl).
      rewrite decide_True by lia. by rewrite decide_False by auto.
    + split; [|split]; [|done|].
      * cbn. by rewrite Hr.
      * intros id0 E. cbn in E. congruence.
  - destruct parsed as [m|]; done.
  - destruct (socket_at r s) as [w|]; [|done]. by case_bool_decide.
  - destruct (socket_at r s) as [w|]; [|done].
    case_bool_decide; [done |].
    assert (Hs : timers_tracked (set_readyState r CLOSED s)).
    { by destruct r. }
    destruct Hs as (Ht' & Hn' & Hid'). unfold onclose.
    set (s1 := set_readyState r CLOSED s) in *.
    change (reconnectInterval (updateStatus _ _ (console_line _ _ s1)))
      with (reconnectInterval s1).
    destruct (reconnectInterval s1) as [id|] eqn:Hr.
    + split; [|split]; [|done|].
      * cbn. by rewrite Hr.
      * intros id0 E. cbn in E. apply Hid'. congruence.
    + split; [|split].
      * cbn. by rewrite Ht'.
      * cbn. lia.
      * intros id0 [= <-]. cbn. lia.
  - destruct (socket_at r s) as [w|]; [|done].
    case_bool_decide; [|done]. by destruct r.
  - destruct (list_find _ _) as [[? [? []]]|]; done.
  - done.
Qed.

Lemma timers_tracked_run (es : list Event) (s : State) :
  timers_tracked s → timers_tracked (run es s).
Proof.
  revert s. induction es as [|e es IH]; intros s Hs; [done |].
  apply IH. by apply timers_tracked_step.
Qed.

(** X6: in every run of the renderer process the running timers are the
    heartbeat, which is never cleared, and at most one reconnect timer,
    which is the one the variable [reconnectInterval] holds: no reconnect
    timer is ever started twice or left running without a reference. *)
Theorem reconnect_timer_is_tracked (es : list Event) :
  let s := run es boot in
  timers s =
    (heartbeat_id, Heartbeat)
    :: ((λ id, (id, Reconnect)) <$> option_list (reconnectInterval s))
  ∧ heartbeat_timers s = [heartbeat_id]
  ∧ reconnect_timers s = option_list (reconnectInterval s)
  ∧ length (reconnect_timers s) ≤ 1.
Proof.
  intros s.
  destruct (timers_tracked_run es boot timers_tracked_boot) as (Ht & _ & _).
  fold s in Ht. split; [done |].
  unfold heartbeat_timers, reconnect_timers. rewrite Ht.
  destruct (reconnectInterval s); cbn; repeat (case_decide; try done);
    cbn; repeat split; done || lia.
Qed.

(** X7: when a socket that is CONNECTING opens, whichever socket it is,
    the status line says "Connected" and the reconnect timer is cleared,
    so that from then on only the heartbeat timer fires. *)
Theorem open_stops_reconnecting (es : list Event) (r : SocketRef) (w : WebSocket) :
  let s := run es boot in
  socket_at r s = Some w → readyState w = CONNECTING →
  let s' := step s (Opened r) in
  Renderer.statusText (dom s') = lit "Connected"
  ∧ Renderer.statusIndicator (dom s') = lit "status-dot connected"
  ∧ reconnectInterval s' = None
  ∧ timers s' = [(heartbeat_id, Heartbeat)]
  ∧ ∀ id, id ≠ heartbeat_id → step s' (IntervalFired id) = s'.
Proof.
  intros s Hw Hc s'.
  assert (Hs' : timers_tracked s').
  { apply timers_tracked_step, timers_tracked_run, timers_tracked_boot. }
  assert (Hnone : reconnectInterval s' = None
                  ∧ Renderer.statusText (dom s') = lit "Connected"
                  ∧ Renderer.statusIndicator (dom s') = lit "status-dot connected").
  { subst s'. cbn [step]. rewrite Hw, bool_decide_eq_true_2 by done.
    unfold onopen. cbn [updateStatus console_line set_dom reconnectInterval].
    destruct (reconnectInterval (set_readyState r OPEN s)) eqn:E; cbn.
    - done.
    - by rewrite E. }
  destruct Hnone as (Hnone & Htxt & Hind). clearbody s'.
  destruct Hs' as (Ht & _ & _). rewrite Hnone in Ht. cbn in Ht.
  repeat split; try done.
  intros id Hid. cbn [step]. rewrite Ht. cbn.
  rewrite decide_False by (cbn; auto). done.
Qed.

Lemma handleMessage_transcripts_dep (now : Date) (m : Message)
    (s s' : Renderer.State) :
  Renderer.transcriptContainer s = Renderer.transcriptContainer s' →
  Renderer.transcriptContainer (Renderer.handleMessage now m s)
  = Renderer.transcriptContainer (Renderer.handleMessage now m s').
Proof.
  intros H. unfold Renderer.handleMessage.
  repeat case_bool_decide; try done.
  unfold Renderer.handleTranscript.
  destruct (text (data m)) as [t|]; [|done].
  destruct (negb _ || negb _); [done |]. rewrite H.
  destruct (is_final (data m));
    destruct (Renderer.getElementById _ _) as [[i el]|]; done.
Qed.

Lemma handleMessage_responses_dep (now : Date) (m : Message)
    (s s' : Renderer.State) :
  Renderer.responseContainer s = Renderer.responseContainer s' →
  Renderer.responseContainer (Renderer.handleMessage now m s)
  = Renderer.responseContainer (Renderer.handleMessage now m s').
Proof.
  intros H. unfold Renderer.handleMessage.
  repeat case_bool_decide; try done.
  - by rewrite !handleTranscript_responses.
  - unfold Renderer.handleResponse. cbn. by rewrite H.
Qed.

Lemma since_clear_snoc (es : list Event) (e : Event) :
  since_clear (es ++ [e]) =
    match e with
    | Received now (Some m) => since_clear es ++ [(now, m)]
    | ClearClicked => []
    | _ => since_clear es
    end.
Proof. unfold since_clear. by rewrite foldl_app. Qed.

Lemma step_keeps_display (s : State) (e : Event) :
  match e with
  | Received _ (Some _) | ClearClicked => True
  | _ =>
      Renderer.transcriptContainer (dom (step s e))
        = Renderer.transcriptContainer (dom s)
      ∧ Renderer.responseContainer (dom (step s e))
        = Renderer.responseContainer (dom s)
      ∧ Renderer.latencyIndicator (dom (step s e))
        = Renderer.latencyIndicator (dom s)
  end.
Proof.
  destruct e as [r|now [m|]|r|r|r|id|]; cbn [step]; try done.
  - destruct (socket_at r s); [|done]. case_bool_decide; [|done].
    unfold onopen. cbn [updateStatus console_line set_dom reconnectInterval].
    destruct r; destruct (reconnectInterval _); done.
  - destruct (socket_at r s); [|done]. by case_bool_decide.
  - destruct (socket_at r s); [|done]. case_bool_decide; [done |].
    unfold onclose. cbn [updateStatus console_line set_dom reconnectInterval].
    destruct r; destruct (reconnectInterval _); done.
  - destruct (socket_at r s); [|done]. case_bool_decide; [|done].
    by destruct r.
  - destruct (list_find _ _) as [[? [? []]]|]; done.
Qed.

(** X8: whatever happens to the connection, what the page displays is
    what a fresh page would display for the messages parsed since the
    last click on the clear button: socket events, failed parses, timers
    and reconnects never touch the transcripts or the responses, and the
    bounds of the display hold in every run. *)
Theorem display_is_messages_since_clear (es : list Event) :
  let s := dom (run es boot) in
  let fresh := Renderer.handleMessages (since_clear es) Renderer.initial in
  Renderer.transcriptContainer s = Renderer.transcriptContainer fresh
  ∧ Renderer.responseContainer s = Renderer.responseContainer fresh
  ∧ length (Renderer.final_elements s) ≤ 20
  ∧ length (Renderer.interim_elements s) ≤ 1
  ∧ length (Renderer.responseContainer s) ≤ 10.
Proof.
  intros s fresh.
  assert (H : Renderer.transcriptContainer s = Renderer.transcriptContainer fresh
              ∧ Renderer.responseContainer s = Renderer.responseContainer fresh).
  { subst s fresh. induction es as [|e es IH] using rev_ind; [done |].
    rewrite page_run_snoc, since_clear_snoc.
    pose proof (step_keeps_display (run es boot) e) as Hk.
    destruct e as [r|now [m|]|r|r|r|id|];
      try (destruct Hk as (-> & -> & _); exact IH).
    - cbn [step onmessage set_dom dom]. rewrite handleMessages_snoc.
      destruct IH as [IH1 IH2]. split.
      + by apply handleMessage_transcripts_dep.
      + by apply handleMessage_responses_dep.
    - done. }
  destruct H as [H1 H2]. split; [done |]. split; [done |].
  unfold Renderer.final_elements, Renderer.interim_elements.
  rewrite H1, H2. subst fresh.
  fold (Renderer.final_elements
          (Renderer.handleMessages (since_clear es) Renderer.initial)).
  fold (Renderer.interim_elements
          (Renderer.handleMessages (since_clear es) Renderer.initial)).
  rewrite final_elements_history, interim_elements_history,
    responseContainer_history, !slice_last_length.
  pose proof (option_list_length (pending_interim (since_clear es))).
  unfold Renderer.maxTranscripts, Renderer.maxResponses. repeat split; lia.
Qed.

Lemma step_earlier_sent (s : State) (e : Event) (i : nat) (w : WebSocket) :
  earlier s !! i = Some w →
  ∃ w', earlier (step s e) !! i = Some w' ∧ sent w' = sent w.
Proof.
  intros Hi.
  assert (Hset : ∀ r rs, ∃ w',
            earlier (set_readyState r rs s) !! i = Some w' ∧ sent w' = sent w).
  { intros [|j] rs; cbn; [by exists w |].
    destruct (decide (j = i)) as [->|Hne].
    - rewrite list_lookup_alter_eq, Hi. cbn. by eexists.
    - rewrite list_lookup_alter_ne by done. by exists w. }
  destruct e as [r|now [m|]|r|r|r|id|]; cbn [step]; try (by exists w).
  - destruct (socket_at r s); [|by exists w].
    case_bool_decide; [|by exists w].
    unfold onopen. change (reconnectInterval (updateStatus _ _ (console_line _ _ ?x)))
      with (reconnectInterval x).
    destruct (reconnectInterval _); apply Hset.
  - destruct (socket_at r s); [|by exists w]. case_bool_decide; by exists w.
  - destruct (socket_at r s); [|by exists w].
    case_bool_decide; [by exists w |].
    unfold onclose. change (reconnectInterval (updateStatus _ _ (console_line _ _ ?x)))
      with (reconnectInterval x).
    destruct (reconnectInterval _); apply Hset.
  - destruct (socket_at r s); [|by exists w].
    case_bool_decide; [apply Hset | by exists w].
  - destruct (list_find _ _) as [[? [? []]]|]; try (by exists w).
    cbn. exists w. split; [|done].
    by apply lookup_app_l_Some.
Qed.

(** X9: once the variable [ws] has moved on to a newer socket, nothing is
    ever sent on the older one again: in every run the frames sent on a
    socket that is no longer current stay what they were. *)
Theorem earlier_sockets_never_send (s : State) (es : list Event)
    (i : nat) (w : WebSocket) :
  earlier s !! i = Some w →
  ∃ w', earlier (run es s) !! i = Some w' ∧ sent w' = sent w.
Proof.
  revert s w. induction es as [|e es IH]; intros s w Hi; [by exists w |].
  destruct (step_earlier_sent s e i w Hi) as (w1 & H1 & E1).
  destruct (IH _ _ H1) as (w2 & H2 & E2).
  exists w2. split; [done | congruence].
Qed.

Lemma is_open_send_if_open (f : jsstring) (w : option WebSocket) :
  is_open (send_if_open f w) = is_open w.
Proof.
  unfold send_if_open. destruct (is_open w) eqn:E; [|done].
  by destruct w.
Qed.

Lemma heartbeat_fires (s : State) :
  timers_tracked s →
  step s (IntervalFired heartbeat_id) = set_dom (Renderer.heartbeat (dom s)) s.
Proof. intros (Ht & _ & _). cbn [step]. by rewrite Ht. Qed.

Lemma clear_context_frame_text :
  clear_context_frame =
    [123; 34; 116; 121; 112; 101; 34; 58; 34; 99; 108; 101; 97; 114; 95; 99;
     111; 110; 116; 101; 120; 116; 34; 125]%N.
Proof. reflexivity. Qed.

Lemma ping_frame_text :
  ping_frame =
    [123; 34; 116; 121; 112; 101; 34; 58; 34; 112; 105; 110; 103; 34; 125]%N.
Proof. reflexivity. Qed.

Lemma send_if_open_socket (f : jsstring) (w : WebSocket) :
  send_if_open f (Some w) =
    Some (mkWebSocket (readyState w)
            (sent w ++ match readyState w with OPEN => [f] | _ => [] end)).
Proof. destruct w as [[] l]; cbn; by rewrite ?app_nil_r. Qed.

Lemma local_step (s : State) (e : Event) :
  timers_tracked s → is_local e = true →
  Renderer.ws (dom (step s e)) =
    match e with
    | ClearClicked => send_if_open clear_context_frame (Renderer.ws (dom s))
    | IntervalFired _ => send_if_open ping_frame (Renderer.ws (dom s))
    | _ => Renderer.ws (dom s)
    end.
Proof.
  intros Hs. destruct e as [r|now [m|]|r|r|r|id|]; cbn [is_local]; try done.
  - intros _. cbn. apply handleMessage_ws.
  - intros ->%bool_decide_eq_true. by rewrite heartbeat_fires.
Qed.

(** X10: while only messages, clicks on the clear button and heartbeats
    occur (no socket opens, fails or closes, and no closing handshake
    starts), the variable [ws] keeps its socket and the socket its ready
    state.  If it is OPEN, the frames sent on it are one
    {"type":"clear_context"} per click and one {"type":"ping"} per
    heartbeat, in the order of the events; in any other ready state
    nothing is sent.  The two texts are written code unit by code unit. *)
Theorem frames_follow_clicks_and_heartbeats
    (pre es : list Event) (w : WebSocket) :
  Forall (λ e, is_local e = true) es →
  let s := run pre boot in
  Renderer.ws (dom s) = Some w →
  Renderer.ws (dom (run es s)) =
    Some (mkWebSocket (readyState w)
            (sent w ++
               match readyState w with
               | OPEN =>
                   omap (λ e,
                           match e with
                           | ClearClicked =>
                               Some [123; 34; 116; 121; 112; 101; 34; 58; 34;
                                     99; 108; 101; 97; 114; 95; 99; 111; 110;
                                     116; 101; 120; 116; 34; 125]%N
                           | IntervalFired _ =>
                               Some [123; 34; 116; 121; 112; 101; 34; 58; 34;
                                     112; 105; 110; 103; 34; 125]%N
                           | _ => None
                           end) es
               | _ => []
               end)).
Proof.
  intros Hes s.
  assert (Hs : timers_tracked s)
    by apply timers_tracked_run, timers_tracked_boot.
  clearbody s. revert s w Hs.
  induction Hes as [|e es He Hes IH]; intros s w Hs Hw.
  { cbn. rewrite Hw. destruct w as [[] l]; cbn; by rewrite app_nil_r. }
  change (run (e :: es) s) with (run es (step s e)).
  pose proof (local_step s e Hs He) as Hstep. rewrite Hw in Hstep.
  rewrite <- clear_context_frame_text, <- ping_frame_text in IH |- *.
  destruct e as [r|now [m|]|r|r|r|id|]; try done;
    try (rewrite (IH _ w (timers_tracked_step _ _ Hs) Hstep); done).
  - rewrite send_if_open_socket in Hstep.
    rewrite (IH _ _ (timers_tracked_step _ _ Hs) Hstep). cbn.
    destruct (readyState w); by rewrite <- ?app_assoc.
  - rewrite send_if_open_socket in Hstep.
    rewrite (IH _ _ (timers_tracked_step _ _ Hs) Hstep). cbn.
    destruct (readyState w); by rewrite <- ?app_assoc.
Qed.

Lemma reconnect_fires (s : State) (id : nat) :
  timers_tracked s → reconnectInterval s = Some id →
  step s (IntervalFired id) = reconnect_attempt s.
Proof.
  intros (Ht & _ & Hid) Hr. specialize (Hid id Hr).
  cbn [step]. rewrite Ht, Hr. cbn.
  rewrite decide_False by (cbn; lia). cbn.
  by rewrite decide_True.
Qed.

(** X11: while the reconnect timer runs, each of its firings makes a new
    CONNECTING socket the current one and leaves the socket before it as
    it is, without closing it; after n+1 firings the earlier sockets are
    those from before, the socket that was current, and n sockets that
    are still CONNECTING, and the timer keeps running. *)
Theorem reconnect_attempts_accumulate (pre : list Event) (id n : nat) :
  let s := run pre boot in
  reconnectInterval s = Some id →
  let s' := run (replicate (S n) (IntervalFired id)) s in
  earlier s' =
    earlier s ++ option_list (Renderer.ws (dom s)) ++ replicate n fresh_socket
  ∧ Renderer.ws (dom s') = Some fresh_socket
  ∧ reconnectInterval s' = Some id
  ∧ timers s' = timers s.
Proof.
  intros s Hr.
  assert (Hs : timers_tracked s)
    by apply timers_tracked_run, timers_tracked_boot.
  clearbody s. induction n as [|n IH].
  - cbn [replicate run foldl]. rewrite reconnect_fires by done.
    cbn. by rewrite app_nil_r.
  - intros s'. subst s'.
    rewrite (replicate_S_end (S n)).
    rewrite page_run_snoc.
    destruct IH as (He & Hw & Hr' & Ht).
    set (s1 := run (replicate (S n) (IntervalFired id)) s) in *.
    assert (Hs1 : timers_tracked s1) by by apply timers_tracked_run.
    clearbody s1. rewrite reconnect_fires by done.
    unfold reconnect_attempt, connectWebSocket, console_line.
    cbn [earlier dom reconnectInterval timers Renderer.ws Renderer.set_ws].
    rewrite He, Hw. cbn [option_list]. split; [|done].
    rewrite <- !app_assoc. do 2 f_equal.
    symmetry. apply replicate_S_end.
Qed.

End PageFacts.

(** ** The heartbeat on the clock *)

Section ClockFacts.
Context {platform : Platform}.
Import Page Clock.

Local Arguments next_due : simpl never.

Lemma next_due_cons (id i : nat) (v : N) (d : list (nat * N)) :
  next_due id ((i, v) :: d) = if decide (i = id) then Some v else next_due id d.
Proof.
  unfold next_due. cbn. case_decide; [done |].
  by destruct (list_find _ d) as [[? [? ?]]|].
Qed.

Lemma next_due_bound (P : N → Prop) (d : list (nat * N)) (id : nat) (v : N) :
  Forall (λ x, P x.2) d → next_due id d = Some v → P v.
Proof.
  induction 1 as [|[i u] d Hu Hd IH]; [done |].
  rewrite next_due_cons. case_decide; [by intros [= <-] | done].
Qed.

Lemma step_new_frames (p : Page.State) (e : Page.Event) :
  timers_tracked p →
  Renderer.new_frames (dom p) (dom (Page.step p e)) =
    match e with
    | ClearClicked =>
        if is_open (Renderer.ws (dom p)) then [clear_context_frame] else []
    | IntervalFired id =>
        if bool_decide (id = heartbeat_id)
        then if is_open (Renderer.ws (dom p)) then [ping_frame] else []
        else []
    | _ => []
    end.
Proof.
  intros Hp.
  assert (Hsame : ∀ p', Renderer.ws (dom p') = Renderer.ws (dom p) →
                        Renderer.new_frames (dom p) (dom p') = []).
  { intros p' E. unfold Renderer.new_frames. rewrite E. apply drop_all. }
  assert (Hstate : ∀ r rs,
             Renderer.new_frames (dom p) (dom (set_readyState r rs p)) = []).
  { intros [|i] rs; unfold Renderer.new_frames; cbn; [|apply drop_all].
    destruct (Renderer.ws (dom p)); cbn; [apply drop_all | done]. }
  destruct e as [r|now [m|]|r|r|r|id|];
    [cbn [Page.step]..| |cbn [Page.step]].
  - destruct (socket_at r p); [|by apply Hsame].
    case_bool_decide; [|by apply Hsame].
    rewrite <- (Hstate r OPEN). unfold Renderer.new_frames, onopen.
    change (reconnectInterval (updateStatus _ _ (console_line _ _ ?x)))
      with (reconnectInterval x).
    by destruct (reconnectInterval _).
  - unfold Renderer.new_frames. cbn. rewrite handleMessage_ws. apply drop_all.
  - by apply Hsame.
  - destruct (socket_at r p); [|by apply Hsame]. case_bool_decide; by apply Hsame.
  - destruct (socket_at r p); [|by apply Hsame].
    case_bool_decide; [by apply Hsame |].
    rewrite <- (Hstate r CLOSED). unfold Renderer.new_frames, onclose.
    change (reconnectInterval (updateStatus _ _ (console_line _ _ ?x)))
      with (reconnectInterval x).
    by destruct (reconnectInterval _).
  - destruct (socket_at r p); [|by apply Hsame].
    case_bool_decide; [apply Hstate | by apply Hsame].
  - case_bool_decide as Hid.
    + subst id. rewrite heartbeat_fires by done.
      by apply new_frames_send_if_open.
    + cbn [Page.step].
      destruct (list_find _ _) as [[? [? []]]|] eqn:Hfind; try by apply Hsame.
      * unfold Renderer.new_frames. cbn. apply drop_nil.
      * exfalso. apply list_find_Some in Hfind as (Hl & Hx & _).
        destruct Hp as (Ht & _ & _). rewrite Ht in Hl. cbn in Hx.
        destruct n as [|n]; cbn in Hl; [congruence |].
        destruct (reconnectInterval p); [|done].
        destruct n; cbn in Hl; [congruence | done].
  - by apply new_frames_send_if_open.
Qed.

Lemma schedule_shape (t : N) (P : N → Prop) (p : Page.State)
    (hb : N) (rest : list (nat * N)) :
  timers_tracked p →
  Forall (λ x, P x.2) rest → P hb → P (t + 3000)%N →
  ∃ rest',
    schedule t (timers p) ((heartbeat_id, hb) :: rest)
      = (heartbeat_id, hb) :: rest'
    ∧ rest'.*1 = option_list (reconnectInterval p)
    ∧ Forall (λ x, P x.2) rest'.
Proof.
  intros (Ht & _ & Hid) Hrest Hhb Hnew. rewrite Ht. unfold schedule.
  cbn [fmap list_fmap fst snd]. rewrite next_due_cons, decide_True by done.
  eexists. split; [reflexivity |].
  destruct (reconnectInterval p) as [id|]; [|done]. cbn. split; [done |].
  repeat constructor. cbn.
  destruct (next_due id ((heartbeat_id, hb) :: rest)) as [v|] eqn:E;
    [|exact Hnew].
  cbn. apply (next_due_bound P _ _ _ (Forall_cons_2 _ (_, _) _ Hhb Hrest) E).
Qed.

Lemma schedule_same (t : N) (p : Page.State) (hb : N) (rest : list (nat * N)) :
  timers_tracked p →
  rest.*1 = option_list (reconnectInterval p) →
  schedule t (timers p) ((heartbeat_id, hb) :: rest) = (heartbeat_id, hb) :: rest.
Proof.
  intros (Ht & _ & Hid) Hrest. rewrite Ht. unfold schedule.
  cbn [fmap list_fmap fst snd]. rewrite next_due_cons, decide_True by done.
  cbn [default]. f_equal.
  destruct (reconnectInterval p) as [id|].
  - destruct rest as [|[id' r] [|? ?]]; try done. cbn in Hrest.
    injection Hrest as ->. cbn. specialize (Hid id eq_refl).
    rewrite !next_due_cons, decide_False by lia. by rewrite decide_True.
  - by destruct rest.
Qed.

Lemma boot_on_schedule : on_schedule boot.
Proof.
  split; [apply timers_tracked_boot |].
  exists 30000%N, []. by repeat split.
Qed.

Lemma handle_on_schedule (e : Page.Event) (s : Clock.State) :
  on_schedule s → on_schedule (handle e s).
Proof.
  intros (Hp & hb & rest & Hdue & Hids & Hrest & Hhb & Hmod).
  pose proof (timers_tracked_step _ e Hp) as Hp'.
  split; [exact Hp' |]. unfold handle. cbn [page now due].
  rewrite Hdue.
  destruct (schedule_shape (now s) (λ v, (now s < v)%N) _ hb rest Hp' Hrest)
    as (rest' & -> & Hids' & Hrest'); [lia | lia |].
  by exists hb, rest'.
Qed.

(** What one millisecond does. *)
Lemma tick_spec (s : Clock.State) :
  on_schedule s →
  on_schedule (tick s)
  ∧ now (tick s) = (now s + 1)%N
  ∧ reconnectInterval (page (tick s)) = reconnectInterval (page s)
  ∧ wire (tick s) =
      wire s ++
        (if ((now s + 1) `mod` 30000 =? 0)%N && is_open (Renderer.ws (dom (page s)))
         then [((now s + 1)%N, ping_frame)] else [])
  ∧ (reconnectInterval (page s) = None →
     page (tick s) =
       if ((now s + 1) `mod` 30000 =? 0)%N
       then set_dom (Renderer.heartbeat (dom (page s))) (page s)
       else page s).
Proof.
  intros (Hp & hb & rest & Hdue & Hids & Hrest & Hhb & Hmod).
  unfold Renderer.heartbeat_period_ms in Hhb, Hmod.
  pose proof Hp as (Ht & _ & Hid).
  assert (Hbeat : ((now s + 1) `mod` 30000 =? 0)%N = bool_decide (hb = (now s + 1)%N)).
  { destruct (N.eqb_spec ((now s + 1) `mod` 30000) 0) as [E|E];
      [rewrite bool_decide_eq_true_2 | rewrite bool_decide_eq_false_2]; try done;
      zify; Z.to_euclidean_division_equations; lia. }
  rewrite Hbeat. unfold tick. rewrite Ht. cbn [foldl].
  (* the heartbeat *)
  set (s0 := Clock.mkState (page s) (now s + 1) (due s) (wire s)).
  assert (H1 : ∃ hb1,
            (now s + 1 < hb1 ≤ now s + 1 + 30000)%N ∧ (hb1 `mod` 30000 = 0)%N
            ∧ fire (heartbeat_id, Heartbeat) s0 =
                Clock.mkState
                  (if bool_decide (hb = (now s + 1)%N)
                   then set_dom (Renderer.heartbeat (dom (page s))) (page s)
                   else page s)
                  (now s + 1) ((heartbeat_id, hb1) :: rest)
                  (wire s ++
                     (if bool_decide (hb = (now s + 1)%N)
                         && is_open (Renderer.ws (dom (page s)))
                      then [((now s + 1)%N, ping_frame)] else []))).
  { unfold fire. cbn [fst snd due now s0]. rewrite Hdue, next_due_cons.
    rewrite decide_True by done.
    destruct (decide (hb = (now s + 1)%N)) as [Hnow|Hnow].
    - exists (hb + 30000)%N.
      split; [lia |]. split; [zify; Z.to_euclidean_division_equations; lia |].
      rewrite (bool_decide_eq_true_2 (hb = _)) by done.
      rewrite (bool_decide_eq_true_2 (Some hb = _)) by congruence.
      unfold handle. cbn [page now due wire s0].
      rewrite step_new_frames by done.
      rewrite bool_decide_eq_true_2 by done.
      rewrite heartbeat_fires by done. rewrite Hdue.
      rewrite schedule_same; [|done | done].
      cbn [fmap list_fmap fst timers set_dom].
      rewrite bool_decide_eq_true_2 by done. f_equal.
      + f_equal; [by rewrite Hnow |].
        clear -Hids Hid. destruct (reconnectInterval (page s)) as [id|].
        * destruct rest as [|[id' r] [|? ?]]; try done. cbn in Hids.
          injection Hids as ->. cbn. specialize (Hid id eq_refl).
          by rewrite bool_decide_eq_false_2 by lia.
        * by destruct rest.
      + f_equal. cbn [andb]. by destruct (is_open _).
    - exists hb. split; [lia |]. split; [done |].
      rewrite (bool_decide_eq_false_2 (hb = _)) by done.
      rewrite (bool_decide_eq_false_2 (Some hb = _)) by congruence.
      cbn [andb]. rewrite app_nil_r. subst s0. by rewrite Hdue. }
  destruct H1 as (hb1 & Hhb1 & Hmod1 & ->).
  set (p1 := if bool_decide (hb = (now s + 1)%N)
             then set_dom (Renderer.heartbeat (dom (page s))) (page s)
             else page s).
  assert (Hp1 : timers_tracked p1 ∧ reconnectInterval p1 = reconnectInterval (page s)).
  { subst p1. by case_bool_decide. }
  destruct Hp1 as [Hp1 Hr1].
  (* the reconnect timer, if it runs *)
  destruct (reconnectInterval (page s)) as [id|] eqn:Hr.
  - destruct rest as [|[id' r] [|? ?]]; try done. cbn in Hids.
    injection Hids as ->. specialize (Hid id eq_refl).
    rewrite Forall_singleton in Hrest. cbn in Hrest.
    change (option_list (Some id)) with [id].
    cbn [fmap list_fmap foldl].
    unfold fire. cbn [fst snd due now].
    rewrite !next_due_cons, decide_False by lia. rewrite decide_True by done.
    destruct (decide (r = (now s + 1)%N)) as [Hnow|Hnow];
      [rewrite (bool_decide_eq_true_2 (Some r = _)) by congruence
      |rewrite (bool_decide_eq_false_2 (Some r = _)) by congruence].
    + unfold handle. cbn [page now due wire].
      rewrite step_new_frames by done.
      rewrite (bool_decide_eq_false_2 (id = heartbeat_id)) by lia.
      assert (Hp2 : timers_tracked (reconnect_attempt p1)).
      { rewrite <- (reconnect_fires p1 id) by done.
        by apply timers_tracked_step. }
      assert (Hr2 : reconnectInterval (reconnect_attempt p1) = Some id)
        by exact Hr1.
      rewrite reconnect_fires by done.
      rewrite (schedule_same _ (reconnect_attempt p1) hb1 [(id, r)]);
        [| done | by rewrite Hr2].
      cbn [fmap list_fmap fst snd].
      rewrite (bool_decide_eq_false_2 (heartbeat_id = id)) by lia.
      rewrite (bool_decide_eq_true_2 (id = id)) by done.
      cbn [fmap list_fmap]. rewrite app_nil_r.
      split; [|split; [done | split; [done | split; [done | done]]]].
      split; [done |].
      exists hb1, [(id, (now s + 1 + 3000)%N)].
      cbn [due page now]. split; [done |].
      split; [by rewrite Hr2 |]. split; [|done].
      apply Forall_singleton. cbn. lia.
    + split; [|split; [done | split; [done | split; [done | done]]]].
      split; [done |]. exists hb1, [(id, r)]. cbn [due page now].
      split; [done |]. split; [by rewrite Hr1 |]. split; [|done].
      apply Forall_singleton. cbn. lia.
  - destruct rest; [|done]. change (option_list None) with (@nil nat).
    cbn [fmap list_fmap foldl].
    split; [|split; [done | split; [done | split; [done | done]]]].
    split; [done |]. exists hb1, []. cbn [due page now].
    split; [done |]. split; [by rewrite Hr1 |]. split; [constructor | done].
Qed.

Lemma step_on_schedule (s : Clock.State) (i : Input) :
  on_schedule s → on_schedule (Clock.step s i).
Proof.
  intros Hs. destruct i as [|e]; [by apply tick_spec |].
  destruct e; try by apply handle_on_schedule. done.
Qed.

Lemma run_on_schedule (prog : list Input) (s : Clock.State) :
  on_schedule s → on_schedule (Clock.run prog s).
Proof.
  revert s. induction prog as [|i prog IH]; intros s Hs; [done |].
  apply IH. by apply step_on_schedule.
Qed.

Lemma clock_run_snoc (prog : list Input) (i : Input) (s : Clock.State) :
  Clock.run (prog ++ [i]) s = Clock.step (Clock.run prog s) i.
Proof. unfold Clock.run. by rewrite foldl_app. Qed.

Lemma deliver_wire (s : Clock.State) (e : Page.Event) :
  on_schedule s →
  now (Clock.step s (Deliver e)) = now s
  ∧ ∃ new,
      wire (Clock.step s (Deliver e)) = wire s ++ new
      ∧ Forall (λ x, x.2 ≠ ping_frame) new.
Proof.
  intros (Hp & _).
  assert (H : ∃ new,
             wire (handle e s) = wire s ++ new
             ∧ (match e with IntervalFired _ => True
                | _ => Forall (λ x, x.2 ≠ ping_frame) new end)).
  { unfold handle. cbn [wire]. eexists. split; [reflexivity |].
    rewrite step_new_frames by done.
    destruct e; try done.
    destruct (is_open _); repeat constructor. cbn. by vm_compute. }
  destruct H as (new & Hw & Hnew).
  destruct e; cbn [Clock.step]; (split; [done |]);
    try (by exists new).
  exists []. by rewrite app_nil_r.
Qed.

Lemma following_snoc (t : N) (n : nat) :
  following t (S n) = following t n ++ [(t + N.of_nat (S n))%N].
Proof. unfold following. by rewrite seq_S, fmap_app. Qed.

(** C6: the heartbeat of the renderer on the clock.  In every run of the
    process, time counted in milliseconds from the end of the script:
    a millisecond puts the frame {"type":"ping"} (written here code unit
    by code unit) on the wire exactly when it ends on a multiple of 30000
    and the socket of [ws] is OPEN at that moment, and nothing otherwise;
    no event the loop delivers puts a ping on the wire; so every ping of
    the run was sent at a positive multiple of 30000; and while the socket
    stays OPEN with no reconnect timer running, the pings of the next [n]
    milliseconds are one at each multiple of 30000 among them.  The period
    is below the liveness timeout of 60000. *)
Theorem heartbeat_pings_while_open (prog : list Input) :
  let s := Clock.run prog Clock.boot in
  let ping : jsstring :=
    [123; 34; 116; 121; 112; 101; 34; 58; 34; 112; 105; 110; 103; 34; 125]%N in
  now s = N.of_nat (length (filter (λ i, is_tick i = true) prog))
  ∧ wire (Clock.step s Tick) =
      wire s ++
        match Renderer.ws (dom (page s)) with
        | Some w =>
            if ((now s + 1) `mod` 30000 =? 0)%N then
              match readyState w with
              | OPEN => [((now s + 1)%N, ping)]
              | _ => []
              end
            else []
        | None => []
        end
  ∧ (∀ e, ∃ new,
        wire (Clock.step s (Deliver e)) = wire s ++ new
        ∧ Forall (λ x, x.2 ≠ ping) new)
  ∧ (∀ t, (t, ping) ∈ wire s → (0 < t)%N ∧ (t `mod` 30000 = 0)%N)
  ∧ (∀ (n : nat) (w : WebSocket),
        Renderer.ws (dom (page s)) = Some w → readyState w = OPEN →
        reconnectInterval (page s) = None →
        wire (Clock.run (replicate n Tick) s) =
          wire s ++
            ((λ t, (t, ping)) <$>
               filter (λ t, (t `mod` 30000 = 0)%N) (following (now s) n)))
  ∧ (30000 < liveness_timeout_ms)%N.
Proof.
  intros s ping.
  assert (Hping : ping_frame = ping) by reflexivity.
  assert (Hs : on_schedule s) by apply run_on_schedule, boot_on_schedule.
  split; [|split; [|split; [|split; [|split; [|done]]]]].
  - subst s. clear. induction prog as [|i prog IH] using rev_ind; [done |].
    rewrite clock_run_snoc, filter_app, length_app, Nat2N.inj_add, <- IH.
    assert (Hs : on_schedule (Clock.run prog Clock.boot))
      by apply run_on_schedule, boot_on_schedule.
    destruct i as [|e].
    + cbn [Clock.step]. by rewrite (proj1 (proj2 (tick_spec _ Hs))).
    + rewrite (proj1 (deliver_wire _ e Hs)).
      rewrite filter_cons_False by done. cbn. lia.
  - cbn [Clock.step].
    destruct (tick_spec s Hs) as (_ & _ & _ & -> & _). f_equal.
    rewrite Hping. destruct (Renderer.ws (dom (page s))) as [[[] l]|];
      cbn; by destruct (_ =? _)%N.
  - intros e. rewrite <- Hping. by apply deliver_wire.
  - subst s. clear Hs. rewrite <- Hping. clear Hping ping.
    induction prog as [|i prog IH] using rev_ind.
    { intros t Ht. by apply elem_of_nil in Ht. }
    intros t. rewrite clock_run_snoc.
    assert (Hs : on_schedule (Clock.run prog Clock.boot))
      by apply run_on_schedule, boot_on_schedule.
    destruct i as [|e].
    + cbn [Clock.step]. destruct (tick_spec _ Hs) as (_ & _ & _ & -> & _).
      rewrite elem_of_app. intros [Ht|Ht]; [by apply IH |].
      destruct (N.eqb_spec ((now (Clock.run prog Clock.boot) + 1) `mod` 30000) 0)
        as [E|E]; cbn [andb] in Ht; [|by apply elem_of_nil in Ht].
      destruct (is_open _); [|by apply elem_of_nil in Ht].
      apply list_elem_of_singleton in Ht. injection Ht as ->.
      split; [lia | done].
    + destruct (deliver_wire _ e Hs) as (_ & new & -> & Hnew).
      rewrite elem_of_app. intros [Ht|Ht]; [by apply IH |].
      rewrite Forall_forall in Hnew. by destruct (Hnew _ Ht).
  - intros n w Hw Ho Hr. rewrite <- Hping. clearbody s. clear Hping ping.
    assert (H : let s' := Clock.run (replicate n Tick) s in
                on_schedule s'
                ∧ now s' = (now s + N.of_nat n)%N
                ∧ reconnectInterval (page s') = None
                ∧ is_open (Renderer.ws (dom (page s'))) = true
                ∧ wire s' =
                    wire s ++
                      ((λ t, (t, ping_frame)) <$>
                         filter (λ t, (t `mod` 30000 = 0)%N) (following (now s) n))).
    { induction n as [|n IH].
      - cbn. rewrite app_nil_r, N.add_0_r, Hw. cbn.
        by rewrite Ho.
      - rewrite replicate_S_end, clock_run_snoc. cbn [Clock.step].
        destruct IH as (Hs' & Hnow & Hr' & Ho' & Hwire).
        set (s' := Clock.run (replicate n Tick) s) in *. clearbody s'.
        destruct (tick_spec s' Hs') as (H1 & H2 & H3 & H4 & H5).
        cbn zeta. split; [done |]. split; [lia |].
        split; [congruence |]. split.
        + rewrite (H5 Hr'). destruct (_ =? _)%N; [|done].
          cbn. by rewrite is_open_send_if_open.
        + rewrite H4, Hwire, Ho', andb_true_r, <- app_assoc. f_equal.
          rewrite following_snoc, filter_app, fmap_app. f_equal.
          replace (now s + N.of_nat (S n))%N with (now s' + 1)%N by lia.
          destruct (N.eqb_spec ((now s' + 1) `mod` 30000) 0) as [E|E].
          * by rewrite filter_cons_True.
          * by rewrite filter_cons_False. }
    apply H.
Qed.

End ClockFacts.


(** * Further properties of the prompter *)

Section PrompterMore.
Import Prompter PrompterPage.

Lemma perform_snoc (acts : list Action) (a : Action) (s : Prompter.State) :
  perform (acts ++ [a]) s = act (perform acts s) a.
Proof. unfold perform. by rewrite foldl_app. Qed.

Lemma prompter_since_clear_snoc (acts : list Action) (a : Action) :
  PrompterPage.since_clear (acts ++ [a]) =
    match a with
    | Incoming m => PrompterPage.since_clear acts ++ [m]
    | ClearAll => []
    end.
Proof. unfold PrompterPage.since_clear. by rewrite foldl_app. Qed.

Lemma final_transcripts_snoc (ms : list Message) (m : Message) :
  final_transcripts (ms ++ [m]) =
    final_transcripts ms ++
      (if bool_decide (type m = lit "transcript") && is_final (data m)
       then [data m] else []).
Proof.
  unfold final_transcripts. rewrite filter_app, fmap_app. f_equal.
  case_bool_decide as H; cbn [andb].
  - destruct (is_final (data m)) eqn:Hf.
    + by rewrite filter_cons_True.
    + rewrite filter_cons_False; [done |]. intros [_ ?]. congruence.
  - rewrite filter_cons_False; [done |]. by intros [? _].
Qed.

Lemma hint_data_snoc (ms : list Message) (m : Message) :
  hint_data (ms ++ [m]) =
    hint_data ms ++ (if bool_decide (type m = lit "hint") then [data m] else []).
Proof.
  unfold hint_data. rewrite filter_app, fmap_app. f_equal.
  case_bool_decide.
  - by rewrite filter_cons_True.
  - by rewrite filter_cons_False.
Qed.

Lemma last_slice_last {A} (n : nat) (l : list A) :
  last (slice_last (S n) l) = last l.
Proof.
  induction l as [|x l _] using rev_ind; [done |].
  by rewrite slice_last_snoc, !last_snoc.
Qed.

Lemma prompter_history (acts : list Action) (v : bool) :
  transcripts (perform acts (initial v))
    = slice_last 11 (final_transcripts (PrompterPage.since_clear acts))
  ∧ hints (perform acts (initial v))
    = slice_last 6 (hint_data (PrompterPage.since_clear acts))
  ∧ currentHint (perform acts (initial v))
    = last (hint_data (PrompterPage.since_clear acts)).
Proof.
  induction acts as [|a acts IH] using rev_ind; [done |].
  rewrite perform_snoc, prompter_since_clear_snoc.
  destruct IH as (IHt & IHh & IHc). destruct a as [m|]; [|done].
  rewrite final_transcripts_snoc, hint_data_snoc.
  cbn [act]. unfold handleMessage. case_bool_decide as Hty.
  - rewrite (bool_decide_eq_false_2 (type m = lit "hint"))
      by (rewrite Hty; intros E; symmetry in E;
          by apply hint_is_not_transcript).
    rewrite !app_nil_r. cbn [andb].
    destruct (is_final (data m)); cbn [transcripts hints currentHint].
    + split; [|done]. rewrite slice_last_snoc, IHt.
      by rewrite slice_last_idem by lia.
    + by rewrite app_nil_r.
  - cbn [andb]. rewrite app_nil_r. case_bool_decide as Hh.
    + cbn [transcripts hints currentHint].
      split; [done |]. split; [|by rewrite last_snoc].
      rewrite slice_last_snoc, IHh. by rewrite slice_last_idem by lia.
    + rewrite app_nil_r. by case_bool_decide.
Qed.

(** X12: whatever was received before, after a [clearAll] the prompter
    holds what it would hold had it started with the messages received
    since: the 11 most recent final transcripts and the 6 most recent
    hints of them; and the current hint is always the newest of the hints
    it holds. *)
Theorem prompter_state_since_clear (acts : list Action) (v : bool) :
  let s := perform acts (initial v) in
  let ms := PrompterPage.since_clear acts in
  transcripts s = slice_last 11 (final_transcripts ms)
  ∧ hints s = slice_last 6 (hint_data ms)
  ∧ currentHint s = last (hints s)
  ∧ currentHint s = last (hint_data ms).
Proof.
  cbn zeta. destruct (prompter_history acts v) as (Ht & Hh & Hc).
  repeat split; try done.
  by rewrite Hh, last_slice_last.
Qed.

(** X22: the prompter's interim text is what the most recent transcript
    message since the last [clearAll] left: empty after a final
    transcript, the text of the message after a non-final one (nothing
    when that message has no text), and empty when there was none. *)
Theorem interim_text_follows_last_transcript (acts : list Action) (v : bool) :
  interimText (perform acts (initial v)) =
    interim_after (last_transcript (PrompterPage.since_clear acts)).
Proof.
  induction acts as [|a acts IH] using rev_ind; [done |].
  rewrite perform_snoc, prompter_since_clear_snoc.
  destruct a as [m|]; [|done].
  unfold last_transcript in *. rewrite filter_app, fmap_app.
  cbn [act]. unfold handleMessage. case_bool_decide as Hty.
  - rewrite filter_cons_True by done. rewrite filter_nil.
    cbn [fmap list_fmap]. rewrite last_snoc. cbn [interim_after].
    by destruct (is_final (data m)).
  - rewrite filter_cons_False by done. rewrite filter_nil.
    cbn [fmap list_fmap]. rewrite app_nil_r.
    by repeat case_bool_decide.
Qed.

(** X13: the prompter calls [navigator.vibrate(200)] once for every hint
    message it handles, and never on a host without vibration. *)
Theorem one_vibration_per_hint (acts : list Action) (v : bool) :
  vibrate (perform acts (initial v)) =
    if v then Some (replicate (hint_count acts) 200%N) else None.
Proof.
  induction acts as [|a acts IH] using rev_ind; [by destruct v |].
  rewrite perform_snoc. unfold hint_count in *.
  rewrite filter_app, length_app.
  destruct a as [m|]; cbn [act].
  - unfold handleMessage. case_bool_decide as Hty.
    + rewrite filter_cons_False.
      2: { cbn. rewrite bool_decide_eq_false_2; [done |].
           rewrite Hty. intros E. symmetry in E.
           by apply hint_is_not_transcript. }
      rewrite filter_nil, Nat.add_0_r.
      by destruct (is_final (data m)).
    + case_bool_decide as Hh.
      * rewrite filter_cons_True by (cbn; by rewrite bool_decide_eq_true_2).
        cbn [vibrate]. rewrite IH. destruct v; [|done]. cbn.
        by rewrite Nat.add_1_r, replicate_S_end.
      * rewrite filter_cons_False
          by (cbn; by rewrite bool_decide_eq_false_2).
        rewrite filter_nil, Nat.add_0_r. by case_bool_decide.
  - rewrite filter_cons_False by done. by rewrite filter_nil, Nat.add_0_r.
Qed.

End PrompterMore.

Section PrompterRender.
Context {platform : Platform}.
Import Prompter PrompterPage.

Lemma filter_cards_nil (P : Node → Prop) `{!∀ n, Decision (P n)} (l : list Data) :
  (∀ a b c, ¬ P (TranscriptCard a b c)) →
  filter P (map (λ t, TranscriptCard (text t) (percent (confidence t))
                        (localeTime (timestamp t))) l) = [].
Proof.
  intros HP. induction l as [|x l IH]; [done |]. cbn [map].
  by rewrite filter_cons_False by apply HP.
Qed.

Ltac filter_small :=
  repeat first
    [ rewrite filter_cons_True by done
    | rewrite filter_cons_False by done
    | rewrite filter_nil ].

Lemma render_hint_panel (s : Prompter.State) :
  filter (λ n, is_hint_panel n = true) (render s) =
    match currentHint s with
    | Some h => [HintPanel (text h) (question h)]
    | None => []
    end.
Proof.
  unfold render. rewrite !filter_app, filter_cards_nil by done.
  destruct (currentHint s); destruct (bool_decide _ && _);
    destruct (truthy _); destruct (bool_decide (1 < _));
    filter_small; done.
Qed.

Lemma render_previous_hints (s : Prompter.State) :
  filter (λ n, is_previous_hints n = true) (render s) =
    if bool_decide (1 < length (hints s))
    then [PreviousHints (map text (rev (removelast (hints s))))] else [].
Proof.
  unfold render. rewrite !filter_app, filter_cards_nil by done.
  destruct (currentHint s); destruct (bool_decide _ && _);
    destruct (truthy _); destruct (bool_decide (1 < _));
    filter_small; done.
Qed.

Lemma removelast_length {A} (l : list A) :
  length (removelast l) = pred (length l).
Proof.
  induction l as [|x l _] using rev_ind; [done |].
  rewrite removelast_last, length_app. cbn. lia.
Qed.

(** X14: the prompter renders a hint panel exactly when a hint has
    arrived since the last [clearAll], and it shows the text and the
    question of the most recent one; the list of previous hints appears
    from the second hint on, holds the hints before the current one,
    newest first, and never more than five. *)
Theorem hint_panels_show_latest (acts : list Action) (v : bool) :
  let s := perform acts (initial v) in
  let hs := hint_data (PrompterPage.since_clear acts) in
  filter (λ n, is_hint_panel n = true) (render s) =
    match last hs with
    | Some h => [HintPanel (text h) (question h)]
    | None => []
    end
  ∧ filter (λ n, is_previous_hints n = true) (render s) =
      (if bool_decide (2 ≤ length hs)
       then [PreviousHints (map text (rev (removelast (slice_last 6 hs))))]
       else [])
  ∧ length (removelast (slice_last 6 hs)) ≤ 5.
Proof.
  intros s hs.
  destruct (prompter_history acts v) as (_ & Hh & Hc).
  fold s hs in Hh, Hc.
  rewrite render_hint_panel, render_previous_hints, Hc, Hh.
  split; [done |]. split.
  - rewrite slice_last_length.
    repeat case_bool_decide; try done; lia.
  - rewrite removelast_length, slice_last_length. lia.
Qed.

End PrompterRender.

(** ** The prompter's connection *)

Section PrompterConnection.
Import PrompterPage.

Lemma prompter_run_snoc (es : list Event) (e : Event) (s : State) :
  run (es ++ [e]) s = step (run es s) e.
Proof. unfold run. by rewrite foldl_app. Qed.

Lemma handleMessage_wsRef (m : Message) (p : Prompter.State) :
  Prompter.wsRef (Prompter.handleMessage m p) = Prompter.wsRef p.
Proof.
  unfold Prompter.handleMessage.
  repeat case_bool_decide; try done. by destruct (is_final _).
Qed.

Lemma one_connection_boot (v : bool) : one_connection (boot v).
Proof.
  split; [constructor |]. eexists. split; [reflexivity |]. by left.
Qed.

Lemma one_connection_step (s : State) (e : Event) :
  one_connection s → one_connection (step s e).
Proof.
  intros (Hold & w & Hw & Hcase).
  assert (Hearlier : ∀ i w', earlier s !! i = Some w' → readyState w' = CLOSED).
  { intros i w' Hi. by eapply Forall_lookup_1 in Hold. }
  destruct e as [r|[m|]|r|r|r| | |]; cbn [step].
  - destruct r as [|i]; cbn [socket_at].
    + rewrite Hw. case_bool_decide as Hc; [|by split; eauto].
      unfold onopen, set_state, console_line, set_readyState. cbn.
      rewrite Hw. cbn.
      destruct (mounted s); cbn; (split; [done |]); eexists;
        (split; [reflexivity |]); left; cbn;
        (split; [done |]); destruct Hcase as [[_ ?]|[? _]]; congruence.
    + destruct (earlier s !! i) as [w'|] eqn:Hi; [|by split; eauto].
      rewrite (Hearlier _ _ Hi). by split; eauto.
  - unfold onmessage, set_state.
    destruct (mounted s) eqn:Hm; rewrite ?Hm; cbn; (split; [done |]);
      exists w; cbn [ui]; rewrite ?handleMessage_wsRef;
      (split; [exact Hw | exact Hcase]).
  - split; eauto.
  - destruct (socket_at r s); [|by split; eauto].
    case_bool_decide; [by split; eauto |].
    unfold onerror, set_state, console_line. cbn.
    destruct (mounted s); cbn; split; eauto.
  - destruct r as [|i]; cbn [socket_at].
    + rewrite Hw. case_bool_decide as Hc; [by split; eauto |].
      unfold onclose, set_state, console_line, set_readyState. cbn.
      rewrite Hw. cbn.
      destruct Hcase as [[_ Hp]|[? _]]; [|done].
      destruct (mounted s); cbn; (split; [done |]); eexists;
        (split; [reflexivity |]); right; cbn; (split; [done | lia]).
    + destruct (earlier s !! i) as [w'|] eqn:Hi; [|by split; eauto].
      rewrite (Hearlier _ _ Hi). by split; eauto.
  - destruct r as [|i]; cbn [socket_at].
    + rewrite Hw. case_bool_decide as Ho; [|by split; eauto].
      unfold set_readyState. cbn. rewrite Hw. cbn. split; [done |].
      eexists. split; [reflexivity |]. left. cbn. split; [done |].
      destruct Hcase as [[_ ?]|[? _]]; congruence.
    + destruct (earlier s !! i) as [w'|] eqn:Hi; [|by split; eauto].
      rewrite (Hearlier _ _ Hi). by split; eauto.
  - destruct Hcase as [[Hne Hp]|[Hclosed Hp]]; rewrite Hp.
    { split; [done |]. exists w. split; [done |]. by left. }
    unfold connectWebSocket. cbn. rewrite Hw. cbn. split.
    + apply Forall_app. split; [done |]. by repeat constructor.
    + eexists. split; [reflexivity |]. by left.
  - destruct (mounted s); [|by split; eauto]. split; [done |].
    cbn [ui pending Prompter.clearAll Prompter.wsRef].
    rewrite Hw. unfold send_if_open.
    destruct (is_open (Some w)); cbn; eexists;
      (split; [reflexivity | exact Hcase]).
  - destruct (mounted s); [|by split; eauto].
    unfold cleanup. cbn. rewrite Hw. cbn. split; [done |].
    eexists. split; [reflexivity |].
    unfold close. destruct Hcase as [[Hne Hp]|[Hc Hp]].
    + left. split; [|done].
      destruct (readyState w) eqn:E; cbn; congruence.
    + right. split; [|done]. by rewrite Hc.
Qed.

Lemma one_connection_run (es : list Event) (s : State) :
  one_connection s → one_connection (run es s).
Proof.
  revert s. induction es as [|e es IH]; intros s Hs; [done |].
  apply IH. by apply one_connection_step.
Qed.

(** X15: the prompter holds one connection at a time.  In every run,
    mounted or not, the sockets its reference has left are all CLOSED, and
    either the current socket is not CLOSED and no reconnect is scheduled,
    or it is CLOSED and exactly one reconnect is scheduled. *)
Theorem prompter_one_connection (es : list Event) (v : bool) :
  let s := run es (boot v) in
  Forall (λ w, readyState w = CLOSED) (earlier s)
  ∧ pending s ≤ 1
  ∧ ∃ w, Prompter.wsRef (ui s) = Some w
         ∧ (pending s = 0 ↔ readyState w ≠ CLOSED).
Proof.
  intros s.
  destruct (one_connection_run es (boot v) (one_connection_boot v))
    as (Hold & w & Hw & Hcase).
  fold s in Hold, Hw, Hcase. split; [done |].
  split; [destruct Hcase as [[_ ?]|[_ ?]]; lia |].
  exists w. split; [done |].
  destruct Hcase as [[? ?]|[? ?]]; split; intros; try done; lia.
Qed.

Lemma handleMessage_connected (m : Message) (p : Prompter.State) :
  Prompter.connected (Prompter.handleMessage m p) = Prompter.connected p.
Proof.
  unfold Prompter.handleMessage.
  repeat case_bool_decide; try done. by destruct (is_final _).
Qed.

Lemma connected_means_opened_step (s : State) (e : Event) :
  one_connection s → connected_means_opened s →
  connected_means_opened (step s e).
Proof.
  intros (Hold & w & Hw & Hcase) Hinv.
  assert (Hearlier : ∀ i w', earlier s !! i = Some w' → readyState w' = CLOSED).
  { intros i w' Hi. by eapply Forall_lookup_1 in Hold. }
  unfold connected_means_opened in *.
  destruct e as [r|[m|]|r|r|r| | |]; cbn [step].
  - destruct r as [|i]; cbn [socket_at].
    + rewrite Hw. case_bool_decide as Hc; [|done].
      unfold onopen, set_state, console_line, set_readyState. cbn.
      destruct (mounted s); [|done]. cbn. rewrite Hw. cbn.
      intros _ _. eexists. split; [reflexivity |]. by left.
    + destruct (earlier s !! i) as [w'|] eqn:Hi; [|done].
      by rewrite (Hearlier _ _ Hi).
  - unfold onmessage, set_state. destruct (mounted s) eqn:Hm; [|done].
    rewrite ?Hm. cbn [ui mounted].
    rewrite handleMessage_connected, handleMessage_wsRef. auto.
  - done.
  - destruct (socket_at r s); [|done]. case_bool_decide; [done |].
    unfold onerror, set_state, console_line. cbn.
    destruct (mounted s); done.
  - destruct (socket_at r s); [|done]. case_bool_decide; [done |].
    unfold onclose, set_state, console_line. cbn.
    destruct r; cbn; destruct (mounted s); done.
  - destruct r as [|i]; cbn [socket_at].
    + rewrite Hw. case_bool_decide as Ho; [|done].
      unfold set_readyState. cbn. rewrite Hw. cbn.
      intros _ _. eexists. split; [reflexivity |]. by right.
    + destruct (earlier s !! i) as [w'|] eqn:Hi; [|done].
      by rewrite (Hearlier _ _ Hi).
  - destruct Hcase as [[Hne Hp]|[Hclosed Hp]]; rewrite Hp; [exact Hinv |].
    unfold connectWebSocket. cbn. intros Hm Hcon.
    destruct (Hinv Hm Hcon) as (w' & Hw' & Hrs).
    rewrite Hw in Hw'. injection Hw' as <-.
    destruct Hrs; congruence.
  - destruct (mounted s) eqn:Hm; [|by rewrite Hm].
    cbn [ui mounted Prompter.clearAll Prompter.connected Prompter.wsRef].
    intros _ Hcon. destruct (Hinv eq_refl Hcon) as (w' & Hw' & Hrs).
    rewrite Hw'. rewrite send_if_open_socket. eexists. split; [reflexivity |].
    exact Hrs.
  - destruct (mounted s) eqn:Hm; [|by rewrite Hm]. by unfold cleanup.
Qed.

(** X16: while the prompter is mounted, its connected indicator is on
    only between the open event and the close event of the current socket:
    the socket is then OPEN or, once the server has started the closing
    handshake, CLOSING; it is never CONNECTING or CLOSED.  In the CLOSING
    case the indicator is still on and a click on Clear sends nothing. *)
Theorem connected_between_open_and_close (es : list Event) (v : bool) :
  (let s := run es (boot v) in
   mounted s = true → Prompter.connected (ui s) = true →
   ∃ w, Prompter.wsRef (ui s) = Some w
        ∧ (readyState w = OPEN ∨ readyState w = CLOSING))
  ∧ (let s := run [Opened Current; PeerClosing Current] (boot v) in
     mounted s = true
     ∧ Prompter.connected (ui s) = true
     ∧ Prompter.wsRef (ui s) = Some (mkWebSocket CLOSING [])
     ∧ Prompter.wsRef (ui (step s ClearClicked)) = Some (mkWebSocket CLOSING [])).
Proof.
  split; [|done].
  intros s Hm Hc.
  assert (H : one_connection s ∧ connected_means_opened s).
  { subst s. clear Hm Hc. induction es as [|e es IH] using rev_ind.
    - split; [apply one_connection_boot | by intros _ ?].
    - rewrite prompter_run_snoc. destruct IH as [H1 H2]. split.
      + by apply one_connection_step.
      + by apply connected_means_opened_step. }
  destruct H as [_ H]. exact (H Hm Hc).
Qed.

(** X17: unmounting the prompter does not end its reconnect loop.  The
    cleanup closes the current socket, the close event of that socket
    schedules a reconnect as every close does, and when the timeout fires
    a new CONNECTING socket becomes current although the component is
    gone. *)
Theorem unmount_still_reconnects (es : list Event) (v : bool) :
  let s := run es (boot v) in
  mounted s = true → pending s = 0 →
  let s' := run [Unmounted; Closed Current; TimeoutFired] s in
  mounted s' = false
  ∧ Prompter.wsRef (ui s') = Some (mkWebSocket CONNECTING [])
  ∧ pending s' = 0
  ∧ length (earlier s') = S (length (earlier s)).
Proof.
  intros s Hm Hp.
  destruct (one_connection_run es (boot v) (one_connection_boot v))
    as (_ & w & Hw & Hcase).
  fold s in Hw, Hcase.
  destruct Hcase as [[Hne _]|[_ ?]]; [|lia].
  clearbody s. cbn [run foldl step]. rewrite Hm.
  unfold cleanup. cbn [mounted socket_at ui Prompter.wsRef set_wsRef].
  rewrite Hw. cbn [fmap option_fmap option_map].
  assert (Hclose : readyState (close w) ≠ CLOSED).
  { unfold close. destruct (readyState w) eqn:E; cbn; congruence. }
  rewrite bool_decide_eq_false_2 by done.
  unfold onclose, set_state, console_line, set_readyState, connectWebSocket.
  cbn. rewrite Hp. cbn. rewrite length_app. cbn. repeat split; lia.
Qed.

End PrompterConnection.

(** * The Electron main process *)

Section MainFacts.
Import Main.

Lemma main_run_snoc (env : Env) (es : list Event) (e : Event) (s : State) :
  run env (es ++ [e]) s = step env (run env es s) e.
Proof. unfold run. by rewrite foldl_app. Qed.

Lemma platforms_distinct : lit "win32" ≠ lit "darwin".
Proof. by vm_compute. Qed.

Lemma createWindow_shape (env : Env) (ok : bool) (s : State) :
  ∃ w log,
    createWindow env ok s =
      (if bool_decide (platform_name env = lit "darwin")
       then Threw (with_window w false log s)
       else Returned (with_window w true log s))
    ∧ properties w = new_window env.
Proof.
  unfold createWindow, setWindowExStyle.
  destruct (decide (platform_name env = lit "win32")) as [Hwin|Hwin].
  - rewrite (bool_decide_eq_true_2 (_ = lit "win32")) by done.
    rewrite (bool_decide_eq_false_2 (_ ≠ lit "win32")) by auto.
    rewrite (bool_decide_eq_false_2 (_ = lit "darwin"))
      by (rewrite Hwin; apply platforms_distinct).
    destruct (dev env); destruct ok; by eexists _, _.
  - rewrite (bool_decide_eq_false_2 (_ = lit "win32")) by done.
    destruct (dev env); case_bool_decide; by eexists _, _.
Qed.

(** X18: [createWindow] makes one window, to which [mainWindow] then
    refers, with the options of the constructor call on every platform:
    400 by 600, always on top, shown in the taskbar, 20 pixels below the
    top of the work area and with its right edge 20 pixels inside it; the
    Windows styling changes none of its properties, whether or not its
    native call succeeds.  On every platform but darwin the function
    returns with the ['closed'] handler attached to the window; on darwin
    it throws at [setWindowLevel], and the window is left without that
    handler.  The shortcuts are not touched. *)
Theorem created_window_properties (env : Env) (ok : bool) (s : State) :
  ∃ w s',
    createWindow env ok s =
      (if bool_decide (platform_name env = lit "darwin")
       then Threw s' else Returned s')
    ∧ windows s' = windows s ++ [(next_window s, w)]
    ∧ mainWindow s' = Some (next_window s)
    ∧ closed_handlers s' =
        closed_handlers s
        ++ (if bool_decide (platform_name env = lit "darwin")
            then [] else [next_window s])
    ∧ shortcuts s' = shortcuts s
    ∧ properties w = new_window env
    ∧ skipTaskbar w = false
    ∧ alwaysOnTop w = true
    ∧ (x w + width w + 20 = (workAreaSize env).1)%Z
    ∧ y w = 20%Z.
Proof.
  destruct (createWindow_shape env ok s) as (w & log & -> & Hw).
  exists w.
  exists (with_window w (negb (bool_decide (platform_name env = lit "darwin")))
            log s).
  split; [by case_bool_decide |]. split; [done |]. split; [done |].
  split; [by case_bool_decide |]. split; [done |]. split; [done |].
  split; [by apply (f_equal skipTaskbar) in Hw |].
  split; [by apply (f_equal alwaysOnTop) in Hw |].
  split; [|by apply (f_equal y) in Hw].
  apply (f_equal x) in Hw as Hx. apply (f_equal width) in Hw as Hwd.
  cbn in Hx, Hwd. lia.
Qed.

Lemma single_window_initial : single_window initial.
Proof. by repeat split. Qed.

Lemma single_window_create (env : Env) (ok : bool) (s : State) :
  platform_name env ≠ lit "darwin" → windows s = [] →
  ∃ s1,
    createWindow env ok s = Returned s1
    ∧ (windows s1).*1 = [next_window s]
    ∧ mainWindow s1 = Some (next_window s)
    ∧ next_window s1 = S (next_window s)
    ∧ next_window s ∈ closed_handlers s1
    ∧ shortcuts s1 = shortcuts s
    ∧ ready s1 = ready s
    ∧ has_quit s1 = has_quit s
    ∧ aborted s1 = aborted s.
Proof.
  intros Hp Hw. destruct (createWindow_shape env ok s) as (w & log & -> & _).
  rewrite bool_decide_eq_false_2 by done. eexists. split; [reflexivity |].
  cbn. rewrite Hw. repeat split; try done.
  apply elem_of_app. right. by apply list_elem_of_singleton.
Qed.

Lemma single_window_quit (s : State) :
  single_window s → single_window (quit s).
Proof.
  intros (Hw & Hid & Hs & Hr & Hq & Ha).
  assert (Hnone : (if some_handler s then None else mainWindow s) = None).
  { unfold some_handler. destruct (mainWindow s) as [id|] eqn:Hm.
    - destruct (windows s) as [|[i w] [|? ?]]; try done.
      cbn in Hw. injection Hw as ->. cbn.
      by rewrite bool_decide_eq_true_2 by (by apply Hid).
    - by destruct (existsb _ _). }
  unfold quit, will_quit. cbn. rewrite Hnone.
  split; [|split; [|split; [|split; [|split]]]]; cbn; try done.
  by rewrite andb_false_r.
Qed.

Lemma single_window_closed (env : Env) (id : nat) (s : State) :
  single_window s → single_window (window_closed env id s).
Proof.
  intros Hs. pose proof Hs as (Hw & Hid & Hsc & Hr & Hq & Ha).
  unfold window_closed. case_bool_decide as Hin; [|done].
  rewrite Hw in Hin. destruct (mainWindow s) as [m|] eqn:Hm;
    [|by apply elem_of_nil in Hin].
  apply list_elem_of_singleton in Hin as ->.
  destruct (windows s) as [|[i w] [|? ?]] eqn:E; try done.
  cbn in Hw. injection Hw as ->.
  rewrite bool_decide_eq_true_2 by (by apply Hid).
  cbn. rewrite decide_False by (cbn; auto). cbn.
  assert (H1 : single_window
                 (mkState (ready s) [] (next_window s) None (closed_handlers s)
                    (shortcuts s) (has_quit s) (aborted s) (console s))).
  { split; [done |]. split; [done |]. split; [done |]. done. }
  case_bool_decide; [|done]. by apply single_window_quit.
Qed.

Lemma single_window_on_mainWindow (f : BrowserWindow → BrowserWindow) (s : State) :
  single_window s → single_window (on_mainWindow f s).
Proof.
  intros Hs. pose proof Hs as (Hw & Hid & Hsc & Hr & Hq & Ha).
  unfold on_mainWindow.
  destruct (mainWindow s) as [id|] eqn:Hm; [|exact Hs].
  split; [|split; [|split; [|split; [|split]]]]; cbn; try done.
  - change [id] with (option_list (Some id)).
    rewrite <- Hw, <- list_fmap_compose. apply list_fmap_ext.
    intros ? [i w] _. cbn. by case_bool_decide.
  - intros Hf. by rewrite (Hr Hf).
Qed.

Lemma single_window_step (env : Env) (s : State) (e : Event) :
  platform_name env ≠ lit "darwin" →
  single_window s → single_window (step env s e).
Proof.
  intros Hp Hs. pose proof Hs as (Hw & Hid & Hsc & Hr & Hqm & Ha).
  unfold step. rewrite Ha, orb_false_r.
  destruct (has_quit s) eqn:Hq; [done |].
  destruct e as [ok|ok|id|ch flag|a].
  - destruct (ready s) eqn:Hrd; [done |].
    destruct (single_window_create env ok s Hp (Hr eq_refl))
      as (s1 & E & H1 & H2 & H3 & H4 & H5 & H6 & H7 & H8).
    unfold on_ready. rewrite E.
    split; [|split; [|split; [|split; [|split]]]]; cbn.
    + by rewrite H1, H2.
    + rewrite H2, H3. intros id [= <-]. split; [lia | done].
    + rewrite H5, H7, Hsc, Hq. by rewrite andb_false_l.
    + done.
    + rewrite H7. congruence.
    + congruence.
  - destruct (ready s) eqn:Hrd; [|done]. unfold on_activate.
    case_bool_decide as Hlen; [|done].
    apply nil_length_inv in Hlen.
    destruct (single_window_create env ok s Hp Hlen)
      as (s1 & E & H1 & H2 & H3 & H4 & H5 & H6 & H7 & H8).
    rewrite E. split; [|split; [|split; [|split; [|split]]]].
    + by rewrite H1, H2.
    + rewrite H2, H3. intros id [= <-]. split; [lia | done].
    + by rewrite H5, H6, H7, Hsc, Hrd, Hq.
    + rewrite H6. congruence.
    + rewrite H7. congruence.
    + congruence.
  - by apply single_window_closed.
  - unfold on_ipc. repeat case_bool_decide; try done.
    + by apply single_window_on_mainWindow.
    + destruct (mainWindow s); [|done]. by apply single_window_closed.
    + by apply single_window_on_mainWindow.
  - repeat case_bool_decide; try done.
    + by apply single_window_on_mainWindow.
    + by apply single_window_quit.
Qed.

Lemma single_window_run (env : Env) (es : list Event) (s : State) :
  platform_name env ≠ lit "darwin" →
  single_window s → single_window (run env es s).
Proof.
  intros Hp. revert s. induction es as [|e es IH]; intros s Hs; [done |].
  apply IH. by apply single_window_step.
Qed.

(** X19: on every platform but darwin the main process never has two
    windows and none of its callbacks throws: in every run the open
    windows are the one the variable [mainWindow] refers to, or none when
    it is null, and the two global shortcuts are registered exactly from
    ready until the app quits.  On darwin the ready callback throws inside
    [createWindow]: it leaves one window, without a ['closed'] handler,
    and it registers no shortcut. *)
Theorem main_keeps_one_window (env : Env) (es : list Event) :
  (platform_name env ≠ lit "darwin" →
   let s := run env es initial in
   (windows s).*1 = option_list (mainWindow s)
   ∧ length (windows s) ≤ 1
   ∧ shortcuts s =
       (if ready s && negb (has_quit s)
        then [toggle_shortcut; quit_shortcut] else [])
   ∧ aborted s = false)
  ∧ (platform_name env = lit "darwin" →
     ∀ ok,
       let s := run env [Ready ok] initial in
       aborted s = true
       ∧ ready s = false
       ∧ shortcuts s = []
       ∧ (windows s).*1 = [0]
       ∧ mainWindow s = Some 0
       ∧ closed_handlers s = []).
Proof.
  split.
  - intros Hp s.
    destruct (single_window_run env es initial Hp single_window_initial)
      as (Hw & _ & Hsc & _ & _ & Ha).
    fold s in Hw, Hsc, Ha. split; [done |]. split; [|done].
    rewrite <- (length_fmap fst), Hw. apply option_list_length.
  - intros Hp ok. cbn. unfold on_ready.
    destruct (createWindow_shape env ok initial) as (w & log & -> & _).
    by rewrite bool_decide_eq_true_2.
Qed.

Lemma reachable_with_window (env : Env) (es : list Event) (id : nat) :
  platform_name env ≠ lit "darwin" →
  mainWindow (run env es initial) = Some id →
  has_quit (run env es initial) = false
  ∧ aborted (run env es initial) = false
  ∧ ready (run env es initial) = true
  ∧ id ∈ closed_handlers (run env es initial)
  ∧ ∃ w, windows (run env es initial) = [(id, w)].
Proof.
  intros Hp Hm.
  destruct (single_window_run env es initial Hp single_window_initial)
    as (Hw & Hid & _ & Hr & Hq & Ha).
  rewrite Hm in Hw. split; [|split; [done |split; [|split]]].
  - destruct (has_quit _); [|done]. rewrite Hq in Hm; done.
  - destruct (ready _); [done |]. rewrite Hr in Hw; done.
  - by apply Hid.
  - destruct (windows _) as [|[i w] [|? ?]]; try done.
    cbn in Hw. injection Hw as ->. by exists w.
Qed.

(** X20: on every platform but darwin, when the window of the main
    process closes, by its close button, or by the renderer's close button
    through the "close-window" channel, no window is left, [mainWindow] is
    null, the app quits and its shortcuts are unregistered; nothing that
    is delivered afterwards changes anything. *)
Theorem closing_the_window (env : Env) (es : list Event) (id : nat) :
  platform_name env ≠ lit "darwin" →
  let s := run env es initial in
  mainWindow s = Some id →
  let s' := step env s (WindowClosed id) in
  windows s' = [] ∧ mainWindow s' = None
  ∧ (∀ flag, step env s (Ipc close_btn_channel flag) = s')
  ∧ has_quit s' = true
  ∧ shortcuts s' = []
  ∧ ∀ es', run env es' s' = s'.
Proof.
  intros Hp s Hm.
  destruct (reachable_with_window env es id Hp Hm) as (Hq & Ha & Hr & Hh & w & Hw).
  fold s in Hq, Ha, Hr, Hh, Hw.
  assert (Hclosed : window_closed env id s =
            quit (mkState (ready s) [] (next_window s) None (closed_handlers s)
                    (shortcuts s) (has_quit s) (aborted s) (console s))).
  { unfold window_closed. rewrite Hw. cbn.
    rewrite bool_decide_eq_true_2 by (by apply list_elem_of_singleton).
    rewrite decide_False by (cbn; auto).
    rewrite (bool_decide_eq_true_2 (id ∈ _)) by done.
    by rewrite bool_decide_eq_true_2. }
  intros s'. assert (Hs' : s' = window_closed env id s).
  { subst s'. unfold step. by rewrite Hq, Ha. }
  clearbody s'. subst s'. rewrite Hclosed.
  split; [done |]. split; [done |]. split; [|split; [done | split; [done |]]].
  - intros flag. unfold step, on_ipc. rewrite Hq, Ha.
    rewrite (bool_decide_eq_false_2 (close_btn_channel = lit "minimize-window"))
      by (by vm_compute).
    rewrite (bool_decide_eq_true_2 (close_btn_channel = lit "close-window"))
      by done.
    cbn [orb]. by rewrite Hm, Hclosed, Hq, Ha.
  - intros es'. induction es' as [|e es' IH]; [done |].
    cbn [run foldl] in *. by rewrite <- IH at 2.
Qed.

(** X21: pressing the toggle shortcut twice leaves the main process as
    it was: the window that was visible is hidden and shown again, the one
    that was hidden is shown and hidden again. *)
Theorem toggle_twice_is_identity (env : Env) (s : State) :
  run env [Shortcut toggle_shortcut; Shortcut toggle_shortcut] s = s.
Proof.
  assert (Htoggle : ∀ t, toggle_visibility (toggle_visibility t) = t).
  { intros [r ws n m hs sc q a c]. unfold toggle_visibility, on_mainWindow.
    cbn. destruct m as [id|]; cbn; [|done]. f_equal.
    rewrite <- list_fmap_compose. rewrite <- (list_fmap_id ws) at 2.
    apply list_fmap_ext. intros ? [i w] _. cbn.
    destruct (decide (i = id)) as [->|Hne].
    - rewrite (bool_decide_eq_true_2 (id = id)) by done. cbn.
      rewrite (bool_decide_eq_true_2 (id = id)) by done.
      destruct w as [? ? ? ? ? ? ? ? ? ? [] ?]; done.
    - rewrite (bool_decide_eq_false_2 (i = id)) by done. cbn.
      by rewrite (bool_decide_eq_false_2 (i = id)) by done. }
  cbn [run foldl]. unfold step at 2.
  destruct (has_quit s || aborted s) eqn:Hq; [unfold step; by rewrite Hq |].
  case_bool_decide as Hreg; [|unfold step; by rewrite Hq, bool_decide_eq_false_2].
  rewrite bool_decide_eq_true_2 by done.
  assert (Hsame : has_quit (toggle_visibility s) || aborted (toggle_visibility s)
                  = false
                  ∧ shortcuts (toggle_visibility s) = shortcuts s).
  { unfold toggle_visibility, on_mainWindow. by destruct (mainWindow s). }
  destruct Hsame as [Hq' Hsc']. unfold step. rewrite Hq', Hsc'.
  rewrite !bool_decide_eq_true_2 by done. apply Htoggle.
Qed.

End MainFacts.

(** * Further evaluations on concrete inputs *)

Example boot_page :
  Page.timers Page.boot = [(1, Page.Heartbeat)]
  ∧ Renderer.ws (Page.dom Page.boot) = Some (mkWebSocket CONNECTING []).
Proof. by split. Qed.

Example reconnecting_page_sockets :
  Page.earlier reconnecting_page = [mkWebSocket CLOSED []]
  ∧ Page.reconnectInterval reconnecting_page = Some 2
  ∧ Renderer.statusText (Page.dom reconnecting_page) = lit "Disconnected".
Proof. by vm_compute. Qed.

Example two_pings_in_a_minute :
  Clock.wire
    (Clock.run (platform := sample_platform)
       (Clock.Deliver (Page.Opened Page.Current)
        :: replicate (N.to_nat 60000) Clock.Tick) Clock.boot)
  = [(30000%N,
      [123; 34; 116; 121; 112; 101; 34; 58; 34; 112; 105; 110; 103; 34; 125]%N);
     (60000%N,
      [123; 34; 116; 121; 112; 101; 34; 58; 34; 112; 105; 110; 103; 34; 125]%N)].
Proof. vm_compute. reflexivity. Qed.

Example no_ping_while_connecting :
  Clock.wire
    (Clock.run (platform := sample_platform)
       (replicate (N.to_nat 60000) Clock.Tick) Clock.boot)
  = [].
Proof. vm_compute. reflexivity. Qed.

Example main_on_linux_quits :
  Main.has_quit
    (Main.run linux_host [Main.Ready true; Main.WindowClosed 0] Main.initial)
  = true.
Proof. reflexivity. Qed.

Example main_on_mac_aborts :
  let s := Main.run mac_host [Main.Ready true] Main.initial in
  Main.aborted s = true ∧ Main.shortcuts s = []
  ∧ Main.closed_handlers s = [] ∧ (Main.windows s).*1 = [0].
Proof. by vm_compute. Qed.

Example main_on_windows_logs :
  Main.console (Main.run windows_host [Main.Ready true] Main.initial)
  = [lit "Windows-specific styling applied"]
  ∧ Main.console (Main.run windows_host [Main.Ready false] Main.initial)
    = [lit "Error applying Windows styling:"].
Proof. by vm_compute. Qed.

Lemma escapeHtml_app_injective_witness :
  escapeHtml (Some (lit "a<b")) = escapeHtml (Some (lit "a" ++ lit "<b"))
  ∧ lit "a<b" = lit "a" ++ lit "<b".
Proof.
  split; [reflexivity |].
  apply (proj2 escapeHtml_app_injective). reflexivity.
Defined.

Lemma open_stops_reconnecting_witness :
  let s := reconnecting_page in
  (Page.socket_at Page.Current s = Some Page.fresh_socket
   ∧ readyState Page.fresh_socket = CONNECTING)
  ∧ Page.reconnectInterval s = Some 2
  ∧ Page.reconnectInterval
      (Page.step (platform := sample_platform) s (Page.Opened Page.Current))
    = None.
Proof.
  split; [by split |]. split; [reflexivity |].
  apply (open_stops_reconnecting (platform := sample_platform)
           [Page.Closed Page.Current; Page.IntervalFired 2]
           Page.Current Page.fresh_socket); reflexivity.
Defined.

Lemma earlier_sockets_never_send_witness :
  Page.earlier reconnecting_page !! 0 = Some (mkWebSocket CLOSED [])
  ∧ ∃ w',
      Page.earlier
        (Page.run (platform := sample_platform)
           [Page.Opened Page.Current; Page.ClearClicked; Page.IntervalFired 1]
           reconnecting_page) !! 0 = Some w'
      ∧ sent w' = sent (mkWebSocket CLOSED []).
Proof.
  split; [reflexivity |].
  apply (earlier_sockets_never_send (platform := sample_platform)).
  reflexivity.
Defined.

Lemma frames_follow_clicks_and_heartbeats_witness :
  let es := [Page.ClearClicked; Page.IntervalFired (platform := sample_platform) 1] in
  (Forall (λ e, Page.is_local e = true) es
   ∧ Renderer.ws
       (Page.dom (Page.run (platform := sample_platform)
                    [Page.Opened Page.Current] Page.boot))
     = Some open_socket)
  ∧ Renderer.ws
      (Page.dom (Page.run (platform := sample_platform) es
                   (Page.run (platform := sample_platform)
                      [Page.Opened Page.Current] Page.boot)))
    = Some (mkWebSocket OPEN
              [[123; 34; 116; 121; 112; 101; 34; 58; 34; 99; 108; 101; 97;
                114; 95; 99; 111; 110; 116; 101; 120; 116; 34; 125]%N;
               [123; 34; 116; 121; 112; 101; 34; 58; 34; 112; 105; 110; 103;
                34; 125]%N]).
Proof.
  assert (H : Forall (λ e, Page.is_local e = true)
                [Page.ClearClicked;
                 Page.IntervalFired (platform := sample_platform) 1])
    by (repeat constructor).
  split; [split; [exact H | reflexivity] |].
  exact (frames_follow_clicks_and_heartbeats (platform := sample_platform)
           [Page.Opened Page.Current] _ open_socket H eq_refl).
Defined.

Lemma heartbeat_pings_while_open_witness :
  let s := Clock.run (platform := sample_platform)
             [Clock.Deliver (Page.Opened Page.Current)] Clock.boot in
  (Renderer.ws (Page.dom (Clock.page s)) = Some open_socket
   ∧ readyState open_socket = OPEN
   ∧ Page.reconnectInterval (Clock.page s) = None)
  ∧ Clock.wire (Clock.run (platform := sample_platform)
                  (replicate (N.to_nat 60000) Clock.Tick) s) =
      Clock.wire s ++
        ((λ t, (t, [123; 34; 116; 121; 112; 101; 34; 58; 34; 112; 105; 110;
                    103; 34; 125]%N)) <$>
           filter (λ t, (t `mod` 30000 = 0)%N)
             (Clock.following (Clock.now s) (N.to_nat 60000))).
Proof.
  split; [by repeat split |].
  exact (proj1 (proj2 (proj2 (proj2 (proj2
           (heartbeat_pings_while_open (platform := sample_platform)
              [Clock.Deliver (Page.Opened Page.Current)])))))
           (N.to_nat 60000) open_socket eq_refl eq_refl eq_refl).
Defined.

Lemma reconnect_attempts_accumulate_witness :
  let s := Page.run (platform := sample_platform)
             [Page.Closed Page.Current] Page.boot in
  Page.reconnectInterval s = Some 2
  ∧ Page.earlier (Page.run (platform := sample_platform)
                    (replicate 2 (Page.IntervalFired 2)) s)
    = [mkWebSocket CLOSED []; Page.fresh_socket].
Proof.
  split; [reflexivity |].
  exact (proj1 (reconnect_attempts_accumulate (platform := sample_platform)
                  [Page.Closed Page.Current] 2 1 eq_refl)).
Defined.

Lemma connected_between_open_and_close_witness :
  let s := PrompterPage.run [PrompterPage.Opened PrompterPage.Current]
             (PrompterPage.boot false) in
  (PrompterPage.mounted s = true ∧ Prompter.connected (PrompterPage.ui s) = true)
  ∧ ∃ w, Prompter.wsRef (PrompterPage.ui s) = Some w
         ∧ (readyState w = OPEN ∨ readyState w = CLOSING).
Proof.
  split; [by split |].
  exact (proj1 (connected_between_open_and_close
                  [PrompterPage.Opened PrompterPage.Current] false)
           eq_refl eq_refl).
Defined.

Lemma unmount_still_reconnects_witness :
  let s := PrompterPage.run [PrompterPage.Opened PrompterPage.Current]
             (PrompterPage.boot false) in
  (PrompterPage.mounted s = true ∧ PrompterPage.pending s = 0)
  ∧ Prompter.wsRef
      (PrompterPage.ui
         (PrompterPage.run
            [PrompterPage.Unmounted; PrompterPage.Closed PrompterPage.Current;
             PrompterPage.TimeoutFired] s))
    = Some (mkWebSocket CONNECTING []).
Proof.
  split; [by split |].
  exact (proj1 (proj2 (unmount_still_reconnects
                         [PrompterPage.Opened PrompterPage.Current] false
                         eq_refl eq_refl))).
Defined.

Lemma main_keeps_one_window_witness :
  let s := Main.run windows_host
             [Main.Ready true; Main.Activate true;
              Main.Ipc (lit "toggle-always-on-top") false] Main.initial in
  Main.platform_name windows_host ≠ lit "darwin"
  ∧ (Main.windows s).*1 = [0]
  ∧ Main.shortcuts s = [Main.toggle_shortcut; Main.quit_shortcut].
Proof.
  assert (Hp : Main.platform_name windows_host ≠ lit "darwin") by (by vm_compute).
  split; [exact Hp |].
  destruct (proj1 (main_keeps_one_window windows_host
                     [Main.Ready true; Main.Activate true;
                      Main.Ipc (lit "toggle-always-on-top") false]) Hp)
    as (Hw & _ & Hsc & _).
  split; [exact Hw | exact Hsc].
Defined.

Lemma closing_the_window_witness :
  let s := Main.run linux_host [Main.Ready true] Main.initial in
  (Main.platform_name linux_host ≠ lit "darwin" ∧ Main.mainWindow s = Some 0)
  ∧ Main.windows (Main.step linux_host s (Main.WindowClosed 0)) = []
  ∧ Main.has_quit (Main.step linux_host s (Main.WindowClosed 0)) = true.
Proof.
  assert (Hp : Main.platform_name linux_host ≠ lit "darwin") by (by vm_compute).
  split; [split; [exact Hp | reflexivity] |].
  destruct (closing_the_window linux_host [Main.Ready true] 0 Hp eq_refl)
    as (Hw & _ & _ & Hq & _).
  split; [exact Hw | exact Hq].
Defined.
